(** * Pattern selector: requirement scoring, classification and the loaded set

    A shallow embedding of [pattern_selector_agent/tools/decision.py] and
    [pattern_selector_agent/tools/patterns.py] (with the sibling
    [agentic_patterns/tools/code/skills.py] for its unload operation).

    Python [str] values are modelled by [string], a sequence of code points
    below 256; on that range [str.lower] is character-wise and keeps the
    length.  Python [int] is [Z].  A [dict] is an insertion-ordered
    association list with unique keys, a [set] of strings is a [gset string].
    The tools return formatted text; the embedding returns the data the text
    is printed from (which branch was taken, the ranked rows, the list of
    questions), not the rendered characters. *)

From Stdlib Require Import ZArith Ascii.
From Stdlib Require String.
From stdpp Require Import base decidable option list sets gmap strings sorting.

Local Open Scope Z_scope.
Local Arguments String.append : simpl nomatch.

(** ** Python string primitives *)

Module PyStr.

(** [c.lower()] for one code point below 256: [A-Z] and the upper-case
    Latin-1 letters [U+00C0 .. U+00DE] (without the multiplication sign
    [U+00D7]) move up by 32, every other code point stays. *)
Definition lower_char (c : ascii) : ascii :=
  let n := N_of_ascii c in
  if ((65 <=? n) && (n <=? 90))%N then ascii_of_N (n + 32)
  else if ((192 <=? n) && (n <=? 222) && negb (n =? 215))%N
       then ascii_of_N (n + 32)
  else c.

(** [s.lower()] *)
Fixpoint lower (s : string) : string :=
  match s with
  | EmptyString => EmptyString
  | String c s' => String (lower_char c) (lower s')
  end.

(** [s.startswith(p)] *)
Fixpoint startswith (p s : string) : bool :=
  match p, s with
  | EmptyString, _ => true
  | String a p', String b s' => if Ascii.eqb a b then startswith p' s' else false
  | String _ _, EmptyString => false
  end.

(** What follows the prefix [p] in [s], when [s] starts with [p]. *)
Fixpoint after_prefix (p s : string) : option string :=
  match p, s with
  | EmptyString, _ => Some s
  | String a p', String b s' => if Ascii.eqb a b then after_prefix p' s' else None
  | String _ _, EmptyString => None
  end.

(** [sub in s] *)
Fixpoint contains (sub s : string) : bool :=
  if startswith sub s then true
  else match s with
       | EmptyString => false
       | String _ s' => contains sub s'
       end.

(** [s.replace(a, b)] for one-character [a] and [b]. *)
Fixpoint replace_char (a b : ascii) (s : string) : string :=
  match s with
  | EmptyString => EmptyString
  | String c s' => String (if Ascii.eqb c a then b else c) (replace_char a b s')
  end.

(** [c.isspace()] below 256: tab .. carriage return, the four separators
    [U+001C .. U+001F], space, next line [U+0085], no-break space. *)
Definition isspace (c : ascii) : bool :=
  let n := N_of_ascii c in
  (((9 <=? n) && (n <=? 13)) || ((28 <=? n) && (n <=? 32))
   || (n =? 133) || (n =? 160))%N.

Fixpoint lstrip (s : string) : string :=
  match s with
  | EmptyString => EmptyString
  | String c s' => if isspace c then lstrip s' else s
  end.

(** Drops trailing white space: a character is kept when it is not white
    space or when something is kept after it. *)
Fixpoint rstrip (s : string) : string :=
  match s with
  | EmptyString => EmptyString
  | String c s' =>
      match rstrip s' with
      | EmptyString => if isspace c then EmptyString else String c EmptyString
      | r => String c r
      end
  end.

(** [s.strip()] *)
Definition strip (s : string) : string := rstrip (lstrip s).

(** [s.split(sep)] for a one-character separator: never empty, the empty
    string gives one empty field. *)
Fixpoint split (sep : ascii) (s : string) : list string :=
  match s with
  | EmptyString => [EmptyString]
  | String c s' =>
      if Ascii.eqb c sep then EmptyString :: split sep s'
      else match split sep s' with
           | f :: fs => String c f :: fs
           | [] => [String c EmptyString]
           end
  end.

(** [s.split(sep, 1)]: [None] when [sep] does not occur, otherwise the
    text before and after its first occurrence. *)
Fixpoint split_once (sep : ascii) (s : string) : option (string * string) :=
  match s with
  | EmptyString => None
  | String c s' =>
      if Ascii.eqb c sep then Some (EmptyString, s')
      else match split_once sep s' with
           | Some (k, v) => Some (String c k, v)
           | None => None
           end
  end.

(** [x in l] for a list [l] of strings. *)
Definition mem (x : string) (l : list string) : bool :=
  existsb (String.eqb x) l.

(** [s.find(sub)]: the first index at which [sub] starts, [None] for -1. *)
Fixpoint find (sub s : string) : option nat :=
  if startswith sub s then Some 0%nat
  else match s with
       | EmptyString => None
       | String _ s' => S <$> find sub s'
       end.

(** [s[n:]] *)
Fixpoint drop (n : nat) (s : string) : string :=
  match n, s with
  | O, _ => s
  | S n', String _ s' => drop n' s'
  | S _, EmptyString => EmptyString
  end.

(** [s[:n]] *)
Fixpoint take (n : nat) (s : string) : string :=
  match n, s with
  | S n', String c s' => String c (take n' s')
  | _, _ => EmptyString
  end.

(** [s.find(sub, start)] *)
Definition find_from (sub s : string) (start : nat) : option nat :=
  if (start <=? String.length s)%nat
  then (λ i, (start + i)%nat) <$> find sub (drop start s)
  else None.

(** [sep.join(l)] *)
Fixpoint join (sep : string) (l : list string) : string :=
  match l with
  | [] => EmptyString
  | [x] => x
  | x :: xs => x +:+ sep +:+ join sep xs
  end.

End PyStr.

(** ** Python dictionaries, in insertion order *)

Module Dict.

Section Ops.
Context {V : Type}.

Definition t := list (string * V).

(** [d.get(k)] / [k in d] / [d[k]] *)
Fixpoint get (k : string) (d : t) : option V :=
  match d with
  | [] => None
  | (k', v) :: d' => if String.eqb k k' then Some v else get k d'
  end.

Definition mem (k : string) (d : t) : bool :=
  match get k d with Some _ => true | None => false end.

(** [d[k] = v]: an existing key keeps its place, a new key goes last. *)
Fixpoint set (k : string) (v : V) (d : t) : t :=
  match d with
  | [] => [(k, v)]
  | (k', v') :: d' =>
      if String.eqb k k' then (k, v) :: d' else (k', v') :: set k v d'
  end.

Definition keys (d : t) : list string := map fst d.
End Ops.

Arguments t : clear implicits.

End Dict.

(** [sorted(l, key=key, reverse=True)]: descending and stable, elements with
    equal keys keep the order they had in [l]. *)
Section Sorted.
Context {A : Type} (key : A → Z).

Fixpoint insert_desc (x : A) (l : list A) : list A :=
  match l with
  | [] => [x]
  | y :: l' => if key y <? key x then x :: y :: l' else y :: insert_desc x l'
  end.

Definition sorted_desc (l : list A) : list A :=
  foldl (λ acc x, insert_desc x acc) [] l.
End Sorted.

(** ** decision.py *)

Module Decision.

Definition PATTERN_CAPABILITIES : Dict.t (Dict.t Z) :=
  [ ("subagents",
      [ ("parallel_execution", 5); ("context_isolation", 4);
        ("distributed_development", 5); ("direct_user_interaction", 1);
        ("coordination_complexity", 3); ("large_data_handling", 2);
        ("workflow_stages", 2) ]);
    ("deep-agents",
      [ ("parallel_execution", 3); ("context_isolation", 5);
        ("distributed_development", 4); ("direct_user_interaction", 2);
        ("coordination_complexity", 3); ("large_data_handling", 5);
        ("workflow_stages", 2) ]);
    ("supervisor-forward",
      [ ("parallel_execution", 3); ("context_isolation", 3);
        ("distributed_development", 4); ("direct_user_interaction", 3);
        ("coordination_complexity", 3); ("large_data_handling", 2);
        ("workflow_stages", 2); ("audit_compliance", 5);
        ("response_accuracy", 5) ]);
    ("hierarchical-teams",
      [ ("parallel_execution", 4); ("context_isolation", 4);
        ("distributed_development", 5); ("direct_user_interaction", 2);
        ("coordination_complexity", 5); ("large_data_handling", 3);
        ("workflow_stages", 3); ("organizational_modeling", 5) ]);
    ("context-quarantine",
      [ ("parallel_execution", 3); ("context_isolation", 5);
        ("distributed_development", 3); ("direct_user_interaction", 2);
        ("coordination_complexity", 3); ("large_data_handling", 5);
        ("workflow_stages", 2) ]);
    ("skills",
      [ ("parallel_execution", 1); ("context_isolation", 1);
        ("distributed_development", 5); ("direct_user_interaction", 4);
        ("coordination_complexity", 1); ("large_data_handling", 2);
        ("workflow_stages", 1); ("lightweight_composition", 5);
        ("runtime_adaptability", 5) ]);
    ("handoffs",
      [ ("parallel_execution", 1); ("context_isolation", 2);
        ("distributed_development", 4); ("direct_user_interaction", 5);
        ("coordination_complexity", 2); ("large_data_handling", 2);
        ("workflow_stages", 5); ("state_persistence", 5) ]);
    ("router",
      [ ("parallel_execution", 5); ("context_isolation", 3);
        ("distributed_development", 4); ("direct_user_interaction", 2);
        ("coordination_complexity", 2); ("large_data_handling", 3);
        ("workflow_stages", 1); ("query_classification", 5);
        ("result_synthesis", 5) ]);
    ("custom-workflows",
      [ ("parallel_execution", 4); ("context_isolation", 3);
        ("distributed_development", 3); ("direct_user_interaction", 3);
        ("coordination_complexity", 4); ("large_data_handling", 3);
        ("workflow_stages", 5); ("flexibility", 5);
        ("feedback_loops", 5) ]) ].

Definition REQUIREMENT_MAPPINGS : Dict.t string :=
  [ ("parallel", "parallel_execution");
    ("concurrent", "parallel_execution");
    ("simultaneously", "parallel_execution");
    ("at the same time", "parallel_execution");
    ("context isolation", "context_isolation");
    ("isolated context", "context_isolation");
    ("separate context", "context_isolation");
    ("context bloat", "large_data_handling");
    ("large data", "large_data_handling");
    ("big data", "large_data_handling");
    ("large outputs", "large_data_handling");
    ("huge results", "large_data_handling");
    ("talk to user", "direct_user_interaction");
    ("user interaction", "direct_user_interaction");
    ("talk directly", "direct_user_interaction");
    ("customer facing", "direct_user_interaction");
    ("user-facing", "direct_user_interaction");
    ("stages", "workflow_stages");
    ("steps", "workflow_stages");
    ("phases", "workflow_stages");
    ("sequential", "workflow_stages");
    ("state machine", "workflow_stages");
    ("workflow", "workflow_stages");
    ("teams", "organizational_modeling");
    ("departments", "organizational_modeling");
    ("hierarchy", "organizational_modeling");
    ("organization", "organizational_modeling");
    ("independent development", "distributed_development");
    ("separate teams", "distributed_development");
    ("modular", "distributed_development");
    ("compliance", "audit_compliance");
    ("audit", "audit_compliance");
    ("exact wording", "response_accuracy");
    ("verbatim", "response_accuracy");
    ("liability", "audit_compliance");
    ("custom", "flexibility");
    ("flexible", "flexibility");
    ("feedback loop", "feedback_loops");
    ("revision", "feedback_loops");
    ("review cycle", "feedback_loops");
    ("lightweight", "lightweight_composition");
    ("simple", "lightweight_composition");
    ("single agent", "lightweight_composition");
    ("classify", "query_classification");
    ("route", "query_classification");
    ("dispatch", "query_classification");
    ("multiple sources", "result_synthesis");
    ("combine results", "result_synthesis");
    ("synthesize", "result_synthesis") ].

(** The loop filling [detected_capabilities]. *)
Definition detect_capabilities (requirements_lower : string) : gset string :=
  foldl (λ detected '(keyword, capability),
           if PyStr.contains keyword requirements_lower
           then detected ∪ {[ capability ]} else detected)
        ∅ REQUIREMENT_MAPPINGS.

(** One value of the [scores] dictionary. *)
Record fit := Fit { score : Z; max_possible : Z; matched : list (string * Z) }.

(** The inner loop over [detected_capabilities] for one pattern; [caps] is
    the order in which the set is iterated. *)
Definition score_loop (capabilities : Dict.t Z) (caps : list string) :
    Z * list (string * Z) :=
  foldl (λ (acc : Z * list (string * Z)) cap,
           let '(score, matched) := acc in
           match Dict.get cap capabilities with
           | Some v => (score + v, matched ++ [(cap, v)])
           | None => (score, matched)
           end)
        (0, []) caps.

Definition score_pattern (detected : gset string) (capabilities : Dict.t Z) : fit :=
  let '(score, matched) := score_loop capabilities (elements detected) in
  {| score := score;
     max_possible := Z.of_nat (size detected) * 5;
     matched := matched |}.

(** The [scores] dictionary; the pattern names are distinct, so every
    assignment appends. *)
Definition pattern_scores (detected : gset string) : Dict.t fit :=
  foldl (λ scores '(pattern_name, capabilities),
           Dict.set pattern_name (score_pattern detected capabilities) scores)
        [] PATTERN_CAPABILITIES.

(** What [evaluate_requirements] reports. *)
Inductive evaluation :=
| CouldNotDetect
| RequirementAnalysis
    (detected : gset string)
    (sorted_patterns : list (string * fit))
    (shown : list (string * fit))
    (top : option string)
    (alternative : option string).

Definition evaluate_requirements (requirements : string) : evaluation :=
  let requirements_lower := PyStr.lower requirements in
  let detected_capabilities := detect_capabilities requirements_lower in
  if decide (detected_capabilities = ∅) then CouldNotDetect
  else
    let scores := pattern_scores detected_capabilities in
    let sorted_patterns := sorted_desc (λ x, score (snd x)) scores in
    RequirementAnalysis detected_capabilities sorted_patterns
      (take 5 sorted_patterns)
      (fst <$> head sorted_patterns)
      (match sorted_patterns with
       | _ :: second :: _ =>
           if 0 <? score (snd second) then Some (fst second) else None
       | _ => None
       end).

(** The [indicators] table of [analyze_use_case]. *)
Definition indicators : Dict.t (list string) :=
  [ ("subagents",
      [ "coordinate"; "coordinator"; "supervisor"; "domain expert";
        "specialist"; "different domains"; "finance"; "budget";
        "investment"; "tax"; "multi-service" ]);
    ("deep-agents",
      [ "research"; "search many"; "large outputs"; "summarize";
        "context management"; "data intensive"; "many tool calls";
        "long conversation" ]);
    ("supervisor-forward",
      [ "legal"; "medical"; "compliance"; "exact response";
        "verbatim"; "liability"; "audit"; "attribution";
        "regulated"; "financial advice" ]);
    ("hierarchical-teams",
      [ "team"; "department"; "hierarchy"; "organization";
        "team lead"; "nested"; "large scale"; "enterprise" ]);
    ("context-quarantine",
      [ "large data"; "database"; "big results"; "summarize raw";
        "token limit"; "context limit"; "huge output";
        "10000"; "100k" ]);
    ("skills",
      [ "coding"; "programming language"; "python"; "javascript";
        "code assistant"; "writing assistant"; "multiple skills";
        "prompt-based"; "guidelines"; "best practices" ]);
    ("handoffs",
      [ "customer support"; "stages"; "steps"; "greeting";
        "collect"; "resolve"; "state machine"; "workflow";
        "sequential"; "talk to user"; "conversation flow" ]);
    ("router",
      [ "search"; "query"; "classify"; "dispatch"; "parallel";
        "multiple sources"; "knowledge base"; "faq"; "docs";
        "tutorials"; "combine results" ]);
    ("custom-workflows",
      [ "content pipeline"; "review"; "revision"; "feedback loop";
        "approval"; "quality gate"; "custom flow"; "conditional";
        "branch"; "loop back" ]) ].

(** [[kw for kw in keywords if kw in use_case_lower]] *)
Definition matched_keywords (keywords : list string) (use_case_lower : string) :
    list string :=
  filter (λ kw, Is_true (PyStr.contains kw use_case_lower)) keywords.

(** [sum(1 for kw in keywords if kw in use_case_lower)] *)
Definition match_count (keywords : list string) (use_case_lower : string) : Z :=
  foldl (λ n kw, if PyStr.contains kw use_case_lower then n + 1 else n) 0 keywords.

(** The loop filling the [matches] dictionary. *)
Definition use_case_matches (use_case_lower : string) : Dict.t Z :=
  foldl (λ matches '(pattern, keywords),
           let count := match_count keywords use_case_lower in
           if 0 <? count then Dict.set pattern count matches else matches)
        [] indicators.

(** One printed row of [analyze_use_case]. *)
Record use_case_row :=
  UseCaseRow { uc_pattern : string; uc_count : Z; uc_matched : list string }.

Inductive use_case_analysis :=
| NoClearMatch
| UseCaseAnalysis
    (rows : list use_case_row)
    (top_pattern : option string)
    (alt : option string).

Definition analyze_use_case (use_case : string) : use_case_analysis :=
  let use_case_lower := PyStr.lower use_case in
  let matches := use_case_matches use_case_lower in
  match matches with
  | [] => NoClearMatch
  | _ =>
      let sorted_matches := sorted_desc snd matches in
      UseCaseAnalysis
        (map (λ '(pattern, count),
                {| uc_pattern := pattern;
                   uc_count := count;
                   uc_matched :=
                     take 5 (matched_keywords
                               (default [] (Dict.get pattern indicators))
                               use_case_lower) |})
             sorted_matches)
        (fst <$> head sorted_matches)
        (match sorted_matches with
         | _ :: second :: _ => Some (fst second)
         | _ => None
         end)
  end.

(** An entry of the [questions] list of [get_clarifying_questions]. *)
Record question := Question { aspect : string; text : string; why : string }.

#[global] Instance question_eq_dec : EqDecision question.
Proof. solve_decision. Defined.

Definition q_execution_model : question :=
  {| aspect := "Execution Model";
     text := "Do you need tasks to run in parallel (simultaneously), or sequentially (one after another)?";
     why := "Parallel -> Router, Subagents | Sequential -> Handoffs, Custom Workflows" |}.

Definition q_user_interaction : question :=
  {| aspect := "User Interaction";
     text := "Do specialists need to talk directly to users, or should a coordinator handle all user interaction?";
     why := "Direct interaction -> Handoffs | Coordinator handles -> Subagents" |}.

Definition q_data_volume : question :=
  {| aspect := "Data Volume";
     text := "Will your tools produce large outputs (thousands of lines, big JSON responses)?";
     why := "Large outputs -> Deep Agents or Context Quarantine" |}.

Definition q_workflow_structure : question :=
  {| aspect := "Workflow Structure";
     text := "Does your process have clear stages/phases (e.g., intake -> process -> resolve)?";
     why := "Clear stages -> Handoffs | Ad-hoc coordination -> Subagents" |}.

Definition q_agent_count : question :=
  {| aspect := "Agent Count";
     text := "Do you envision a single agent with multiple capabilities, or multiple specialized agents?";
     why := "Single agent -> Skills | Multiple agents -> Subagents, Handoffs, etc." |}.

Definition q_response_handling : question :=
  {| aspect := "Response Handling";
     text := "Do responses need to be forwarded exactly as specialists produce them (for compliance/audit)?";
     why := "Exact forwarding needed -> Supervisor Forward" |}.

(** [any(kw in problem_lower for kw in kws)] *)
Definition any_in (kws : list string) (problem_lower : string) : bool :=
  existsb (λ kw, PyStr.contains kw problem_lower) kws.

(** [if cond: questions.append(q)] *)
Definition append_if (cond : bool) (q : question) (questions : list question) :
    list question :=
  if cond then questions ++ [q] else questions.

(** The [questions] list after the six checks, before the cut to four. *)
Definition missing_questions (problem_lower : string) : list question :=
  let questions := [] in
  let questions :=
    append_if (negb (PyStr.contains "parallel" problem_lower)
               && negb (PyStr.contains "sequential" problem_lower))
              q_execution_model questions in
  let questions :=
    append_if (negb (PyStr.contains "user" problem_lower)
               && negb (PyStr.contains "customer" problem_lower))
              q_user_interaction questions in
  let questions :=
    append_if (negb (any_in ["large"; "big"; "huge"; "context"; "token"] problem_lower))
              q_data_volume questions in
  let questions :=
    append_if (negb (any_in ["stage"; "step"; "phase"; "workflow"; "state"] problem_lower))
              q_workflow_structure questions in
  let questions :=
    append_if (negb (any_in ["single"; "one"; "multiple"; "many"; "several"] problem_lower))
              q_agent_count questions in
  let questions :=
    append_if (negb (any_in ["compliance"; "audit"; "legal"; "exact"; "verbatim"] problem_lower))
              q_response_handling questions in
  questions.

Inductive clarification :=
| QuiteDetailed
| ClarifyingQuestions (asked : list question).

Definition get_clarifying_questions (problem_description : string) : clarification :=
  let problem_lower := PyStr.lower problem_description in
  let questions := missing_questions problem_lower in
  match questions with
  | [] => QuiteDetailed
  | _ => ClarifyingQuestions (take 4 questions)
  end.

End Decision.

(** ** patterns.py *)

Module Patterns.

Definition newline : ascii := "010"%char.

(** *** The front-matter pattern

    [frontmatter_pattern] reads: at the start three hyphens, [\s*], a
    newline, a lazy group of any characters (group 1), a newline, three
    hyphens, [\s*], a newline, and a greedy group of any characters up to
    the end (group 2).  Under [re.DOTALL] "any character" includes the
    newline.  The functions below match it the way a backtracking matcher
    does. *)

(** [\s*\n] at the start of [s]: the texts that can follow it, in the order
    in which the greedy [\s*] offers them, longest run of white space
    first. *)
Fixpoint space_newline (s : string) : list string :=
  match s with
  | EmptyString => []
  | String c s' =>
      if PyStr.isspace c
      then space_newline s' ++ (if Ascii.eqb c newline then [s'] else [])
      else []
  end.

(** The closing fence (newline, three hyphens, [\s*], newline) at the
    start of [s]; the result is group 2, the whole text after it. *)
Definition closing_fence (s : string) : option string :=
  rest ← PyStr.after_prefix (String newline "---") s;
  head (space_newline rest).

(** Group 1 and what follows it, at the start of [s]: the lazy group
    grows one character at a time until the closing fence matches. *)
Fixpoint lazy_header (s : string) : option (string * string) :=
  match closing_fence s with
  | Some body => Some (EmptyString, body)
  | None =>
      match s with
      | EmptyString => None
      | String c s' =>
          match lazy_header s' with
          | Some (g, body) => Some (String c g, body)
          | None => None
          end
      end
  end.

(** The first alternative that succeeds. *)
Fixpoint first_match {A B : Type} (f : A → option B) (l : list A) : option B :=
  match l with
  | [] => None
  | x :: l' => match f x with Some y => Some y | None => first_match f l' end
  end.

(** [re.match(frontmatter_pattern, content, re.DOTALL)], as
    [(match.group(1), match.group(2))]. *)
Definition frontmatter_match (content : string) : option (string * string) :=
  rest ← PyStr.after_prefix "---" content;
  first_match lazy_header (space_newline rest).

(** The dictionary returned by [parse_pattern_frontmatter]. *)
Record parsed := Parsed {
  p_name : string;
  p_title : string;
  p_description : string;
  p_category : string;
  p_complexity : string;
  p_body : string
}.

(** The loop over the lines of the front matter. *)
Definition parse_metadata (frontmatter_text : string) : Dict.t string :=
  foldl (λ metadata line,
           match PyStr.split_once ":" line with
           | Some (key, value) => Dict.set (PyStr.strip key) (PyStr.strip value) metadata
           | None => metadata
           end)
        [] (PyStr.split newline frontmatter_text).

Definition parse_pattern_frontmatter (content : string) : parsed :=
  match frontmatter_match content with
  | None =>
      {| p_name := "unknown";
         p_title := "Unknown Pattern";
         p_description := "No description";
         p_category := "unknown";
         p_complexity := "unknown";
         p_body := content |}
  | Some (frontmatter_text, body) =>
      let metadata := parse_metadata frontmatter_text in
      {| p_name := default "unknown" (Dict.get "name" metadata);
         p_title := default "Unknown Pattern" (Dict.get "title" metadata);
         p_description := default "No description" (Dict.get "description" metadata);
         p_category := default "unknown" (Dict.get "category" metadata);
         p_complexity := default "unknown" (Dict.get "complexity" metadata);
         p_body := PyStr.strip body |}
  end.

(** *** The knowledge directory *)

(** What the module sees of the file system: whether [_knowledge_dir]
    exists, the paths [glob("*.md")] yields, in its order, and
    [read_text], [None] when it raises. *)
Record filesystem := FileSystem {
  dir_exists : bool;
  glob_md : list string;
  read_text : string → option string
}.

(** A value of the [_patterns] dictionary. *)
Record pattern := Pattern {
  name : string;
  title : string;
  description : string;
  category : string;
  complexity : string;
  path : string
}.

(** The body of the loop of [discover_patterns]; [None] when [read_text]
    raises. *)
Definition discover_step (fs : filesystem) (acc : option (Dict.t pattern))
    (pattern_file : string) : option (Dict.t pattern) :=
  patterns ← acc;
  content ← read_text fs pattern_file;
  let parsed := parse_pattern_frontmatter content in
  let pattern_name := p_name parsed in
  Some (Dict.set pattern_name
          {| name := p_name parsed;
             title := p_title parsed;
             description := p_description parsed;
             category := p_category parsed;
             complexity := p_complexity parsed;
             path := pattern_file |}
          patterns).

(** [discover_patterns()] *)
Definition discover_patterns (fs : filesystem) : option (Dict.t pattern) :=
  if negb (dir_exists fs) then Some []
  else foldl (discover_step fs) (Some []) (glob_md fs).

(** *** Module-level state *)

Record state := State {
  _loaded_patterns : list string;
  _patterns : Dict.t pattern
}.

(** The state once the module is imported: nothing loaded, [_patterns]
    discovered. *)
Definition module_state (fs : filesystem) : option state :=
  patterns ← discover_patterns fs;
  Some {| _loaded_patterns := []; _patterns := patterns |}.

Definition get_loaded_patterns (st : state) : list string := _loaded_patterns st.

Definition reset_loaded_patterns (st : state) : state :=
  {| _loaded_patterns := []; _patterns := _patterns st |}.

(** The normalisation at the head of [load_pattern]. *)
Definition normalize (pattern_name : string) : string :=
  PyStr.replace_char " " "-" (PyStr.replace_char "_" "-" (PyStr.lower pattern_name)).

(** What [load_pattern] reports; [LoadRaised] is an exception of
    [read_text] leaving the call. *)
Inductive load_result :=
| NotFound (pattern_name : string) (available : list string)
| AlreadyLoaded (title : string)
| Loaded (title category complexity body : string)
| LoadRaised.

Definition load_pattern (fs : filesystem) (pattern_name : string) (st : state) :
    load_result * state :=
  let name := normalize pattern_name in
  match Dict.get name (_patterns st) with
  | None => (NotFound pattern_name (Dict.keys (_patterns st)), st)
  | Some pattern =>
      if PyStr.mem name (_loaded_patterns st) then (AlreadyLoaded (title pattern), st)
      else
        match read_text fs (path pattern) with
        | None => (LoadRaised, st)
        | Some content =>
            let parsed := parse_pattern_frontmatter content in
            (Loaded (title pattern) (category pattern) (complexity pattern) (p_body parsed),
             {| _loaded_patterns := _loaded_patterns st ++ [name];
                _patterns := _patterns st |})
        end
  end.

(** *** Comparison *)

(** The "When to Use" excerpt of a body. *)
Definition when_to_use_excerpt (body : string) : string :=
  let when_to_use :=
    match PyStr.find "## When to Use" body with
    | None => EmptyString
    | Some start =>
        let stop :=
          match PyStr.find_from "##" body (start + 10) with
          | Some e => e
          | None => (start + 500)%nat
          end in
        PyStr.strip (PyStr.drop start (PyStr.take stop body))
    end in
  if (400 <? String.length when_to_use)%nat
  then PyStr.take 400 when_to_use +:+ "..."
  else when_to_use.

(** One column of the comparison table with its excerpt. *)
Record compared := Compared {
  c_name : string;
  c_title : string;
  c_category : string;
  c_complexity : string;
  c_when_to_use : string
}.

Inductive comparison :=
| InvalidPatterns (invalid : list string) (available : list string)
| AtLeastTwo
| AtMostFour
| PatternComparison (columns : list compared)
| CompareRaised.

(** The names as [get_pattern_comparison] reads them from its argument. *)
Definition comparison_names (pattern_names : string) : list string :=
  map (λ n, PyStr.replace_char "_" "-" (PyStr.lower (PyStr.strip n)))
      (PyStr.split "," pattern_names).

(** The rows and excerpts for names already known to be valid. *)
Fixpoint compare_columns (fs : filesystem) (patterns : Dict.t pattern)
    (names : list string) : option (list compared) :=
  match names with
  | [] => Some []
  | n :: names' =>
      pattern ← Dict.get n patterns;
      content ← read_text fs (path pattern);
      rest ← compare_columns fs patterns names';
      Some ({| c_name := n;
               c_title := title pattern;
               c_category := category pattern;
               c_complexity := complexity pattern;
               c_when_to_use :=
                 when_to_use_excerpt (p_body (parse_pattern_frontmatter content)) |}
            :: rest)
  end.

Definition get_pattern_comparison (fs : filesystem) (pattern_names : string)
    (st : state) : comparison :=
  let names := comparison_names pattern_names in
  let invalid := filter (λ n, Is_true (negb (Dict.mem n (_patterns st)))) names in
  match invalid with
  | _ :: _ => InvalidPatterns invalid (Dict.keys (_patterns st))
  | [] =>
      if (length names <? 2)%nat then AtLeastTwo
      else if (4 <? length names)%nat then AtMostFour
      else match compare_columns fs (_patterns st) names with
           | Some columns => PatternComparison columns
           | None => CompareRaised
           end
  end.

(** *** The functions of the module, as calls

    Of the seven functions only [load_pattern] and [reset_loaded_patterns]
    assign to the module state; the others read it. *)
Inductive call :=
| list_all_patterns
| call_load_pattern (pattern_name : string)
| search_patterns (query : string)
| call_get_pattern_comparison (pattern_names : string)
| get_pattern_decision_tree
| call_get_loaded_patterns
| call_reset_loaded_patterns.

Definition state_after (fs : filesystem) (c : call) (st : state) : state :=
  match c with
  | call_load_pattern pattern_name => snd (load_pattern fs pattern_name st)
  | call_reset_loaded_patterns => reset_loaded_patterns st
  | list_all_patterns | search_patterns _ | call_get_pattern_comparison _
  | get_pattern_decision_tree | call_get_loaded_patterns => st
  end.

End Patterns.

(** ** skills.py: the loaded list of the skills example and its unload *)

Module Skills.

(** A value of the [_skills] dictionary. *)
Record skill := Skill { name : string; description : string; path : string }.

Record state := State {
  _loaded_skills : list string;
  _skills : Dict.t skill
}.

(** [l.remove(x)] on a list that holds [x]: the first occurrence goes. *)
Fixpoint remove (x : string) (l : list string) : list string :=
  match l with
  | [] => []
  | y :: l' => if String.eqb x y then l' else y :: remove x l'
  end.

(** What [unload_skill] reports; [UnloadRaised] is the [KeyError] of
    [_skills[skill_id]], raised after the removal. *)
Inductive unload_result :=
| NotCurrentlyLoaded (skill_name : string)
| Unloaded (name : string)
| UnloadRaised.

Definition unload_skill (skill_name : string) (st : state) : unload_result * state :=
  let skill_id :=
    PyStr.replace_char " " "-" (PyStr.replace_char "_" "-" (PyStr.lower skill_name)) in
  if negb (PyStr.mem skill_id (_loaded_skills st))
  then (NotCurrentlyLoaded skill_name, st)
  else
    let st' := {| _loaded_skills := remove skill_id (_loaded_skills st);
                  _skills := _skills st |} in
    match Dict.get skill_id (_skills st) with
    | Some skill => (Unloaded (name skill), st')
    | None => (UnloadRaised, st')
    end.

End Skills.

(** ** Further string primitives *)

Module PyText.

(** [s.count(sub)] from a position of [s]: the occurrences of [sub] that
    do not overlap, counted from the left; [skip] is the number of
    characters still covered by the occurrence counted last.  The empty
    [sub] occurs once at every position and once at the end. *)
Fixpoint count_from (sub : string) (skip : nat) (s : string) : nat :=
  match skip with
  | S k =>
      match s with
      | EmptyString => 0%nat
      | String _ s' => count_from sub k s'
      end
  | O =>
      if PyStr.startswith sub s
      then S (match s with
              | EmptyString => 0%nat
              | String _ s' => count_from sub (String.length sub - 1) s'
              end)
      else match s with
           | EmptyString => 0%nat
           | String _ s' => count_from sub 0 s'
           end
  end.

(** [s.count(sub)] *)
Definition count (sub s : string) : Z := Z.of_nat (count_from sub 0 s).

(** [s.find(sub)] as the integer Python returns: -1 when [sub] does not
    occur. *)
Definition find_index (sub s : string) : Z :=
  match PyStr.find sub s with
  | Some i => Z.of_nat i
  | None => -1
  end.

(** [s[start:stop]] for [start] and [stop] that are not negative. *)
Definition slice (start stop : Z) (s : string) : string :=
  PyStr.drop (Z.to_nat start) (PyStr.take (Z.to_nat stop) s).

(** [len(s)] *)
Definition len (s : string) : Z := Z.of_nat (String.length s).

End PyText.

(** ** patterns.py: the search over the documents *)

Module PatternSearch.
Import Patterns.

(** An entry of the [results] list. *)
Record search_result := SearchResult {
  r_name : string;
  r_title : string;
  r_matches : Z;
  r_snippet : string
}.

(** The snippet around the first occurrence. *)
Definition snippet_of (content query_lower query : string) : string :=
  let idx := PyText.find_index query_lower content in
  let start := Z.max 0 (idx - 50) in
  let stop := Z.min (PyText.len content) (idx + PyText.len query + 100) in
  "..." +:+ PyStr.replace_char newline " " (PyText.slice start stop content) +:+ "...".

(** The body of the loop over [_patterns.items()]; [None] when
    [read_text] raises. *)
Definition search_step (fs : filesystem) (query : string)
    (acc : option (list search_result)) (item : string * pattern) :
    option (list search_result) :=
  let query_lower := PyStr.lower query in
  results ← acc;
  text ← read_text fs (path item.2);
  let content := PyStr.lower text in
  if PyStr.contains query_lower content
  then Some (results ++ [ {| r_name := item.1;
                             r_title := title item.2;
                             r_matches := PyText.count query_lower content;
                             r_snippet := snippet_of content query_lower query |} ])
  else Some results.

(** What [search_patterns] reports; [SearchRaised] is an exception of
    [read_text] leaving the call. *)
Inductive search_report :=
| NoPatternsMatching (query : string)
| PatternsMatching (query : string) (results : list search_result)
| SearchRaised.

Definition search_patterns (fs : filesystem) (query : string) (st : state) :
    search_report :=
  match foldl (search_step fs query) (Some []) (_patterns st) with
  | None => SearchRaised
  | Some [] => NoPatternsMatching query
  | Some results => PatternsMatching query (sorted_desc r_matches results)
  end.

End PatternSearch.

(** [sorted(l, key=key)] for string keys: ascending by code points and
    stable, an element goes before the first one with a larger key. *)
Section SortedAscending.
Context {A : Type} (key : A → string).

Fixpoint insert_asc (x : A) (l : list A) : list A :=
  match l with
  | [] => [x]
  | y :: l' =>
      if String.ltb (key x) (key y) then x :: y :: l' else y :: insert_asc x l'
  end.

Definition sorted_asc (l : list A) : list A :=
  foldl (λ acc x, insert_asc x acc) [] l.
End SortedAscending.

(** ** patterns.py: the listing *)

Module PatternListing.
Import Patterns.

(** The body of the loop filling [categories]. *)
Definition group_step (categories : Dict.t (list pattern)) (item : string * pattern) :
    Dict.t (list pattern) :=
  let cat := category item.2 in
  let categories :=
    if Dict.mem cat categories then categories else Dict.set cat [] categories in
  Dict.set cat (default [] (Dict.get cat categories) ++ [item.2]) categories.

Definition group_by_category (patterns : Dict.t pattern) : Dict.t (list pattern) :=
  foldl group_step [] patterns.

(** One listed pattern with its status. *)
Record listed := Listed { l_pattern : pattern; l_loaded : bool }.

Inductive listing :=
| NoPatternsFound
| PatternListing (sections : list (string * list listed)) (total loaded : nat).

Definition list_all_patterns (st : state) : listing :=
  match _patterns st with
  | [] => NoPatternsFound
  | _ =>
      PatternListing
        (map (λ '(category, patterns),
                (category,
                 map (λ p, {| l_pattern := p;
                              l_loaded := PyStr.mem (name p) (_loaded_patterns st) |})
                     (sorted_asc name patterns)))
             (sorted_asc fst (group_by_category (_patterns st))))
        (length (_patterns st))
        (length (_loaded_patterns st))
  end.

End PatternListing.

(** ** skills.py: discovery, loading and the views of the loaded list *)

Module SkillTools.
Import Skills.

(** [parse_skill_frontmatter]: the matcher of the patterns module with the
    two keys of a skill. *)
Record parsed_skill := ParsedSkill {
  s_name : string;
  s_description : string;
  s_body : string
}.

Definition parse_skill_frontmatter (content : string) : parsed_skill :=
  match Patterns.frontmatter_match content with
  | None =>
      {| s_name := "unknown"; s_description := "No description"; s_body := content |}
  | Some (frontmatter_text, body) =>
      let metadata := Patterns.parse_metadata frontmatter_text in
      {| s_name := default "unknown" (Dict.get "name" metadata);
         s_description := default "No description" (Dict.get "description" metadata);
         s_body := PyStr.strip body |}
  end.

(** What the module sees of the skills directory: whether it exists, the
    entries [iterdir()] yields with their names, which of them are
    directories, which hold a [SKILL.md], and [read_text] of that file,
    [None] when it raises. *)
Record skills_dir := SkillsDir {
  skills_dir_exists : bool;
  iterdir : list string;
  is_dir : string → bool;
  skill_file_exists : string → bool;
  skill_file : string → string;
  read_skill : string → option string
}.

(** The body of the loop of [discover_skills]. *)
Definition discover_step (fs : skills_dir) (acc : option (Dict.t skill))
    (skill_dir : string) : option (Dict.t skill) :=
  skills ← acc;
  if is_dir fs skill_dir && skill_file_exists fs skill_dir
  then
    content ← read_skill fs (skill_file fs skill_dir);
    let parsed := parse_skill_frontmatter content in
    let skill_id := skill_dir in
    Some (Dict.set skill_id
            {| name := s_name parsed;
               description := s_description parsed;
               path := skill_file fs skill_dir |}
            skills)
  else Some skills.

(** [discover_skills()] *)
Definition discover_skills (fs : skills_dir) : option (Dict.t skill) :=
  if negb (skills_dir_exists fs) then Some []
  else foldl (discover_step fs) (Some []) (iterdir fs).

(** [set_skills_directory(path)]: [_skills] is discovered again, the
    loaded list stays. *)
Definition set_skills_directory (fs : skills_dir) (st : state) : option state :=
  skills ← discover_skills fs;
  Some {| _loaded_skills := _loaded_skills st; _skills := skills |}.

Definition get_loaded_skills (st : state) : list string := _loaded_skills st.

Definition reset_loaded_skills (st : state) : state :=
  {| _loaded_skills := []; _skills := _skills st |}.

(** [load_skill_content(skill_path)] *)
Definition load_skill_content (fs : skills_dir) (skill_path : string) : option string :=
  content ← read_skill fs skill_path;
  Some (s_body (parse_skill_frontmatter content)).

(** The normalisation at the head of [load_skill], [unload_skill] and
    [get_skill_details]. *)
Definition skill_id_of (skill_name : string) : string :=
  PyStr.replace_char " " "-" (PyStr.replace_char "_" "-" (PyStr.lower skill_name)).

Inductive load_result :=
| SkillNotFound (skill_name : string) (available : list string)
| SkillAlreadyLoaded (name : string)
| SkillLoaded (name description skill_content : string)
| LoadRaised.

Definition load_skill (fs : skills_dir) (skill_name : string) (st : state) :
    load_result * state :=
  let skill_id := skill_id_of skill_name in
  match Dict.get skill_id (_skills st) with
  | None => (SkillNotFound skill_name (Dict.keys (_skills st)), st)
  | Some skill =>
      if PyStr.mem skill_id (_loaded_skills st) then (SkillAlreadyLoaded (name skill), st)
      else
        match load_skill_content fs (path skill) with
        | None => (LoadRaised, st)
        | Some skill_content =>
            (SkillLoaded (name skill) (description skill) skill_content,
             {| _loaded_skills := _loaded_skills st ++ [skill_id];
                _skills := _skills st |})
        end
  end.

(** The loop of [list_loaded_skills]: [None] is the [KeyError] of
    [_skills[skill_id]]. *)
Fixpoint loaded_lines (skills : Dict.t skill) (loaded : list string) :
    option (list (string * string)) :=
  match loaded with
  | [] => Some []
  | skill_id :: loaded' =>
      skill ← Dict.get skill_id skills;
      rest ← loaded_lines skills loaded';
      Some ((name skill, skill_id) :: rest)
  end.

Inductive loaded_listing :=
| NoSkillsLoaded
| LoadedSkills (lines : list (string * string))
| ListRaised.

Definition list_loaded_skills (st : state) : loaded_listing :=
  match _loaded_skills st with
  | [] => NoSkillsLoaded
  | _ =>
      match loaded_lines (_skills st) (_loaded_skills st) with
      | Some lines => LoadedSkills lines
      | None => ListRaised
      end
  end.

(** The calls that assign to the module state. *)
Inductive call :=
| call_load_skill (skill_name : string)
| call_unload_skill (skill_name : string)
| call_reset_loaded_skills.

Definition state_after (fs : skills_dir) (c : call) (st : state) : state :=
  match c with
  | call_load_skill skill_name => (load_skill fs skill_name st).2
  | call_unload_skill skill_name => (unload_skill skill_name st).2
  | call_reset_loaded_skills => reset_loaded_skills st
  end.

End SkillTools.

(** * Vocabulary of the statements *)

(** [sub] occurs in [s] as a substring. *)
Definition substring_of (sub s : string) : Prop :=
  ∃ pre suf, s = pre +:+ sub +:+ suf.

(** [phrase] occurs in [s] when case is ignored: some substring of [s] has
    the same lower-case form as [phrase]. *)
Definition occurs_ignoring_case (phrase s : string) : Prop :=
  ∃ pre mid suf, s = pre +:+ mid +:+ suf ∧ PyStr.lower mid = PyStr.lower phrase.

(** The capabilities [evaluate_requirements] detects in a text. *)
Definition detected_capabilities (requirements : string) : gset string :=
  Decision.detect_capabilities (PyStr.lower requirements).

(** The pattern an evaluation recommends first, and its ranking as names
    with scores. *)
Definition top_recommendation (e : Decision.evaluation) : option string :=
  match e with
  | Decision.CouldNotDetect => None
  | Decision.RequirementAnalysis _ _ _ top _ => top
  end.

Definition alternative_recommendation (e : Decision.evaluation) : option string :=
  match e with
  | Decision.CouldNotDetect => None
  | Decision.RequirementAnalysis _ _ _ _ alternative => alternative
  end.

Definition ranking (e : Decision.evaluation) : list (string * Z) :=
  match e with
  | Decision.CouldNotDetect => []
  | Decision.RequirementAnalysis _ sorted_patterns _ _ _ =>
      map (λ x, (x.1, Decision.score x.2)) sorted_patterns
  end.

(** The rows an evaluation ranks, best first. *)
Definition ranked_rows (e : Decision.evaluation) : list (string * Decision.fit) :=
  match e with
  | Decision.CouldNotDetect => []
  | Decision.RequirementAnalysis _ sorted_patterns _ _ _ => sorted_patterns
  end.

(** The entry of the [scores] dictionary for a pattern. *)
Definition fit_of (requirements pattern_name : string) : option Decision.fit :=
  Dict.get pattern_name (Decision.pattern_scores (detected_capabilities requirements)).

(** The sum of the scores a row gives to a list of capabilities, a
    capability the row does not rate counting 0. *)
Definition capability_sum (capabilities : Dict.t Z) (caps : list string) : Z :=
  foldr (λ cap acc, default 0 (Dict.get cap capabilities) + acc) 0 caps.

(** Every score of the row lies between 0 and 5. *)
Definition row_in_range (capabilities : Dict.t Z) : Prop :=
  Forall (λ kv, 0 ≤ kv.2 ≤ 5) capabilities.

(** The six axes of [get_clarifying_questions] in the order of their checks:
    the question of the axis and the marker words that address it. *)
Definition axes : list (Decision.question * list string) :=
  [ (Decision.q_execution_model, ["parallel"; "sequential"]);
    (Decision.q_user_interaction, ["user"; "customer"]);
    (Decision.q_data_volume, ["large"; "big"; "huge"; "context"; "token"]);
    (Decision.q_workflow_structure, ["stage"; "step"; "phase"; "workflow"; "state"]);
    (Decision.q_agent_count, ["single"; "one"; "multiple"; "many"; "several"]);
    (Decision.q_response_handling, ["compliance"; "audit"; "legal"; "exact"; "verbatim"]) ].

(** No marker word of the axis occurs in the text, whatever the case. *)
Definition unaddressed (markers : list string) (text : string) : Prop :=
  ∀ m, m ∈ markers → ¬ occurs_ignoring_case m text.

(** The axes of [l] whose check finds no marker in the text. *)
Definition unaddressed_among (l : list (Decision.question * list string))
    (text : string) : list (Decision.question * list string) :=
  filter (λ ax, Decision.any_in ax.2 (PyStr.lower text) = false) l.

(** Some marker word of the axis occurs in the text, whatever the case. *)
Definition addressed (markers : list string) (text : string) : Prop :=
  ∃ m, m ∈ markers ∧ occurs_ignoring_case m text.

(** The questions a clarification asks. *)
Definition asked (c : Decision.clarification) : list Decision.question :=
  match c with
  | Decision.QuiteDetailed => []
  | Decision.ClarifyingQuestions qs => qs
  end.

(** A front-matter header in the shape the pattern asks for: three hyphens,
    white space, a newline, the front matter, a newline, three hyphens,
    white space, a newline, and the body. *)
Fixpoint all_space (s : string) : bool :=
  match s with
  | EmptyString => true
  | String c s' => PyStr.isspace c && all_space s'
  end.

Definition header_of (ws1 fm ws2 body : string) : string :=
  "---" +:+ ws1 +:+ String Patterns.newline
    (fm +:+ String Patterns.newline ("---" +:+ ws2 +:+ String Patterns.newline body)).

Definition well_formed_header (content : string) : Prop :=
  ∃ ws1 fm ws2 body,
    content = header_of ws1 fm ws2 body
    ∧ all_space ws1 = true ∧ all_space ws2 = true.

(** The record [parse_pattern_frontmatter] falls back to, and the entry
    [discover_patterns] files it under. *)
Definition placeholder (content : string) : Patterns.parsed :=
  {| Patterns.p_name := "unknown";
     Patterns.p_title := "Unknown Pattern";
     Patterns.p_description := "No description";
     Patterns.p_category := "unknown";
     Patterns.p_complexity := "unknown";
     Patterns.p_body := content |}.

Definition placeholder_pattern (pattern_file : string) : Patterns.pattern :=
  {| Patterns.name := "unknown";
     Patterns.title := "Unknown Pattern";
     Patterns.description := "No description";
     Patterns.category := "unknown";
     Patterns.complexity := "unknown";
     Patterns.path := pattern_file |}.

(** The ids [get_pattern_comparison] does not find in [_patterns]. *)
Definition unknown_ids (st : Patterns.state) (names : list string) : list string :=
  filter (λ n, Dict.mem n (Patterns._patterns st) = false) names.

(** Example documents, in the format the tests ask of the knowledge files:
    a front matter with the five keys and the three sections. *)
Definition lines (l : list string) : string :=
  PyStr.join (String Patterns.newline "") l.

Definition handoffs_md : string :=
  lines [ "---"; "name: handoffs"; "title: Handoffs Pattern";
          "description: State-driven transitions between stages";
          "category: workflow"; "complexity: medium"; "---"; "";
          "# Handoffs"; ""; "## When to Use"; "- Sequential stages"; "";
          "## When NOT to Use"; "- Parallel work"; "";
          "## Code Reference"; "examples/handoffs_customer_support.py"; "" ].

Definition deep_agents_md : string :=
  lines [ "---"; "name: deep-agents"; "title: Deep Agents Pattern";
          "description: Isolated subagents returning summaries";
          "category: context"; "complexity: high"; "---"; "";
          "# Deep Agents"; ""; "## When to Use"; "- Large tool outputs"; "";
          "## When NOT to Use"; "- Simple lookups"; "";
          "## Code Reference"; "examples/context_quarantine.py"; "" ].

(** A directory with these two documents. *)
Definition demo_fs : Patterns.filesystem :=
  {| Patterns.dir_exists := true;
     Patterns.glob_md := ["knowledge/handoffs.md"; "knowledge/deep-agents.md"];
     Patterns.read_text := λ f,
       if String.eqb f "knowledge/handoffs.md" then Some handoffs_md
       else if String.eqb f "knowledge/deep-agents.md" then Some deep_agents_md
       else None |}.

Definition demo_patterns : Dict.t Patterns.pattern :=
  [ ("handoffs",
      {| Patterns.name := "handoffs"; Patterns.title := "Handoffs Pattern";
         Patterns.description := "State-driven transitions between stages";
         Patterns.category := "workflow"; Patterns.complexity := "medium";
         Patterns.path := "knowledge/handoffs.md" |});
    ("deep-agents",
      {| Patterns.name := "deep-agents"; Patterns.title := "Deep Agents Pattern";
         Patterns.description := "Isolated subagents returning summaries";
         Patterns.category := "context"; Patterns.complexity := "high";
         Patterns.path := "knowledge/deep-agents.md" |}) ].

(** The module state after import over [demo_fs], and with both loaded. *)
Definition demo_state : Patterns.state :=
  {| Patterns._loaded_patterns := []; Patterns._patterns := demo_patterns |}.

Definition demo_loaded_state : Patterns.state :=
  {| Patterns._loaded_patterns := ["handoffs"; "deep-agents"];
     Patterns._patterns := demo_patterns |}.

(** A state of the skills example: two skills known and loaded. *)
Definition demo_skills : Skills.state :=
  {| Skills._loaded_skills := ["python-expert"; "go-expert"];
     Skills._skills :=
       [ ("python-expert",
           {| Skills.name := "Python Expert Skill";
              Skills.description := "Idiomatic Python";
              Skills.path := "skills/python-expert/SKILL.md" |});
         ("go-expert",
           {| Skills.name := "Go Expert Skill";
              Skills.description := "Idiomatic Go";
              Skills.path := "skills/go-expert/SKILL.md" |}) ] |}.

(** The nine pattern ids the tests expect discovery to find. *)
Definition expected_names : list string :=
  [ "subagents"; "deep-agents"; "supervisor-forward"; "hierarchical-teams";
    "context-quarantine"; "skills"; "handoffs"; "router"; "custom-workflows" ].

(** A directory whose only document has no front matter. *)
Definition broken_fs : Patterns.filesystem :=
  {| Patterns.dir_exists := true;
     Patterns.glob_md := ["knowledge/broken.md"];
     Patterns.read_text := λ f,
       if String.eqb f "knowledge/broken.md" then Some "# Notes without a header"
       else None |}.

(** ** Vocabulary of the further properties *)

(** The order of a ranking: no later row has a larger key. *)
Definition descending {A : Type} (key : A → Z) (l : list A) : Prop :=
  StronglySorted (λ a b, key b ≤ key a) l.

(** The rows of a list that have a given key, in their order. *)
Definition with_key {A : Type} (key : A → Z) (k : Z) (l : list A) : list A :=
  filter (λ x, key x = k) l.

(** The rows of a use-case analysis. *)
Definition use_case_rows (a : Decision.use_case_analysis) : list Decision.use_case_row :=
  match a with
  | Decision.NoClearMatch => []
  | Decision.UseCaseAnalysis rows _ _ => rows
  end.


(** The patterns of the indicator table with the number of their
    indicators found in the text, in the order of the table, the patterns
    without a hit left out. *)
Definition indicator_hits (use_case_lower : string) : list (string * Z) :=
  filter (λ pc, 0 < pc.2)
    (map (λ pk, (pk.1, Z.of_nat (length (Decision.matched_keywords pk.2 use_case_lower))))
       Decision.indicators).

(** The pattern suggested first and the one to consider also. *)
Definition use_case_top (a : Decision.use_case_analysis) : option string :=
  match a with
  | Decision.NoClearMatch => None
  | Decision.UseCaseAnalysis _ top_pattern _ => top_pattern
  end.

Definition use_case_alt (a : Decision.use_case_analysis) : option string :=
  match a with
  | Decision.NoClearMatch => None
  | Decision.UseCaseAnalysis _ _ alt => alt
  end.

(** The character [c] occurs in [s]. *)
Fixpoint has_char (c : ascii) (s : string) : bool :=
  match s with
  | EmptyString => false
  | String a s' => Ascii.eqb a c || has_char c s'
  end.

(** A line [key:value] of a front matter. *)
Definition metadata_line (kv : string * string) : string :=
  kv.1 +:+ String ":" kv.2.

(** The dictionary a list of key-value lines stands for: keys and values
    stripped, a later line replacing an earlier one with the same key. *)
Definition metadata_of (kvs : list (string * string)) : Dict.t string :=
  foldl (λ metadata kv, Dict.set (PyStr.strip kv.1) (PyStr.strip kv.2) metadata) [] kvs.

(** The entry [discover_patterns] makes of a document. *)
Definition entry_of (pattern_file content : string) : Patterns.pattern :=
  let parsed := Patterns.parse_pattern_frontmatter content in
  {| Patterns.name := Patterns.p_name parsed;
     Patterns.title := Patterns.p_title parsed;
     Patterns.description := Patterns.p_description parsed;
     Patterns.category := Patterns.p_category parsed;
     Patterns.complexity := Patterns.p_complexity parsed;
     Patterns.path := pattern_file |}.

(** The module state after a sequence of calls. *)
Definition state_after_calls (fs : Patterns.filesystem) (calls : list Patterns.call)
    (st : Patterns.state) : Patterns.state :=
  foldl (λ st c, Patterns.state_after fs c st) st calls.

(** The results a search reports. *)
Definition search_results (r : PatternSearch.search_report) :
    list PatternSearch.search_result :=
  match r with
  | PatternSearch.PatternsMatching _ results => results
  | _ => []
  end.

(** The result the search makes of a pattern whose document holds the
    query. *)
Definition result_of (query name : string) (p : Patterns.pattern) (text : string) :
    PatternSearch.search_result :=
  {| PatternSearch.r_name := name;
     PatternSearch.r_title := Patterns.title p;
     PatternSearch.r_matches := PyText.count (PyStr.lower query) (PyStr.lower text);
     PatternSearch.r_snippet :=
       PatternSearch.snippet_of (PyStr.lower text) (PyStr.lower query) query |}.

(** The result the search makes of an item of [_patterns], if any. *)
Definition search_hit (fs : Patterns.filesystem) (query : string)
    (item : string * Patterns.pattern) : option PatternSearch.search_result :=
  text ← Patterns.read_text fs (Patterns.path item.2);
  if PyStr.contains (PyStr.lower query) (PyStr.lower text)
  then Some (result_of query item.1 item.2 text)
  else None.

(** The sections of a listing. *)
Definition listing_sections (l : PatternListing.listing) :
    list (string * list PatternListing.listed) :=
  match l with
  | PatternListing.NoPatternsFound => []
  | PatternListing.PatternListing sections _ _ => sections
  end.

(** Ascending order of strings, as Python compares them. *)
Definition ascending {A : Type} (key : A → string) (l : list A) : Prop :=
  Sorted (λ a b, String.leb (key a) (key b) = true) l.

(** The state of the skills module after a sequence of calls. *)
Definition skills_after_calls (fs : SkillTools.skills_dir) (calls : list SkillTools.call)
    (st : Skills.state) : Skills.state :=
  foldl (λ st c, SkillTools.state_after fs c st) st calls.

(** A skills directory with the two skills of [demo_skills]. *)
Definition demo_skills_dir : SkillTools.skills_dir :=
  {| SkillTools.skills_dir_exists := true;
     SkillTools.iterdir := ["python-expert"; "README.md"; "go-expert"];
     SkillTools.is_dir := λ d, negb (String.eqb d "README.md");
     SkillTools.skill_file_exists := λ d, true;
     SkillTools.skill_file := λ d, "skills/" +:+ d +:+ "/SKILL.md";
     SkillTools.read_skill := λ f,
       if String.eqb f "skills/python-expert/SKILL.md"
       then Some (lines ["---"; "name: Python Expert Skill";
                         "description: Idiomatic Python"; "---"; "Use type hints."])
       else if String.eqb f "skills/go-expert/SKILL.md"
       then Some (lines ["---"; "name: Go Expert Skill";
                         "description: Idiomatic Go"; "---"; "Handle every error."])
       else None |}.

(** A skills directory that does not exist. *)
Definition missing_skills_dir : SkillTools.skills_dir :=
  {| SkillTools.skills_dir_exists := false;
     SkillTools.iterdir := [];
     SkillTools.is_dir := λ _, false;
     SkillTools.skill_file_exists := λ _, false;
     SkillTools.skill_file := λ d, d;
     SkillTools.read_skill := λ _, None |}.


(** * Properties *)

(** ** Strings *)

Section StringFacts.

Lemma append_assoc (a b c : string) : (a +:+ b) +:+ c = a +:+ b +:+ c.
Proof. induction a as [|x a IH]; simpl; [done|by f_equal]. Qed.

Lemma after_prefix_spec (p s r : string) :
  PyStr.after_prefix p s = Some r ↔ s = p +:+ r.
Proof.
  revert s. induction p as [|a p IH]; intros [|b s]; simpl.
  - split; [by intros [= <-]|by intros <-].
  - split; [by intros [= <-]|by intros <-].
  - split; [done|discriminate].
  - destruct (Ascii.eqb_spec a b) as [->|Hne].
    + rewrite IH. split; [by intros ->|by intros [= ->]].
    + split; [done|]. intros [= -> _]. by destruct Hne.
Qed.

Lemma startswith_after_prefix (p s : string) :
  PyStr.startswith p s = true ↔ is_Some (PyStr.after_prefix p s).
Proof.
  revert s. induction p as [|a p IH]; intros [|b s]; simpl.
  - split; [by eexists|done].
  - split; [by eexists|done].
  - split; [done|by intros [? [=]]].
  - destruct (Ascii.eqb a b); [apply IH|]. split; [done|by intros [? [=]]].
Qed.

Lemma startswith_spec (p s : string) :
  PyStr.startswith p s = true ↔ ∃ suf, s = p +:+ suf.
Proof.
  rewrite startswith_after_prefix. unfold is_Some.
  by setoid_rewrite after_prefix_spec.
Qed.

Lemma contains_spec (sub s : string) :
  PyStr.contains sub s = true ↔ substring_of sub s.
Proof.
  unfold substring_of. induction s as [|c s IH]; simpl.
  - destruct (PyStr.startswith sub "") eqn:Hst.
    + split; [intros _|done]. apply startswith_spec in Hst as [suf ->].
      by exists "", suf.
    + split; [done|]. intros ([|??] & suf & Heq); [|done].
      assert (PyStr.startswith sub "" = true) by (apply startswith_spec; eauto).
      congruence.
  - destruct (PyStr.startswith sub (String c s)) eqn:Hst.
    + split; [intros _|done]. apply startswith_spec in Hst as [suf ->].
      by exists "", suf.
    + rewrite IH. split.
      * intros (pre & suf & ->). by exists (String c pre), suf.
      * intros ([|x pre] & suf & Heq); simpl in Heq.
        -- assert (PyStr.startswith sub (String c s) = true)
             by (apply startswith_spec; eauto).
           congruence.
        -- injection Heq as -> ->. eauto.
Qed.

Lemma lower_append (a b : string) :
  PyStr.lower (a +:+ b) = PyStr.lower a +:+ PyStr.lower b.
Proof. induction a as [|x a IH]; simpl; [done|by f_equal]. Qed.

(** A split of the lower-case form comes from a split of the text. *)
Lemma lower_split (s a b : string) :
  PyStr.lower s = a +:+ b →
  ∃ s1 s2, s = s1 +:+ s2 ∧ PyStr.lower s1 = a ∧ PyStr.lower s2 = b.
Proof.
  revert s. induction a as [|x a IH]; intros s Heq; simpl in Heq.
  - by exists "", s.
  - destruct s as [|c s]; [done|]. simpl in Heq. injection Heq as <- Heq.
    destruct (IH _ Heq) as (s1 & s2 & -> & <- & <-).
    by exists (String c s1), s2.
Qed.

Lemma occurs_ignoring_case_spec (phrase s : string) :
  occurs_ignoring_case phrase s ↔
  PyStr.contains (PyStr.lower phrase) (PyStr.lower s) = true.
Proof.
  rewrite contains_spec. split.
  - intros (pre & mid & suf & -> & Hmid).
    exists (PyStr.lower pre), (PyStr.lower suf).
    by rewrite !lower_append, Hmid.
  - intros (pre & suf & Heq).
    apply lower_split in Heq as (s1 & s' & -> & <- & Heq).
    apply lower_split in Heq as (s2 & s3 & -> & Hmid & <-).
    by exists s1, s2, s3.
Qed.

End StringFacts.

(** ** Requirement scoring and use-case classification *)

Section DecisionFacts.
Import Decision.

Lemma detect_fold (l : Dict.t string) (s : string) (acc : gset string) (cap : string) :
  cap ∈ foldl (λ detected '(keyword, capability),
                 if PyStr.contains keyword s
                 then detected ∪ {[ capability ]} else detected) acc l
  ↔ cap ∈ acc ∨ ∃ kw, (kw, cap) ∈ l ∧ PyStr.contains kw s = true.
Proof.
  revert acc. induction l as [|[k c] l IH]; intros acc; simpl.
  - split; [auto|]. intros [?|(? & []%elem_of_nil & _)]; done.
  - rewrite IH. destruct (PyStr.contains k s) eqn:Hk.
    + rewrite elem_of_union, elem_of_singleton. split.
      * intros [[?| ->]|(kw & ? & ?)]; [auto| |].
        -- right. exists k. split; [left|done].
        -- right. exists kw. split; [by right|done].
      * intros [?|(kw & [[= -> ->]|?]%elem_of_cons & ?)]; [auto|auto|].
        right. by exists kw.
    + split.
      * intros [?|(kw & ? & ?)]; [auto|]. right. exists kw. split; [by right|done].
      * intros [?|(kw & [[= -> ->]|?]%elem_of_cons & ?)]; [auto|congruence|].
        right. by exists kw.
Qed.

Lemma detect_spec (s cap : string) :
  cap ∈ detect_capabilities s
  ↔ ∃ kw, (kw, cap) ∈ REQUIREMENT_MAPPINGS ∧ PyStr.contains kw s = true.
Proof.
  unfold detect_capabilities. rewrite detect_fold. split; [|auto].
  by intros [[]%not_elem_of_empty|?].
Qed.

(** The phrases of the table are written in lower case. *)
Lemma mappings_lower (kw cap : string) :
  (kw, cap) ∈ REQUIREMENT_MAPPINGS → PyStr.lower kw = kw.
Proof.
  intros Hin.
  assert (Forall (λ kc, PyStr.lower kc.1 = kc.1) REQUIREMENT_MAPPINGS) as Hall
    by (repeat (constructor; [reflexivity|]); constructor).
  by apply (proj1 (Forall_forall _ _) Hall (kw, cap)).
Qed.

Lemma evaluate_sentinel (requirements : string) :
  evaluate_requirements requirements = CouldNotDetect
  ↔ detected_capabilities requirements = ∅.
Proof.
  unfold evaluate_requirements, detected_capabilities.
  destruct (decide (detect_capabilities (PyStr.lower requirements) = ∅)); by split.
Qed.

Lemma evaluate_analysis (requirements : string) :
  detected_capabilities requirements ≠ ∅ →
  ∃ sorted_patterns shown top alternative,
    evaluate_requirements requirements =
    RequirementAnalysis (detected_capabilities requirements)
      sorted_patterns shown top alternative.
Proof.
  intros Hne. unfold evaluate_requirements, detected_capabilities in *.
  destruct (decide (detect_capabilities (PyStr.lower requirements) = ∅)); [done|].
  eauto.
Qed.

Lemma match_count_fold (kws : list string) (s : string) (n : Z) :
  n ≤ foldl (λ n kw, if PyStr.contains kw s then n + 1 else n) n kws
  ∧ (foldl (λ n kw, if PyStr.contains kw s then n + 1 else n) n kws = n
     ↔ ∀ kw, kw ∈ kws → PyStr.contains kw s = false).
Proof.
  revert n. induction kws as [|k kws IH]; intros n; simpl.
  - split; [lia|]. split; [|done]. by intros _ ? ?%elem_of_nil.
  - destruct (PyStr.contains k s) eqn:Hk.
    + destruct (IH (n + 1)) as [Hle _]. split; [lia|]. split; [lia|].
      intros Hall. specialize (Hall k (list_elem_of_here _ _)). congruence.
    + destruct (IH n) as [Hle Hiff]. split; [done|]. rewrite Hiff. split.
      * intros Hall kw [->|?]%elem_of_cons; auto.
      * intros Hall kw ?. apply Hall. by right.
Qed.

Lemma match_count_zero (kws : list string) (s : string) :
  (0 <? match_count kws s) = false
  ↔ ∀ kw, kw ∈ kws → PyStr.contains kw s = false.
Proof.
  unfold match_count. destruct (match_count_fold kws s 0) as [Hle <-].
  rewrite Z.ltb_ge. lia.
Qed.

Lemma dict_set_not_nil {V : Type} (k : string) (v : V) (d : Dict.t V) :
  Dict.set k v d ≠ [].
Proof. destruct d as [|[k' v'] d]; simpl; [done|]. by destruct (String.eqb k k'). Qed.

Lemma use_case_matches_fold (l : Dict.t (list string)) (s : string) (acc : Dict.t Z) :
  foldl (λ matches '(pattern, keywords),
           let count := match_count keywords s in
           if 0 <? count then Dict.set pattern count matches else matches)
        acc l = []
  ↔ acc = [] ∧ ∀ p kws, (p, kws) ∈ l → (0 <? match_count kws s) = false.
Proof.
  revert acc. induction l as [|[p kws] l IH]; intros acc; simpl.
  - split; [|by intros [? _]]. intros ->. split; [done|]. by intros ?? ?%elem_of_nil.
  - rewrite IH. destruct (0 <? match_count kws s) eqn:Hc.
    + split.
      * intros [Hs _]. by apply dict_set_not_nil in Hs.
      * intros [_ Hall]. specialize (Hall p kws (list_elem_of_here _ _)). congruence.
    + split.
      * intros [-> Hall]. split; [done|].
        intros p' kws' [Heq|?]%elem_of_cons; [|by apply (Hall p')].
        by injection Heq as -> ->.
      * intros [-> Hall]. split; [done|]. intros p' kws' ?. apply (Hall p'). by right.
Qed.

Lemma analyze_sentinel (use_case : string) :
  analyze_use_case use_case = NoClearMatch
  ↔ use_case_matches (PyStr.lower use_case) = [].
Proof.
  unfold analyze_use_case.
  by destruct (use_case_matches (PyStr.lower use_case)).
Qed.

Lemma dict_get_elem_of {V : Type} (k : string) (v : V) (d : Dict.t V) :
  Dict.get k d = Some v → (k, v) ∈ d.
Proof.
  induction d as [|[k' v'] d IH]; simpl; [done|].
  destruct (String.eqb_spec k k') as [->|Hne].
  - intros [= ->]. left.
  - intros ?. right. auto.
Qed.

Lemma dict_get_map {V W : Type} (g : V → W) (k : string) (d : Dict.t V) :
  Dict.get k (map (λ kv, (kv.1, g kv.2)) d) = g <$> Dict.get k d.
Proof.
  induction d as [|[k' v'] d IH]; simpl; [done|].
  by destruct (String.eqb k k').
Qed.

Lemma matrix_in_range (pattern_name : string) (capabilities : Dict.t Z) :
  (pattern_name, capabilities) ∈ PATTERN_CAPABILITIES → row_in_range capabilities.
Proof.
  intros Hin.
  assert (Forall (λ row, row_in_range row.2) PATTERN_CAPABILITIES) as Hall.
  { unfold row_in_range. repeat (constructor; [compute_done|]). constructor. }
  by apply (proj1 (Forall_forall _ _) Hall (pattern_name, capabilities)).
Qed.

Lemma row_value_range (capabilities : Dict.t Z) (cap : string) :
  row_in_range capabilities → 0 ≤ default 0 (Dict.get cap capabilities) ≤ 5.
Proof.
  intros Hrow. destruct (Dict.get cap capabilities) as [v|] eqn:Hget; simpl; [|lia].
  apply dict_get_elem_of in Hget.
  by apply (proj1 (Forall_forall _ _) Hrow (cap, v)).
Qed.

Lemma score_loop_sum (capabilities : Dict.t Z) (caps : list string)
    (sc : Z) (m : list (string * Z)) :
  (foldl (λ (acc : Z * list (string * Z)) cap,
            let '(score, matched) := acc in
            match Dict.get cap capabilities with
            | Some v => (score + v, matched ++ [(cap, v)])
            | None => (score, matched)
            end) (sc, m) caps).1
  = sc + capability_sum capabilities caps.
Proof.
  revert sc m. induction caps as [|cap caps IH]; intros sc m; simpl; [lia|].
  destruct (Dict.get cap capabilities) as [v|]; rewrite IH; simpl; lia.
Qed.

Lemma score_pattern_score (detected : gset string) (capabilities : Dict.t Z) :
  score (score_pattern detected capabilities)
  = capability_sum capabilities (elements detected).
Proof.
  unfold score_pattern.
  pose proof (score_loop_sum capabilities (elements detected) 0 []) as Hsum.
  unfold score_loop. destruct (foldl _ _ _) as [sc m]. simpl in *. lia.
Qed.

Lemma score_pattern_max (detected : gset string) (capabilities : Dict.t Z) :
  max_possible (score_pattern detected capabilities) = 5 * Z.of_nat (size detected).
Proof.
  unfold score_pattern. destruct (score_loop _ _). simpl. lia.
Qed.

Lemma capability_sum_range (capabilities : Dict.t Z) (caps : list string) :
  row_in_range capabilities →
  0 ≤ capability_sum capabilities caps ≤ 5 * Z.of_nat (length caps).
Proof.
  intros Hrow. induction caps as [|cap caps IH]; simpl; [lia|].
  pose proof (row_value_range capabilities cap Hrow). lia.
Qed.

Lemma capability_sum_submseteq (capabilities : Dict.t Z) (l1 l2 : list string) :
  row_in_range capabilities → l1 ⊆+ l2 →
  capability_sum capabilities l1 ≤ capability_sum capabilities l2.
Proof.
  intros Hrow Hsub. induction Hsub as [|x l1 l2 _ IH|x y l|x l1 l2 _ IH|l1 l2 l3 _ IH1 _ IH2];
    simpl; try lia.
  pose proof (row_value_range capabilities x Hrow). lia.
Qed.

Lemma pattern_scores_map (detected : gset string) :
  pattern_scores detected
  = map (λ kv, (kv.1, score_pattern detected kv.2)) PATTERN_CAPABILITIES.
Proof. reflexivity. Qed.

Lemma fit_of_spec (requirements pattern_name : string) (f : fit) :
  fit_of requirements pattern_name = Some f →
  ∃ capabilities,
    Dict.get pattern_name PATTERN_CAPABILITIES = Some capabilities
    ∧ f = score_pattern (detected_capabilities requirements) capabilities.
Proof.
  unfold fit_of. rewrite pattern_scores_map, dict_get_map.
  destruct (Dict.get pattern_name PATTERN_CAPABILITIES) as [row|] eqn:Hget;
    cbn [fmap option_fmap option_map]; [|discriminate].
  intros Heq. exists row. split; [done|]. by injection Heq as <-.
Qed.

Lemma insert_desc_perm {A : Type} (key : A → Z) (x : A) (l : list A) :
  insert_desc key x l ≡ₚ x :: l.
Proof.
  induction l as [|y l IH]; simpl; [done|].
  destruct (key y <? key x); [done|]. rewrite IH. apply Permutation_swap.
Qed.

Lemma sorted_desc_perm {A : Type} (key : A → Z) (l : list A) :
  sorted_desc key l ≡ₚ l.
Proof.
  unfold sorted_desc.
  assert (∀ acc, foldl (λ acc x, insert_desc key x acc) acc l ≡ₚ acc ++ l) as Hgen.
  { induction l as [|x l IH]; intros acc; simpl; [by rewrite app_nil_r|].
    rewrite IH, insert_desc_perm. simpl. apply Permutation_middle. }
  apply (Hgen []).
Qed.

End DecisionFacts.

(** ** The claims on scoring and classification *)

Section DecisionClaims.
Import Decision.

(** C1, as stated, fails: for "Need parallel execution and result
    synthesis" the first recommendation is not the router pattern. *)
Lemma C1_top_is_not_router :
  top_recommendation
    (evaluate_requirements "Need parallel execution and result synthesis")
  ≠ Some "router".
Proof. compute_done. Qed.

(** C1, amended: for "Need parallel execution and result synthesis" the
    only detected capability is parallel_execution (no phrase mapped to
    result_synthesis is a substring of the text), subagents and router
    both score 5 out of 5, and the stable sort keeps the order of the
    capability matrix: subagents is recommended first and router is the
    alternative. *)
Theorem C1_parallel_synthesis_ranking :
  let requirements := "Need parallel execution and result synthesis" in
  detected_capabilities requirements = {[ "parallel_execution" ]}
  ∧ (∀ kw, (kw, "result_synthesis") ∈ REQUIREMENT_MAPPINGS →
           ¬ substring_of kw (PyStr.lower requirements))
  ∧ ranking (evaluate_requirements requirements) =
      [ ("subagents", 5); ("router", 5); ("hierarchical-teams", 4);
        ("custom-workflows", 4); ("deep-agents", 3); ("supervisor-forward", 3);
        ("context-quarantine", 3); ("skills", 1); ("handoffs", 1) ]
  ∧ top_recommendation (evaluate_requirements requirements) = Some "subagents"
  ∧ alternative_recommendation (evaluate_requirements requirements) = Some "router"
  ∧ Dict.get "parallel_execution" <$> Dict.get "router" PATTERN_CAPABILITIES
      = Some (Some 5)
  ∧ Dict.get "result_synthesis" <$> Dict.get "router" PATTERN_CAPABILITIES
      = Some (Some 5).
Proof.
  cbv zeta. split_and!; try compute_done.
  intros kw Hin Hsub. apply contains_spec in Hsub.
  assert ("result_synthesis" ∉ detected_capabilities
            "Need parallel execution and result synthesis") as Hd
    by compute_done.
  apply Hd, detect_spec. eauto.
Qed.

(** C2: a phrase of the keyword table that occurs in the text, whatever
    the case of the letters, puts its capability into the set of detected
    capabilities, and that set is the one the evaluation reports. *)
Theorem C2_mapped_phrase_is_detected (requirements phrase capability : string) :
  (phrase, capability) ∈ REQUIREMENT_MAPPINGS →
  occurs_ignoring_case phrase requirements →
  capability ∈ detected_capabilities requirements
  ∧ ∃ sorted_patterns shown top alternative,
      evaluate_requirements requirements =
      RequirementAnalysis (detected_capabilities requirements)
        sorted_patterns shown top alternative.
Proof.
  intros Hin Hocc.
  assert (capability ∈ detected_capabilities requirements) as Hcap.
  { apply detect_spec. exists phrase. split; [done|].
    apply occurs_ignoring_case_spec in Hocc.
    by rewrite (mappings_lower _ _ Hin) in Hocc. }
  split; [done|]. apply evaluate_analysis.
  intros Hempty. rewrite Hempty in Hcap. by apply not_elem_of_empty in Hcap.
Qed.

Lemma C2_witness :
  "result_synthesis" ∈ detected_capabilities "We must SYNTHESIZE the answers".
Proof.
  apply (C2_mapped_phrase_is_detected
           "We must SYNTHESIZE the answers" "synthesize" "result_synthesis").
  - compute_done.
  - exists "We must ", "SYNTHESIZE", " the answers". split; reflexivity.
Defined.

(** C4: each analysis returns its sentinel exactly when nothing matched:
    [evaluate_requirements] when no phrase of the keyword table is a
    substring of the lower-cased text, [analyze_use_case] when no
    indicator of any pattern is; a result of [evaluate_requirements] that
    is not the sentinel ranks all nine patterns; "build something cool"
    gives both sentinels. *)
Theorem C4_sentinel_iff_nothing_matched :
  (∀ text,
      evaluate_requirements text = CouldNotDetect
      ↔ ∀ phrase capability,
          (phrase, capability) ∈ REQUIREMENT_MAPPINGS →
          ¬ substring_of phrase (PyStr.lower text))
  ∧ (∀ text,
      analyze_use_case text = NoClearMatch
      ↔ ∀ pattern keywords kw,
          (pattern, keywords) ∈ indicators → kw ∈ keywords →
          ¬ substring_of kw (PyStr.lower text))
  ∧ (∀ text,
      evaluate_requirements text = CouldNotDetect
      ∨ length (ranked_rows (evaluate_requirements text)) = 9%nat)
  ∧ evaluate_requirements "build something cool" = CouldNotDetect
  ∧ analyze_use_case "build something cool" = NoClearMatch.
Proof.
  split_and!; [| | |compute_done..]; cycle 2.
  { intros text. unfold evaluate_requirements.
    destruct (decide _); [by left|right]. cbn [ranked_rows].
    by rewrite (Permutation_length (sorted_desc_perm _ _)), pattern_scores_map,
      length_map. }
  - intros text. rewrite evaluate_sentinel. unfold detected_capabilities. split.
    + intros Hempty phrase capability Hin Hsub%contains_spec.
      assert (capability ∈ detect_capabilities (PyStr.lower text)) as Hd
        by (apply detect_spec; eauto).
      rewrite Hempty in Hd. by apply not_elem_of_empty in Hd.
    + intros Hnone. apply leibniz_equiv, elem_of_equiv_empty. intros cap.
      rewrite detect_spec. intros (kw & Hin & Hc%contains_spec).
      by apply (Hnone kw cap).
  - intros text. rewrite analyze_sentinel. unfold use_case_matches.
    rewrite use_case_matches_fold. split.
    + intros [_ Hall] pattern keywords kw Hin Hkw Hsub%contains_spec.
      pose proof (Hall _ _ Hin) as Hz. rewrite match_count_zero in Hz.
      rewrite (Hz kw Hkw) in Hsub. done.
    + intros Hnone. split; [done|]. intros p kws Hin.
      apply match_count_zero. intros kw Hkw.
      destruct (PyStr.contains kw (PyStr.lower text)) eqn:Hc; [|done].
      apply contains_spec in Hc. by destruct (Hnone p kws kw).
Qed.

End DecisionClaims.

Section ScoreClaims.
Import Decision.

(** C3: the score of every pattern is at most [max_possible], which is 5
    times the number of detected capabilities; when the capabilities
    detected in one text are among those detected in another, as they are
    when text is added around the first, no pattern scores less on the
    second; and the rows [evaluate_requirements] ranks are these entries,
    reordered. *)
Theorem C3_score_bounded_and_monotone :
  (∀ requirements pattern_name f,
      fit_of requirements pattern_name = Some f →
      0 ≤ score f ≤ max_possible f
      ∧ max_possible f = 5 * Z.of_nat (size (detected_capabilities requirements)))
  ∧ (∀ requirements1 requirements2 pattern_name f1 f2,
      detected_capabilities requirements1 ⊆ detected_capabilities requirements2 →
      fit_of requirements1 pattern_name = Some f1 →
      fit_of requirements2 pattern_name = Some f2 →
      score f1 ≤ score f2)
  ∧ (∀ before requirements after,
      detected_capabilities requirements
      ⊆ detected_capabilities (before +:+ requirements +:+ after))
  ∧ (∀ requirements,
      evaluate_requirements requirements ≠ CouldNotDetect →
      ranked_rows (evaluate_requirements requirements)
      ≡ₚ pattern_scores (detected_capabilities requirements)).
Proof.
  split_and!.
  - intros requirements pattern_name f (row & Hin & ->)%fit_of_spec.
    apply dict_get_elem_of, matrix_in_range in Hin.
    rewrite score_pattern_score, score_pattern_max.
    generalize (detected_capabilities requirements). intros d.
    pose proof (capability_sum_range row (elements d) Hin) as Hrange.
    change (size d) with (length (elements d)). lia.
  - intros r1 r2 pattern_name f1 f2 Hsub
      (row1 & Hin1 & ->)%fit_of_spec (row2 & Hin2 & ->)%fit_of_spec.
    assert (row2 = row1) as -> by congruence.
    apply dict_get_elem_of, matrix_in_range in Hin1.
    rewrite !score_pattern_score.
    apply capability_sum_submseteq; [done|].
    by apply elements_submseteq.
  - intros before requirements after. apply elem_of_subseteq. intros cap.
    unfold detected_capabilities. rewrite !detect_spec.
    intros (kw & Hin & (pre & suf & Heq)%contains_spec). exists kw.
    split; [done|]. apply contains_spec. rewrite !lower_append, Heq.
    exists (PyStr.lower before +:+ pre), (suf +:+ PyStr.lower after).
    by rewrite !append_assoc.
  - intros requirements. unfold evaluate_requirements, detected_capabilities.
    destruct (decide _); [done|]. intros _. cbn [ranked_rows].
    apply sorted_desc_perm.
Qed.

Lemma C3_witness :
  (0 ≤ 5 ≤ 5 ∧ 5 = 5 * Z.of_nat (size (detected_capabilities "parallel")))
  ∧ 5 ≤ 6.
Proof.
  split.
  - apply (proj1 C3_score_bounded_and_monotone "parallel" "router"
             {| score := 5; max_possible := 5;
                matched := [("parallel_execution", 5)] |}).
    vm_compute. reflexivity.
  - apply (proj1 (proj2 C3_score_bounded_and_monotone)
             "parallel" "parallel steps" "router"
             {| score := 5; max_possible := 5;
                matched := [("parallel_execution", 5)] |}
             {| score := 6; max_possible := 10;
                matched := [("workflow_stages", 1); ("parallel_execution", 5)] |}).
    + compute_done.
    + vm_compute. reflexivity.
    + vm_compute. reflexivity.
Defined.

End ScoreClaims.

(** ** Clarifying questions *)

Section QuestionFacts.
Import Decision.

Lemma elem_of_take_filter {A : Type} (P : A → Prop) `{!∀ x, Decision (P x)}
    (l : list A) (i n : nat) (x : A) :
  NoDup l → l !! i = Some x →
  x ∈ take n (filter P l) ↔ P x ∧ (length (filter P (take i l)) < n)%nat.
Proof.
  intros Hnd. revert i n. induction Hnd as [|y l Hy Hnd IH]; intros i n Hi; [done|].
  destruct i as [|i]; simpl in Hi.
  - injection Hi as ->. rewrite take_0, filter_nil. simpl.
    rewrite filter_cons. destruct (decide (P x)) as [HP|HP].
    + destruct n as [|n]; simpl.
      * split; [by intros ?%elem_of_nil|intros [_ ?]; lia].
      * split; [intros _; split; [done|lia]|intros _; left].
    + split; [|by intros [? _]].
      intros Hin%(subseteq_take n)%list_elem_of_filter. by destruct Hin.
  - assert (x ≠ y) as Hne.
    { intros ->. apply Hy. by eapply list_elem_of_lookup_2. }
    rewrite firstn_cons, !filter_cons. destruct (decide (P y)) as [HP|HP].
    + destruct n as [|n]; simpl.
      * split; [by intros ?%elem_of_nil|intros [_ ?]; lia].
      * rewrite elem_of_cons, (IH i n Hi). split.
        -- intros [?|[? ?]]; [done|]. split; [done|lia].
        -- intros [? ?]. right. split; [done|lia].
    + apply (IH i n Hi).
Qed.

Lemma any_in_spec (kws : list string) (s : string) :
  any_in kws s = false ↔ ∀ kw, kw ∈ kws → PyStr.contains kw s = false.
Proof.
  unfold any_in. induction kws as [|k kws IH]; simpl.
  - split; [|done]. by intros _ ? ?%elem_of_nil.
  - rewrite orb_false_iff, IH. split.
    + intros [Hk Hall] kw [->|?]%elem_of_cons; auto.
    + intros Hall. split; [apply Hall; left|]. intros kw ?. apply Hall. by right.
Qed.

(** The marker words are written in lower case. *)
Lemma markers_lower (q : question) (markers : list string) (m : string) :
  (q, markers) ∈ axes → m ∈ markers → PyStr.lower m = m.
Proof.
  intros Hax Hm.
  assert (Forall (λ ax, Forall (λ m, PyStr.lower m = m) ax.2) axes) as Hall
    by (repeat (constructor; [repeat (constructor; [reflexivity|]); constructor|]);
        constructor).
  pose proof (proj1 (Forall_forall _ _) Hall _ Hax) as Hms.
  by apply (proj1 (Forall_forall _ _) Hms).
Qed.

Lemma unaddressed_spec (q : question) (markers : list string) (text : string) :
  (q, markers) ∈ axes →
  any_in markers (PyStr.lower text) = false ↔ unaddressed markers text.
Proof.
  intros Hax. rewrite any_in_spec. unfold unaddressed.
  split; intros Hall m Hm; specialize (Hall m Hm).
  - rewrite occurs_ignoring_case_spec, (markers_lower _ _ _ Hax Hm). congruence.
  - rewrite occurs_ignoring_case_spec, (markers_lower _ _ _ Hax Hm) in Hall.
    by destruct (PyStr.contains m (PyStr.lower text)).
Qed.

(** The six checks, one after the other, are a filter over the axes. *)
Lemma missing_questions_axes (text : string) :
  missing_questions (PyStr.lower text) = (unaddressed_among axes text).*1.
Proof.
  unfold missing_questions, unaddressed_among, axes.
  generalize (PyStr.lower text). intros s.
  rewrite !filter_cons, filter_nil. cbn [snd].
  replace (negb (PyStr.contains "parallel" s) && negb (PyStr.contains "sequential" s))
    with (negb (any_in ["parallel"; "sequential"] s))
    by (unfold any_in; simpl; by rewrite orb_false_r, negb_orb).
  replace (negb (PyStr.contains "user" s) && negb (PyStr.contains "customer" s))
    with (negb (any_in ["user"; "customer"] s))
    by (unfold any_in; simpl; by rewrite orb_false_r, negb_orb).
  generalize (any_in ["parallel"; "sequential"] s)
             (any_in ["user"; "customer"] s)
             (any_in ["large"; "big"; "huge"; "context"; "token"] s)
             (any_in ["stage"; "step"; "phase"; "workflow"; "state"] s)
             (any_in ["single"; "one"; "multiple"; "many"; "several"] s)
             (any_in ["compliance"; "audit"; "legal"; "exact"; "verbatim"] s).
  by intros [] [] [] [] [] [].
Qed.

Lemma axes_NoDup : NoDup axes.
Proof. compute_done. Qed.

Lemma any_in_true (kws : list string) (s : string) :
  any_in kws s = true ↔ ∃ kw, kw ∈ kws ∧ PyStr.contains kw s = true.
Proof.
  unfold any_in. induction kws as [|k kws IH]; simpl.
  - split; [done|]. by intros (? & ?%elem_of_nil & _).
  - rewrite orb_true_iff, IH. split.
    + intros [?|(kw & ? & ?)]; [exists k; split; [left|done]|].
      exists kw. split; [by right|done].
    + intros (kw & [->|?]%elem_of_cons & ?); [by left|]. right. by exists kw.
Qed.

Lemma addressed_spec (q : question) (markers : list string) (text : string) :
  (q, markers) ∈ axes →
  any_in markers (PyStr.lower text) = true ↔ addressed markers text.
Proof.
  intros Hax. rewrite any_in_true. unfold addressed.
  split; intros (m & Hm & Hc); exists m; (split; [done|]).
  - by rewrite occurs_ignoring_case_spec, (markers_lower _ _ _ Hax Hm).
  - by rewrite occurs_ignoring_case_spec, (markers_lower _ _ _ Hax Hm) in Hc.
Qed.

Lemma NoDup_fst_functional {A B : Type} (l : list (A * B)) (x : A) (y1 y2 : B) :
  NoDup l.*1 → (x, y1) ∈ l → (x, y2) ∈ l → y1 = y2.
Proof.
  induction l as [|[a b] l IH]; csimpl; [by intros _ ?%elem_of_nil|].
  intros [Ha Hnd]%NoDup_cons [Heq1|H1]%elem_of_cons [Heq2|H2]%elem_of_cons.
  - congruence.
  - injection Heq1 as -> ->. destruct Ha. apply list_elem_of_fmap. by exists (a, y2).
  - injection Heq2 as -> ->. destruct Ha. apply list_elem_of_fmap. by exists (a, y1).
  - by apply IH.
Qed.

Lemma asked_spec (text : string) :
  asked (get_clarifying_questions text) = take 4 (unaddressed_among axes text).*1.
Proof.
  unfold get_clarifying_questions. rewrite missing_questions_axes.
  by destruct ((unaddressed_among axes text).*1).
Qed.

Lemma quite_detailed_spec (text : string) :
  get_clarifying_questions text = QuiteDetailed ↔ unaddressed_among axes text = [].
Proof.
  unfold get_clarifying_questions. rewrite missing_questions_axes.
  destruct (unaddressed_among axes text) as [|ax l]; csimpl; by split.
Qed.

End QuestionFacts.

Section QuestionClaims.
Import Decision.

(** C5, as stated, fails: in "Building an assistant" no marker word of the
    agent-count axis occurs, and yet its question is not among those
    returned (four unaddressed axes come before it). *)
Lemma C5_unaddressed_axis_not_asked :
  ¬ (q_agent_count ∈ asked (get_clarifying_questions "Building an assistant")
     ↔ unaddressed ["single"; "one"; "multiple"; "many"; "several"]
         "Building an assistant").
Proof.
  intros [_ Hask].
  assert (q_agent_count ∉ asked (get_clarifying_questions "Building an assistant"))
    as Hnot by compute_done.
  apply Hnot, Hask.
  apply (unaddressed_spec q_agent_count); [compute_done|reflexivity].
Qed.

(** C5, amended: the generator returns the questions of the first four
    unaddressed axes, in the order of the six checks, so never more than
    four; an axis counts as unaddressed exactly when none of its marker
    words occurs in the text, whatever the case; the question of an axis is
    returned iff the axis is unaddressed and fewer than four unaddressed
    axes come before it; and the terminal message, never an empty list of
    questions, is returned exactly when every one of the six axes is
    addressed. *)
Theorem C5_first_four_unaddressed_axes (text : string) :
  asked (get_clarifying_questions text) = take 4 (unaddressed_among axes text).*1
  ∧ (length (asked (get_clarifying_questions text)) ≤ 4)%nat
  ∧ (∀ q markers, (q, markers) ∈ axes →
       ((q, markers) ∈ unaddressed_among axes text ↔ unaddressed markers text))
  ∧ (∀ i q markers, axes !! i = Some (q, markers) →
       (q ∈ asked (get_clarifying_questions text)
        ↔ unaddressed markers text
          ∧ (length (unaddressed_among (take i axes) text) < 4)%nat))
  ∧ (get_clarifying_questions text = QuiteDetailed
     ↔ ∀ q markers, (q, markers) ∈ axes → addressed markers text)
  ∧ get_clarifying_questions text ≠ ClarifyingQuestions [].
Proof.
  assert (∀ q markers, (q, markers) ∈ axes →
            ((q, markers) ∈ unaddressed_among axes text ↔ unaddressed markers text))
    as Hmember.
  { intros q markers Hax. unfold unaddressed_among.
    rewrite list_elem_of_filter. cbn [snd].
    rewrite (unaddressed_spec q markers text Hax). intuition congruence. }
  split_and!.
  - apply asked_spec.
  - rewrite asked_spec, length_take. lia.
  - done.
  - intros i q markers Hi.
    assert ((q, markers) ∈ axes) as Hax by (by eapply list_elem_of_lookup_2).
    rewrite asked_spec, <- fmap_take, <- (unaddressed_spec q markers text Hax).
    unfold unaddressed_among.
    rewrite <- (elem_of_take_filter
                  (λ ax, any_in ax.2 (PyStr.lower text) = false)
                  axes i 4 (q, markers) axes_NoDup Hi).
    rewrite list_elem_of_fmap. split.
    + intros ([q' m'] & -> & Hin). cbn [fst].
      assert ((q', m') ∈ axes) as Hax'
        by (eapply list_elem_of_filter, subseteq_take, Hin).
      assert (NoDup axes.*1) as Hnd by compute_done.
      by rewrite (NoDup_fst_functional axes q' markers m' Hnd Hax Hax').
    + intros Hin. by exists (q, markers).
  - rewrite quite_detailed_spec. unfold unaddressed_among. split.
    + intros Hnil q markers Hax. apply (addressed_spec q); [done|].
      destruct (any_in markers (PyStr.lower text)) eqn:Hany; [done|].
      assert ((q, markers) ∈
                filter (λ ax, any_in ax.2 (PyStr.lower text) = false) axes) as Hin
        by (by apply list_elem_of_filter).
      rewrite Hnil in Hin. by apply elem_of_nil in Hin.
    + intros Hall.
      destruct (filter (λ ax, any_in ax.2 (PyStr.lower text) = false) axes)
        as [|[q markers] l] eqn:Hf; [done|].
      assert ((q, markers) ∈
                filter (λ ax, any_in ax.2 (PyStr.lower text) = false) axes) as Hin
        by (rewrite Hf; left).
      apply list_elem_of_filter in Hin as [Hfalse Hax]. cbn [snd] in Hfalse.
      pose proof (proj2 (addressed_spec q markers text Hax) (Hall q markers Hax)).
      congruence.
  - unfold get_clarifying_questions.
    by destruct (missing_questions (PyStr.lower text)).
Qed.

Lemma C5_witness :
  q_data_volume ∈ asked (get_clarifying_questions "Parallel tools, one user, audit trail")
  ↔ unaddressed ["large"; "big"; "huge"; "context"; "token"]
      "Parallel tools, one user, audit trail"
    ∧ (length (unaddressed_among (take 2 axes)
                 "Parallel tools, one user, audit trail") < 4)%nat.
Proof.
  destruct (C5_first_four_unaddressed_axes "Parallel tools, one user, audit trail")
    as (_ & _ & _ & Hiff & _).
  apply (Hiff 2%nat q_data_volume ["large"; "big"; "huge"; "context"; "token"]).
  reflexivity.
Defined.

End QuestionClaims.

(** ** Pattern documents and the loaded list *)

Section PatternFacts.
Import Patterns.

Example demo_discovery : module_state demo_fs = Some demo_state.
Proof. vm_compute. reflexivity. Qed.

Example handoffs_excerpt :
  when_to_use_excerpt (p_body (parse_pattern_frontmatter handoffs_md))
  = lines ["## When to Use"; "- Sequential stages"].
Proof. vm_compute. reflexivity. Qed.

Lemma mem_spec (x : string) (l : list string) : PyStr.mem x l = true ↔ x ∈ l.
Proof.
  unfold PyStr.mem. induction l as [|y l IH]; simpl.
  - split; [done|by intros ?%elem_of_nil].
  - rewrite orb_true_iff, IH, elem_of_cons.
    destruct (String.eqb_spec x y); intuition congruence.
Qed.

Lemma dict_get_set_eq {V : Type} (k : string) (v : V) (d : Dict.t V) :
  Dict.get k (Dict.set k v d) = Some v.
Proof.
  induction d as [|[k' v'] d IH]; simpl.
  - by rewrite String.eqb_refl.
  - destruct (String.eqb k k') eqn:Hk; simpl;
      [by rewrite String.eqb_refl|by rewrite Hk].
Qed.

Lemma dict_get_set_ne {V : Type} (k k' : string) (v : V) (d : Dict.t V) :
  k ≠ k' → Dict.get k (Dict.set k' v d) = Dict.get k d.
Proof.
  intros Hne. induction d as [|[k0 v0] d IH]; simpl.
  - by destruct (String.eqb_spec k k').
  - destruct (String.eqb_spec k' k0) as [->|Hne0]; simpl.
    + by destruct (String.eqb_spec k k0).
    + by destruct (String.eqb k k0).
Qed.

(** *** The matcher only accepts well-formed headers *)

Lemma space_newline_sound (s r : string) :
  r ∈ space_newline s →
  ∃ ws, s = ws +:+ String newline r ∧ all_space ws = true.
Proof.
  revert r. induction s as [|c s IH]; intros r; simpl; [by intros ?%elem_of_nil|].
  destruct (PyStr.isspace c) eqn:Hc; [|by intros ?%elem_of_nil].
  rewrite elem_of_app. intros [Hin|Hin].
  - destruct (IH r Hin) as (ws & -> & Hws). exists (String c ws).
    split; [done|]. simpl. by rewrite Hc.
  - destruct (Ascii.eqb_spec c newline) as [->|]; [|by apply elem_of_nil in Hin].
    apply list_elem_of_singleton in Hin as ->. by exists "".
Qed.

Lemma closing_fence_sound (s body : string) :
  closing_fence s = Some body →
  ∃ ws, s = String newline ("---" +:+ ws +:+ String newline body)
        ∧ all_space ws = true.
Proof.
  unfold closing_fence.
  destruct (PyStr.after_prefix (String newline "---") s) as [rest|] eqn:Hp; [|done].
  apply after_prefix_spec in Hp as ->. simpl. intros Hhead.
  destruct (space_newline rest) as [|r l] eqn:Hsn; [done|].
  injection Hhead as ->.
  destruct (space_newline_sound rest body) as (ws & -> & Hws);
    [rewrite Hsn; left|].
  by exists ws.
Qed.

Lemma lazy_header_sound (s g body : string) :
  lazy_header s = Some (g, body) →
  ∃ ws, s = g +:+ String newline ("---" +:+ ws +:+ String newline body)
        ∧ all_space ws = true.
Proof.
  revert g. induction s as [|c s IH]; intros g; simpl.
  - discriminate.
  - destruct (closing_fence (String c s)) as [b|] eqn:Hcf.
    + intros [= <- <-]. by apply closing_fence_sound in Hcf.
    + destruct (lazy_header s) as [[g' b']|] eqn:Hl; [|done].
      intros [= <- <-]. destruct (IH g' eq_refl) as (ws & -> & Hws).
      by exists ws.
Qed.

Lemma first_match_sound {A B : Type} (f : A → option B) (l : list A) (y : B) :
  first_match f l = Some y → ∃ x, x ∈ l ∧ f x = Some y.
Proof.
  induction l as [|x l IH]; simpl; [done|].
  destruct (f x) as [y'|] eqn:Hfx.
  - intros [= ->]. exists x. split; [left|done].
  - intros (x' & ? & ?)%IH. exists x'. split; [by right|done].
Qed.

Lemma frontmatter_match_sound (content fm body : string) :
  frontmatter_match content = Some (fm, body) →
  ∃ ws1 ws2, content = header_of ws1 fm ws2 body
             ∧ all_space ws1 = true ∧ all_space ws2 = true.
Proof.
  unfold frontmatter_match.
  destruct (PyStr.after_prefix "---" content) as [rest|] eqn:Hp; [|done].
  apply after_prefix_spec in Hp as ->. simpl.
  intros (r & Hin & Hlazy)%first_match_sound.
  apply space_newline_sound in Hin as (ws1 & -> & Hws1).
  apply lazy_header_sound in Hlazy as (ws2 & -> & Hws2).
  by exists ws1, ws2.
Qed.

Lemma parse_placeholder (content : string) :
  ¬ well_formed_header content →
  parse_pattern_frontmatter content = placeholder content.
Proof.
  intros Hbad. unfold parse_pattern_frontmatter.
  destruct (frontmatter_match content) as [[fm body]|] eqn:Hm; [|done].
  destruct Hbad. apply frontmatter_match_sound in Hm as (ws1 & ws2 & ? & ? & ?).
  by exists ws1, fm, ws2, body.
Qed.

(** *** Discovery *)

Lemma discover_fold_None (fs : filesystem) (l : list string) :
  foldl (discover_step fs) None l = None.
Proof. by induction l. Qed.

Lemma discover_step_Some (fs : filesystem) (acc : Dict.t pattern) (f : string) :
  discover_step fs (Some acc) f
  = match read_text fs f with
    | Some content =>
        Some (Dict.set (p_name (parse_pattern_frontmatter content))
                {| name := p_name (parse_pattern_frontmatter content);
                   title := p_title (parse_pattern_frontmatter content);
                   description := p_description (parse_pattern_frontmatter content);
                   category := p_category (parse_pattern_frontmatter content);
                   complexity := p_complexity (parse_pattern_frontmatter content);
                   path := f |}
                acc)
    | None => None
    end.
Proof. unfold discover_step. simpl. by destruct (read_text fs f). Qed.

Lemma discover_fold_total (fs : filesystem) (l : list string) (acc : Dict.t pattern) :
  (∀ f, f ∈ l → is_Some (read_text fs f)) →
  is_Some (foldl (discover_step fs) (Some acc) l).
Proof.
  revert acc. induction l as [|f l IH]; intros acc Hread; cbn [foldl]; [by eexists|].
  destruct (Hread f (list_elem_of_here _ _)) as [content Hc].
  rewrite discover_step_Some, Hc.
  apply IH. intros g ?. apply Hread. by right.
Qed.

Lemma discover_fold_get (fs : filesystem) (l : list string)
    (acc patterns : Dict.t pattern) (k : string) :
  foldl (discover_step fs) (Some acc) l = Some patterns →
  (∀ g c, g ∈ l → read_text fs g = Some c →
          p_name (parse_pattern_frontmatter c) ≠ k) →
  Dict.get k patterns = Dict.get k acc.
Proof.
  revert acc. induction l as [|f l IH]; intros acc; cbn [foldl].
  - by intros [= ->].
  - rewrite discover_step_Some.
    destruct (read_text fs f) as [content|] eqn:Hc.
    + intros Hfold Hother. rewrite (IH _ Hfold).
      * apply dict_get_set_ne. intros ->.
        by apply (Hother f content (list_elem_of_here _ _) Hc).
      * intros g c ?. apply Hother. by right.
    + by rewrite discover_fold_None.
Qed.

Lemma discover_fold_split (fs : filesystem) (before after : list string)
    (f : string) (patterns : Dict.t pattern) :
  foldl (discover_step fs) (Some []) (before ++ f :: after) = Some patterns →
  ∃ acc, foldl (discover_step fs) (discover_step fs (Some acc) f) after
         = Some patterns.
Proof.
  rewrite foldl_app. cbn [foldl].
  destruct (foldl (discover_step fs) (Some []) before) as [acc|]; [by exists acc|].
  change (discover_step fs None f) with (@None (Dict.t pattern)).
  by rewrite discover_fold_None.
Qed.

(** *** Loading *)

Lemma load_pattern_new (fs : filesystem) (pattern_name content : string)
    (p : pattern) (st : state) :
  Dict.get (normalize pattern_name) (_patterns st) = Some p →
  normalize pattern_name ∉ _loaded_patterns st →
  read_text fs (path p) = Some content →
  load_pattern fs pattern_name st
  = (Loaded (title p) (category p) (complexity p)
       (p_body (parse_pattern_frontmatter content)),
     {| _loaded_patterns := _loaded_patterns st ++ [normalize pattern_name];
        _patterns := _patterns st |}).
Proof.
  intros Hget Hnew Hread. unfold load_pattern. rewrite Hget.
  destruct (PyStr.mem _ _) eqn:Hmem; [by apply mem_spec in Hmem|].
  by rewrite Hread.
Qed.

Lemma load_pattern_again (fs : filesystem) (pattern_name : string)
    (p : pattern) (st : state) :
  Dict.get (normalize pattern_name) (_patterns st) = Some p →
  normalize pattern_name ∈ _loaded_patterns st →
  load_pattern fs pattern_name st = (AlreadyLoaded (title p), st).
Proof.
  intros Hget Hin%mem_spec. unfold load_pattern. by rewrite Hget, Hin.
Qed.

Lemma load_pattern_loaded (fs : filesystem) (pattern_name : string) (st : state) :
  _loaded_patterns (load_pattern fs pattern_name st).2 = _loaded_patterns st
  ∨ _loaded_patterns (load_pattern fs pattern_name st).2
    = _loaded_patterns st ++ [normalize pattern_name].
Proof.
  unfold load_pattern.
  destruct (Dict.get _ _); [|by left].
  destruct (PyStr.mem _ _); [by left|].
  destruct (read_text _ _); [by right|by left].
Qed.

(** *** Comparison *)

Lemma split_not_nil (sep : ascii) (s : string) : PyStr.split sep s ≠ [].
Proof.
  induction s as [|c s IH]; simpl; [done|].
  destruct (Ascii.eqb c sep); [done|]. by destruct (PyStr.split sep s).
Qed.

Lemma invalid_unknown_ids (st : state) (names : list string) :
  filter (λ n, Is_true (negb (Dict.mem n (_patterns st)))) names
  = unknown_ids st names.
Proof.
  unfold unknown_ids. apply list_filter_iff. intros n.
  by destruct (Dict.mem n (_patterns st)).
Qed.

Lemma compare_columns_names (fs : filesystem) (patterns : Dict.t pattern)
    (names : list string) (columns : list compared) :
  compare_columns fs patterns names = Some columns →
  map c_name columns = names.
Proof.
  revert columns. induction names as [|n names IH]; intros columns; simpl.
  - by intros [= <-].
  - destruct (Dict.get n patterns); [|done]. simpl.
    destruct (read_text fs _); [|done]. simpl.
    destruct (compare_columns fs patterns names) as [rest|]; [|done]. simpl.
    intros [= <-]. simpl. f_equal. by apply IH.
Qed.

Lemma comparison_cases (fs : filesystem) (pattern_names : string) (st : state) :
  let names := comparison_names pattern_names in
  get_pattern_comparison fs pattern_names st =
  match unknown_ids st names with
  | _ :: _ => InvalidPatterns (unknown_ids st names) (Dict.keys (_patterns st))
  | [] =>
      if (length names <? 2)%nat then AtLeastTwo
      else if (4 <? length names)%nat then AtMostFour
      else match compare_columns fs (_patterns st) names with
           | Some columns => PatternComparison columns
           | None => CompareRaised
           end
  end.
Proof.
  intros names. unfold get_pattern_comparison. fold names.
  by rewrite invalid_unknown_ids.
Qed.

End PatternFacts.

Section SkillFacts.
Import Skills.

Lemma remove_other (x y : string) (l : list string) :
  y ≠ x → y ∈ remove x l ↔ y ∈ l.
Proof.
  intros Hne. induction l as [|z l IH]; simpl; [done|].
  destruct (String.eqb_spec x z) as [->|Hxz].
  - rewrite elem_of_cons. intuition congruence.
  - rewrite !elem_of_cons, IH. done.
Qed.

Lemma remove_NoDup (x : string) (l : list string) :
  NoDup l → x ∉ remove x l.
Proof.
  induction 1 as [|z l Hz Hnd IH]; simpl; [by intros ?%elem_of_nil|].
  destruct (String.eqb_spec x z) as [->|Hxz]; [done|].
  rewrite elem_of_cons. intuition congruence.
Qed.

Lemma remove_length (x : string) (l : list string) :
  x ∈ l → S (length (remove x l)) = length l.
Proof.
  induction l as [|z l IH]; simpl; [by intros ?%elem_of_nil|].
  destruct (String.eqb_spec x z) as [->|Hxz]; [done|].
  intros [?|Hin]%elem_of_cons; [done|]. simpl. by rewrite IH.
Qed.

End SkillFacts.

(** ** The claims on documents, loading and comparison *)

Section PatternClaims.
Import Patterns.

(** C6: on a fresh loaded list, loading a pattern the store knows (after
    normalisation of the name, its document being readable) reports
    loaded, and loading it again at once reports already loaded and
    leaves the state, so the contents and the size of the loaded list, as
    they were; the nine ids of the repository are their own normal
    form. *)
Theorem C6_load_twice (fs : filesystem) (patterns : Dict.t pattern)
    (pattern_name content : string) (p : pattern) :
  Dict.get (normalize pattern_name) patterns = Some p →
  read_text fs (path p) = Some content →
  let fresh := {| _loaded_patterns := []; _patterns := patterns |} in
  let first := load_pattern fs pattern_name fresh in
  let second := load_pattern fs pattern_name first.2 in
  first.1 = Loaded (title p) (category p) (complexity p)
              (p_body (parse_pattern_frontmatter content))
  ∧ get_loaded_patterns first.2 = [normalize pattern_name]
  ∧ second.1 = AlreadyLoaded (title p)
  ∧ second.2 = first.2
  ∧ get_loaded_patterns second.2 = get_loaded_patterns first.2
  ∧ length (get_loaded_patterns second.2) = length (get_loaded_patterns first.2)
  ∧ Forall (λ id, normalize id = id) expected_names.
Proof.
  intros Hget Hread fresh first second.
  assert (Forall (λ id, normalize id = id) expected_names) as Hnames
    by (repeat (constructor; [reflexivity|]); constructor).
  assert (first = (Loaded (title p) (category p) (complexity p)
                     (p_body (parse_pattern_frontmatter content)),
                   {| _loaded_patterns := [normalize pattern_name];
                      _patterns := patterns |})) as Hfirst.
  { unfold first. rewrite (load_pattern_new fs pattern_name content p fresh);
      [done|done|by intros ?%elem_of_nil|done]. }
  assert (second = (AlreadyLoaded (title p), first.2)) as Hsecond.
  { unfold second. rewrite Hfirst. cbn [snd].
    apply load_pattern_again; [done|]. cbn. left. }
  rewrite Hsecond, Hfirst. by cbn.
Qed.

Lemma C6_witness :
  (load_pattern demo_fs "handoffs" demo_state).1
  = Loaded "Handoffs Pattern" "workflow" "medium"
      (p_body (parse_pattern_frontmatter handoffs_md))
  ∧ (load_pattern demo_fs "handoffs"
       (load_pattern demo_fs "handoffs" demo_state).2).1
    = AlreadyLoaded "Handoffs Pattern".
Proof.
  destruct (C6_load_twice demo_fs demo_patterns "handoffs" handoffs_md
              {| name := "handoffs"; title := "Handoffs Pattern";
                 description := "State-driven transitions between stages";
                 category := "workflow"; complexity := "medium";
                 path := "knowledge/handoffs.md" |}
              eq_refl eq_refl) as (H1 & _ & H2 & _).
  split; [exact H1|exact H2].
Defined.

(** C7, as stated, fails: a list of one id that is unknown does not get
    the error about the number of ids but the one naming the unknown id. *)
Lemma C7_one_unknown_id_not_cardinality :
  length (comparison_names "invalid1") = 1%nat
  ∧ get_pattern_comparison demo_fs "invalid1" demo_state ≠ AtLeastTwo.
Proof. split; [reflexivity|]. by vm_compute. Qed.

(** C7, amended: the ids are the comma-separated fields of the argument,
    stripped, lower-cased and with underscores turned into hyphens, so
    there is always at least one.  If any of them is unknown the result is
    the error naming exactly the unknown ids, in their order, whatever the
    number of ids; otherwise fewer than 2 ids give the "at least 2" error
    and more than 4 the "4 or fewer" error; a comparison is produced only
    for 2 to 4 ids that are all known, with one column per id. *)
Theorem C7_comparison_validation (fs : filesystem) (pattern_names : string)
    (st : state) :
  let names := comparison_names pattern_names in
  let invalid := unknown_ids st names in
  let result := get_pattern_comparison fs pattern_names st in
  (0 < length names)%nat
  ∧ (∀ n, n ∈ invalid ↔ n ∈ names ∧ Dict.get n (_patterns st) = None)
  ∧ (invalid ≠ [] → result = InvalidPatterns invalid (Dict.keys (_patterns st)))
  ∧ (invalid = [] → (length names < 2)%nat → result = AtLeastTwo)
  ∧ (invalid = [] → (4 < length names)%nat → result = AtMostFour)
  ∧ (∀ columns, result = PatternComparison columns →
       invalid = [] ∧ (2 ≤ length names ≤ 4)%nat ∧ map c_name columns = names).
Proof.
  intros names invalid result.
  assert (result =
          match invalid with
          | _ :: _ => InvalidPatterns invalid (Dict.keys (_patterns st))
          | [] =>
              if (length names <? 2)%nat then AtLeastTwo
              else if (4 <? length names)%nat then AtMostFour
              else match compare_columns fs (_patterns st) names with
                   | Some columns => PatternComparison columns
                   | None => CompareRaised
                   end
          end) as Hcases by apply comparison_cases.
  clearbody result. subst result. split_and!.
  - unfold names, comparison_names. rewrite length_map.
    pose proof (split_not_nil "," pattern_names).
    destruct (PyStr.split "," pattern_names); [done|simpl; lia].
  - intros n. unfold invalid, unknown_ids. rewrite list_elem_of_filter.
    unfold Dict.mem. destruct (Dict.get n (_patterns st)); intuition congruence.
  - by destruct invalid.
  - intros -> Hlt. apply Nat.ltb_lt in Hlt. by rewrite Hlt.
  - intros -> Hgt.
    destruct (length names <? 2)%nat eqn:Hlt; [apply Nat.ltb_lt in Hlt; lia|].
    apply Nat.ltb_lt in Hgt. by rewrite Hgt.
  - intros columns. destruct invalid; [|done].
    destruct (length names <? 2)%nat eqn:Hlt; [done|].
    destruct (4 <? length names)%nat eqn:Hgt; [done|].
    apply Nat.ltb_ge in Hlt, Hgt.
    destruct (compare_columns fs (_patterns st) names) as [cols|] eqn:Hcols; [|done].
    intros [= <-]. split_and!; [done|lia|lia|by eapply compare_columns_names].
Qed.

Lemma C7_witness :
  get_pattern_comparison demo_fs "invalid1,invalid2" demo_state
  = InvalidPatterns ["invalid1"; "invalid2"] ["handoffs"; "deep-agents"]
  ∧ get_pattern_comparison demo_fs "handoffs" demo_state = AtLeastTwo
  ∧ get_pattern_comparison demo_fs
      "handoffs,deep_agents,Handoffs, deep-agents ,HANDOFFS" demo_state
    = AtMostFour.
Proof.
  split_and!.
  - destruct (C7_comparison_validation demo_fs "invalid1,invalid2" demo_state)
      as (_ & _ & Hinvalid & _).
    apply Hinvalid. by vm_compute.
  - destruct (C7_comparison_validation demo_fs "handoffs" demo_state)
      as (_ & _ & _ & Hfew & _).
    apply Hfew; [reflexivity|]. vm_compute. lia.
  - destruct (C7_comparison_validation demo_fs
                "handoffs,deep_agents,Handoffs, deep-agents ,HANDOFFS" demo_state)
      as (_ & _ & _ & _ & Hmany & _).
    apply Hmany; [reflexivity|]. vm_compute. lia.
Defined.

(** C8, as stated, fails: a document without a header is not out of
    reach of lookup by identifier; it is filed under the id "unknown", and
    [load_pattern "unknown"] finds and loads it. *)
Lemma C8_malformed_document_found_by_id :
  (st ← module_state broken_fs; Some (load_pattern broken_fs "unknown" st).1)
  = Some (Loaded "Unknown Pattern" "unknown" "unknown" "# Notes without a header").
Proof. vm_compute. reflexivity. Qed.

(** C8, amended: parsing is total, and a content without a well-formed
    header gives the placeholder record with the raw content as body;
    discovery over a missing directory gives the empty map, and over a
    directory whose documents can be read it gives a map; a document
    without a well-formed header is filed under the id "unknown" with the
    placeholder metadata and its own path (unless a later document also
    takes the name "unknown" and replaces it), where it is listed and
    where [load_pattern "unknown"] finds it. *)
Theorem C8_discovery_fails_soft :
  (∀ content, ¬ well_formed_header content →
     parse_pattern_frontmatter content = placeholder content)
  ∧ (∀ fs, dir_exists fs = false → discover_patterns fs = Some [])
  ∧ (∀ fs, (∀ f, f ∈ glob_md fs → is_Some (read_text fs f)) →
       is_Some (discover_patterns fs))
  ∧ (∀ fs before f after content patterns,
       dir_exists fs = true →
       glob_md fs = before ++ f :: after →
       read_text fs f = Some content →
       ¬ well_formed_header content →
       (∀ g c, g ∈ after → read_text fs g = Some c →
               p_name (parse_pattern_frontmatter c) ≠ "unknown") →
       discover_patterns fs = Some patterns →
       Dict.get "unknown" patterns = Some (placeholder_pattern f)
       ∧ "unknown" ∈ Dict.keys patterns
       ∧ ∀ loaded pattern_name available,
           (load_pattern fs "unknown"
              {| _loaded_patterns := loaded; _patterns := patterns |}).1
           ≠ NotFound pattern_name available).
Proof.
  split_and!.
  - apply parse_placeholder.
  - intros fs Hdir. unfold discover_patterns. by rewrite Hdir.
  - intros fs Hread. unfold discover_patterns.
    destruct (negb (dir_exists fs)); [by eexists|].
    by apply discover_fold_total.
  - intros fs before f after content patterns Hdir Hglob Hread Hbad Hafter.
    unfold discover_patterns. rewrite Hdir, Hglob. cbn [negb].
    intros (acc & Hfold)%discover_fold_split.
    rewrite discover_step_Some, Hread, (parse_placeholder content Hbad) in Hfold.
    cbn [placeholder p_name p_title p_description p_category p_complexity] in Hfold.
    assert (Dict.get "unknown" patterns = Some (placeholder_pattern f)) as Hget.
    { rewrite (discover_fold_get _ _ _ _ "unknown" Hfold Hafter).
      apply dict_get_set_eq. }
    split_and!; [done| |].
    + apply dict_get_elem_of in Hget. unfold Dict.keys.
      apply list_elem_of_fmap. by exists ("unknown", placeholder_pattern f).
    + intros loaded pattern_name available. unfold load_pattern.
      change (normalize "unknown") with "unknown". cbn [_patterns]. rewrite Hget.
      destruct (PyStr.mem _ _); [done|]. by destruct (read_text fs _).
Qed.

Lemma C8_witness :
  parse_pattern_frontmatter "# Notes without a header"
  = placeholder "# Notes without a header"
  ∧ Dict.get "unknown" [("unknown", placeholder_pattern "knowledge/broken.md")]
    = Some (placeholder_pattern "knowledge/broken.md").
Proof.
  assert (¬ well_formed_header "# Notes without a header") as Hbad
    by (intros (ws1 & fm & ws2 & body & Heq & _); discriminate Heq).
  split.
  - by apply (proj1 C8_discovery_fails_soft).
  - apply (proj2 (proj2 (proj2 C8_discovery_fails_soft))
             broken_fs [] "knowledge/broken.md" [] "# Notes without a header"
             [("unknown", placeholder_pattern "knowledge/broken.md")]).
    + reflexivity.
    + reflexivity.
    + reflexivity.
    + exact Hbad.
    + intros g c Hg. by apply elem_of_nil in Hg.
    + vm_compute. reflexivity.
Defined.

(** C9, as stated, fails: the pattern selector has no unload; with
    handoffs and deep-agents loaded, no call of its module leaves exactly
    deep-agents loaded. *)
Lemma C9_no_call_unloads_one_pattern :
  ¬ ∃ c, get_loaded_patterns (state_after demo_fs c demo_loaded_state)
         = ["deep-agents"].
Proof.
  intros [c Hc]. destruct c as [|n| | | | |]; try discriminate Hc.
  unfold get_loaded_patterns in Hc. cbn [state_after] in Hc.
  destruct (load_pattern_loaded demo_fs n demo_loaded_state) as [Heq|Heq];
    rewrite Heq in Hc; discriminate Hc.
Qed.

(** C9, amended: the loaded list of the pattern selector has load, query
    and reset only: a loaded id stays loaded through every call of the
    module except the reset, which empties the list.  The unload of the
    repository is [unload_skill] of the skills example; on the normalised
    id it reports not loaded and leaves the state as it is when the id is
    not in the loaded list, and otherwise removes the id from the list,
    keeps every other id, and reports unloaded when the id is a known
    skill. *)
Theorem C9_unload_only_for_skills :
  (∀ fs c st id,
      id ∈ get_loaded_patterns st →
      id ∈ get_loaded_patterns (state_after fs c st)
      ∨ (c = call_reset_loaded_patterns
         ∧ get_loaded_patterns (state_after fs c st) = []))
  ∧ (∀ skill_name st,
      normalize skill_name ∉ Skills._loaded_skills st →
      Skills.unload_skill skill_name st = (Skills.NotCurrentlyLoaded skill_name, st))
  ∧ (∀ skill_name st skill,
      normalize skill_name ∈ Skills._loaded_skills st →
      Dict.get (normalize skill_name) (Skills._skills st) = Some skill →
      let after := (Skills.unload_skill skill_name st).2 in
      (Skills.unload_skill skill_name st).1 = Skills.Unloaded (Skills.name skill)
      ∧ Skills._skills after = Skills._skills st
      ∧ S (length (Skills._loaded_skills after)) = length (Skills._loaded_skills st)
      ∧ (NoDup (Skills._loaded_skills st) →
           normalize skill_name ∉ Skills._loaded_skills after)
      ∧ ∀ other, other ≠ normalize skill_name →
          (other ∈ Skills._loaded_skills after ↔ other ∈ Skills._loaded_skills st)).
Proof.
  split_and!.
  - intros fs c st id Hin. unfold get_loaded_patterns in *.
    destruct c as [|n| | | | |]; cbn [state_after]; try by left.
    + left. destruct (load_pattern_loaded fs n st) as [->| ->]; [done|].
      apply elem_of_app. by left.
    + right. by split.
  - intros skill_name st Hnot. unfold Skills.unload_skill.
    change (PyStr.replace_char " " "-" (PyStr.replace_char "_" "-" (PyStr.lower skill_name)))
      with (normalize skill_name).
    destruct (PyStr.mem _ _) eqn:Hmem; [by apply mem_spec in Hmem|done].
  - intros skill_name st skill Hin Hget after. unfold after, Skills.unload_skill.
    change (PyStr.replace_char " " "-" (PyStr.replace_char "_" "-" (PyStr.lower skill_name)))
      with (normalize skill_name).
    rewrite (proj2 (mem_spec _ _) Hin), Hget. cbn.
    split_and!; [done|done|by apply remove_length|by apply remove_NoDup|].
    intros other Hne. by apply remove_other.
Qed.

Lemma C9_witness :
  ("handoffs" ∈ get_loaded_patterns
                  (state_after demo_fs (call_load_pattern "deep_agents")
                     {| _loaded_patterns := ["handoffs"];
                        _patterns := demo_patterns |})
   ∨ (call_load_pattern "deep_agents" = call_reset_loaded_patterns
      ∧ get_loaded_patterns
          (state_after demo_fs (call_load_pattern "deep_agents")
             {| _loaded_patterns := ["handoffs"];
                _patterns := demo_patterns |}) = []))
  ∧ (Skills.unload_skill "Python Expert" demo_skills).1
    = Skills.Unloaded "Python Expert Skill"
  ∧ Skills.unload_skill "rust_expert" demo_skills
    = (Skills.NotCurrentlyLoaded "rust_expert", demo_skills).
Proof.
  split_and!.
  - apply (proj1 C9_unload_only_for_skills demo_fs (call_load_pattern "deep_agents")
             {| _loaded_patterns := ["handoffs"]; _patterns := demo_patterns |}
             "handoffs").
    apply list_elem_of_here.
  - apply (proj2 (proj2 C9_unload_only_for_skills) "Python Expert" demo_skills
             {| Skills.name := "Python Expert Skill";
                Skills.description := "Idiomatic Python";
                Skills.path := "skills/python-expert/SKILL.md" |});
      [compute_done|reflexivity].
  - apply (proj1 (proj2 C9_unload_only_for_skills)). compute_done.
Defined.

(** C10: [load_pattern] lower-cases the name and turns underscores and
    spaces into hyphens, so "Deep Agents", "deep_agents" and "deep-agents"
    reach the same pattern; [get_pattern_comparison] strips, lower-cases
    and turns underscores into hyphens but leaves inner spaces, so "Deep
    Agents" is reported as the invalid id "deep agents" although
    "deep_agents" is compared. *)
Theorem C10_comparison_keeps_spaces :
  normalize "Sub Agents" = "sub-agents"
  ∧ normalize "sub_agents" = "sub-agents"
  ∧ normalize "sub-agents" = "sub-agents"
  ∧ comparison_names "Sub Agents,sub_agents,sub-agents"
    = ["sub agents"; "sub-agents"; "sub-agents"]
  ∧ (load_pattern demo_fs "Deep Agents" demo_state).1
    = (load_pattern demo_fs "deep_agents" demo_state).1
  ∧ (load_pattern demo_fs "Deep Agents" demo_state).1
    = Loaded "Deep Agents Pattern" "context" "high"
        (p_body (parse_pattern_frontmatter deep_agents_md))
  ∧ get_pattern_comparison demo_fs "Deep Agents,handoffs" demo_state
    = InvalidPatterns ["deep agents"] ["handoffs"; "deep-agents"]
  ∧ map c_name
      (match get_pattern_comparison demo_fs "deep_agents,handoffs" demo_state with
       | PatternComparison columns => columns
       | _ => []
       end)
    = ["deep-agents"; "handoffs"].
Proof. split_and!; vm_compute; reflexivity. Qed.

End PatternClaims.

(** * Further properties of the modules *)

Section SortFacts.
Context {A : Type} (key : A → Z).

Lemma insert_desc_elem_of (x y : A) (l : list A) :
  y ∈ insert_desc key x l ↔ y = x ∨ y ∈ l.
Proof.
  induction l as [|z l IH]; simpl.
  - rewrite list_elem_of_singleton, elem_of_nil. tauto.
  - destruct (key z <? key x); rewrite !elem_of_cons; [tauto|].
    rewrite IH. tauto.
Qed.

Lemma insert_desc_descending (x : A) (l : list A) :
  descending key l → descending key (insert_desc key x l).
Proof.
  unfold descending. induction l as [|z l IH]; simpl; intros Hs.
  - by repeat constructor.
  - apply StronglySorted_inv in Hs as [Hs Hz].
    destruct (key z <? key x) eqn:Hlt.
    + apply Z.ltb_lt in Hlt. constructor; [by constructor|].
      constructor; [lia|]. eapply Forall_impl; [exact Hz|]. intros w Hw. simpl in Hw. lia.
    + apply Z.ltb_ge in Hlt. constructor; [by apply IH|].
      apply Forall_forall. intros w [->|Hw]%insert_desc_elem_of; [done|].
      by apply (proj1 (Forall_forall _ _) Hz).
Qed.

Lemma sorted_desc_descending (l : list A) : descending key (sorted_desc key l).
Proof.
  unfold sorted_desc.
  assert (∀ acc, descending key acc →
                 descending key (foldl (λ acc x, insert_desc key x acc) acc l)) as Hgen.
  { induction l as [|x l IH]; intros acc Hacc; simpl; [done|].
    by apply IH, insert_desc_descending. }
  apply Hgen. constructor.
Qed.

Lemma filter_none {B : Type} (P : B → Prop) `{!∀ x, Decision (P x)} (l : list B) :
  Forall (λ x, ¬ P x) l → filter P l = [].
Proof.
  induction 1 as [|x l Hx _ IH]; [done|]. by rewrite filter_cons_False.
Qed.

Lemma insert_desc_with_key (k : Z) (x : A) (l : list A) :
  descending key l →
  with_key key k (insert_desc key x l)
  = with_key key k l ++ (if decide (key x = k) then [x] else []).
Proof.
  unfold descending, with_key. induction l as [|z l IH]; simpl; intros Hs.
  - rewrite filter_cons, filter_nil. by destruct (decide (key x = k)).
  - apply StronglySorted_inv in Hs as [Hs Hz].
    destruct (key z <? key x) eqn:Hlt.
    + apply Z.ltb_lt in Hlt. rewrite (filter_cons _ x).
      destruct (decide (key x = k)) as [Hk|Hk]; [|by rewrite app_nil_r].
      rewrite (filter_none (λ y, key y = k) (z :: l)); [done|].
      constructor; [lia|]. eapply Forall_impl; [exact Hz|]. intros w Hw. simpl in Hw. lia.
    + rewrite !(filter_cons _ z), (IH Hs).
      by destruct (decide (key z = k)).
Qed.

(** The sort is stable: rows with equal keys keep their order. *)
Lemma sorted_desc_stable (k : Z) (l : list A) :
  with_key key k (sorted_desc key l) = with_key key k l.
Proof.
  unfold sorted_desc.
  assert (∀ acc, descending key acc →
                 with_key key k (foldl (λ acc x, insert_desc key x acc) acc l)
                 = with_key key k acc ++ with_key key k l) as Hgen.
  { induction l as [|x l IH]; intros acc Hacc; simpl.
    - unfold with_key. by rewrite filter_nil, app_nil_r.
    - rewrite IH by (by apply insert_desc_descending).
      rewrite insert_desc_with_key by done. unfold with_key at 4.
      rewrite filter_cons, <- app_assoc. by destruct (decide (key x = k)). }
  rewrite Hgen by constructor. done.
Qed.

(** The first row of a descending list has the largest key. *)
Lemma descending_head (l : list A) (x y : A) :
  descending key l → head l = Some x → y ∈ l → key y ≤ key x.
Proof.
  destruct l as [|z l]; [done|]. intros [_ Hz]%StronglySorted_inv [= ->].
  intros [->|Hy]%elem_of_cons; [lia|]. by apply (proj1 (Forall_forall _ _) Hz).
Qed.

End SortFacts.

Section RankingFacts.
Import Decision.

Lemma evaluate_ranked (requirements : string) :
  evaluate_requirements requirements ≠ CouldNotDetect →
  ranked_rows (evaluate_requirements requirements)
  = sorted_desc (λ x, score x.2) (pattern_scores (detected_capabilities requirements))
  ∧ top_recommendation (evaluate_requirements requirements)
    = fst <$> head (ranked_rows (evaluate_requirements requirements)).
Proof.
  unfold evaluate_requirements, detected_capabilities.
  destruct (decide _); [done|]. intros _. by cbn [ranked_rows top_recommendation].
Qed.

Lemma pattern_scores_keys (detected : gset string) :
  (pattern_scores detected).*1 = Dict.keys PATTERN_CAPABILITIES.
Proof.
  rewrite pattern_scores_map. unfold Dict.keys.
  generalize PATTERN_CAPABILITIES. intros l.
  induction l as [|[k v] l IH]; csimpl; [done|]. by rewrite IH.
Qed.

Lemma pattern_names_NoDup : NoDup (Dict.keys PATTERN_CAPABILITIES).
Proof. compute_done. Qed.

Lemma ranking_head (requirements : string) :
  evaluate_requirements requirements ≠ CouldNotDetect →
  ∃ top f,
    top_recommendation (evaluate_requirements requirements) = Some top
    ∧ head (ranked_rows (evaluate_requirements requirements)) = Some (top, f)
    ∧ ∀ pattern_name g,
        (pattern_name, g) ∈ ranked_rows (evaluate_requirements requirements) →
        score g ≤ score f.
Proof.
  intros Hne. destruct (evaluate_ranked requirements Hne) as [Hrows Htop].
  revert Hrows Htop. generalize (ranked_rows (evaluate_requirements requirements)).
  intros rows Hrows Htop.
  assert (descending (λ x : string * fit, score x.2) rows) as Hdesc
    by (rewrite Hrows; apply sorted_desc_descending).
  destruct rows as [|[top f] rows'].
  { pose proof (sorted_desc_perm (λ x : string * fit, score x.2)
                  (pattern_scores (detected_capabilities requirements))) as Hperm.
    rewrite <- Hrows in Hperm. apply Permutation_length in Hperm.
    rewrite pattern_scores_map, length_map in Hperm. discriminate Hperm. }
  exists top, f. split_and!; [exact Htop|reflexivity|].
  intros pattern_name g Hin.
  by apply (descending_head (λ x : string * fit, score x.2) _ (top, f) (pattern_name, g) Hdesc).
Qed.

(** X1: when [evaluate_requirements] detects something, its ranking lists
    each of the nine patterns of the matrix exactly once, no row has a
    larger score than a row before it, and the recommended pattern is the
    first row, whose score no other row exceeds. *)
Theorem ranking_descending_and_complete (requirements : string) :
  evaluate_requirements requirements ≠ CouldNotDetect →
  let rows := ranked_rows (evaluate_requirements requirements) in
  descending (λ x, score x.2) rows
  ∧ rows.*1 ≡ₚ Dict.keys PATTERN_CAPABILITIES
  ∧ NoDup rows.*1
  ∧ ∃ top f,
      top_recommendation (evaluate_requirements requirements) = Some top
      ∧ head rows = Some (top, f)
      ∧ ∀ pattern_name g, (pattern_name, g) ∈ rows → score g ≤ score f.
Proof.
  intros Hne rows. destruct (evaluate_ranked requirements Hne) as [Hrows _].
  fold rows in Hrows.
  assert (rows.*1 ≡ₚ Dict.keys PATTERN_CAPABILITIES) as Hperm.
  { rewrite Hrows, sorted_desc_perm. by rewrite pattern_scores_keys. }
  split_and!.
  - rewrite Hrows. apply sorted_desc_descending.
  - exact Hperm.
  - rewrite Hperm. apply pattern_names_NoDup.
  - apply (ranking_head requirements Hne).
Qed.

Lemma ranking_descending_and_complete_witness :
  descending (λ x, score x.2)
    (ranked_rows (evaluate_requirements "Parallel workflow with compliance")).
Proof.
  apply (ranking_descending_and_complete "Parallel workflow with compliance").
  by vm_compute.
Defined.

(** X2: the sort of the ranking is stable: the rows that share a score
    stand in the ranking in the order the patterns have in
    [PATTERN_CAPABILITIES]. *)
Theorem ranking_ties_keep_matrix_order (requirements : string) (k : Z) :
  evaluate_requirements requirements ≠ CouldNotDetect →
  with_key (λ x, score x.2) k (ranked_rows (evaluate_requirements requirements))
  = with_key (λ x, score x.2) k
      (pattern_scores (detected_capabilities requirements)).
Proof.
  intros Hne. destruct (evaluate_ranked requirements Hne) as [-> _].
  apply sorted_desc_stable.
Qed.

Lemma ranking_ties_keep_matrix_order_witness :
  (with_key (λ x, score x.2) 5
     (ranked_rows (evaluate_requirements "Need parallel execution and result synthesis"))).*1
  = ["subagents"; "router"].
Proof.
  rewrite (ranking_ties_keep_matrix_order
             "Need parallel execution and result synthesis" 5) by (by vm_compute).
  vm_compute. reflexivity.
Defined.

End RankingFacts.

Section MatchedFacts.
Import Decision.








Lemma capability_sum_elem_of (capabilities : Dict.t Z) (caps : list string) (cap : string) :
  row_in_range capabilities → cap ∈ caps →
  default 0 (Dict.get cap capabilities) ≤ capability_sum capabilities caps.
Proof.
  intros Hrow. induction caps as [|c caps IH]; simpl; [by intros ?%elem_of_nil|].
  pose proof (row_value_range capabilities c Hrow).
  pose proof (capability_sum_range capabilities caps Hrow).
  intros [->|Hin]%elem_of_cons; [lia|]. specialize (IH Hin). lia.
Qed.

(** Every capability of the keyword table is rated 5 by some pattern. *)
Lemma mapped_capability_rated (kw cap : string) :
  (kw, cap) ∈ REQUIREMENT_MAPPINGS →
  ∃ pattern_name capabilities,
    Dict.get pattern_name PATTERN_CAPABILITIES = Some capabilities
    ∧ Dict.get cap capabilities = Some 5.
Proof.
  intros Hin.
  assert (Forall (λ kc, Exists (λ pr, Dict.get pr.1 PATTERN_CAPABILITIES = Some pr.2
                                      ∧ Dict.get kc.2 pr.2 = Some 5)
                          PATTERN_CAPABILITIES) REQUIREMENT_MAPPINGS) as Hall
    by compute_done.
  pose proof (proj1 (Forall_forall _ _) Hall _ Hin) as Hex.
  apply Exists_exists in Hex as ([p row] & _ & Hp & Hcap). by exists p, row.
Qed.

Lemma dict_get_iff_elem_of {V : Type} (k : string) (v : V) (d : Dict.t V) :
  NoDup (Dict.keys d) → (k, v) ∈ d ↔ Dict.get k d = Some v.
Proof.
  intros Hnd. split; [|apply dict_get_elem_of].
  induction d as [|[k' v'] d IH]; simpl; [by intros ?%elem_of_nil|].
  apply NoDup_cons in Hnd as [Hk' Hnd].
  intros [[= -> ->]|Hin]%elem_of_cons; [by rewrite String.eqb_refl|].
  destruct (String.eqb_spec k k') as [->|_]; [|by apply IH].
  destruct Hk'. apply list_elem_of_fmap. by exists (k', v).
Qed.

Lemma ranked_row_spec (requirements pattern_name : string) (f : fit) :
  evaluate_requirements requirements ≠ CouldNotDetect →
  (pattern_name, f) ∈ ranked_rows (evaluate_requirements requirements)
  ↔ fit_of requirements pattern_name = Some f.
Proof.
  intros Hne. destruct (evaluate_ranked requirements Hne) as [-> _].
  rewrite sorted_desc_perm. unfold fit_of. apply dict_get_iff_elem_of.
  unfold Dict.keys. change (map fst ?l) with (l.*1).
  rewrite pattern_scores_keys. apply pattern_names_NoDup.
Qed.

Lemma some_pattern_scores_five (d : gset string) (kw cap : string) :
  (kw, cap) ∈ REQUIREMENT_MAPPINGS → cap ∈ d →
  ∃ pattern_name capabilities,
    Dict.get pattern_name PATTERN_CAPABILITIES = Some capabilities
    ∧ 5 ≤ score (score_pattern d capabilities).
Proof.
  intros Hkw Hcap.
  destruct (mapped_capability_rated kw cap Hkw) as (p & row & Hp & Hfive).
  exists p, row. split; [exact Hp|].
  rewrite score_pattern_score.
  apply dict_get_elem_of, matrix_in_range in Hp.
  apply elem_of_elements in Hcap.
  pose proof (capability_sum_elem_of row (elements d) cap Hp Hcap) as Hcs.
  rewrite Hfive in Hcs. exact Hcs.
Qed.

Lemma fit_of_known (requirements pattern_name : string) (capabilities : Dict.t Z) :
  Dict.get pattern_name PATTERN_CAPABILITIES = Some capabilities →
  fit_of requirements pattern_name
  = Some (score_pattern (detected_capabilities requirements) capabilities).
Proof.
  intros Hp. unfold fit_of. rewrite pattern_scores_map, dict_get_map, Hp.
  reflexivity.
Qed.

Lemma fit_max_possible (requirements pattern_name : string) (f : fit) :
  fit_of requirements pattern_name = Some f →
  score f ≤ max_possible f
  ∧ max_possible f = 5 * Z.of_nat (size (detected_capabilities requirements)).
Proof.
  intros (row & Hrow & ->)%fit_of_spec.
  apply dict_get_elem_of, matrix_in_range in Hrow.
  generalize (detected_capabilities requirements). intros d.
  rewrite score_pattern_score, score_pattern_max.
  pose proof (capability_sum_range row (elements d) Hrow) as Hr.
  change (size d) with (length (elements d)). split; [lia|done].
Qed.

Lemma detected_spec (requirements cap : string) :
  cap ∈ detected_capabilities requirements
  ↔ ∃ kw, (kw, cap) ∈ REQUIREMENT_MAPPINGS
          ∧ PyStr.contains kw (PyStr.lower requirements) = true.
Proof. unfold detected_capabilities. apply detect_spec. Qed.

Lemma analysis_detected (requirements : string) :
  evaluate_requirements requirements ≠ CouldNotDetect →
  ∃ kw cap, (kw, cap) ∈ REQUIREMENT_MAPPINGS ∧ cap ∈ detected_capabilities requirements.
Proof.
  intros Hne.
  assert (detected_capabilities requirements ≠ ∅) as Hd.
  { intros He. apply Hne, evaluate_sentinel, He. }
  revert Hd. generalize (detected_spec requirements).
  generalize (detected_capabilities requirements). intros d Hspec Hd.
  apply set_choose_L in Hd as [cap Hcap].
  pose proof Hcap as (kw & Hkw & _)%Hspec.
  exists kw, cap. split; [exact Hkw|exact Hcap].
Qed.

(** X4: every capability of the keyword table is rated 5 by some pattern,
    so whenever something is detected the first row of the ranking scores
    at least 5, and never more than the maximum it is printed against. *)
Theorem top_score_at_least_five (requirements : string) :
  evaluate_requirements requirements ≠ CouldNotDetect →
  ∃ top f,
    head (ranked_rows (evaluate_requirements requirements)) = Some (top, f)
    ∧ 5 ≤ score f
    ∧ score f ≤ max_possible f.
Proof.
  intros Hne.
  destruct (ranking_head requirements Hne) as (top & f & _ & Hhead & Hmax).
  exists top, f. split; [exact Hhead|].
  destruct (analysis_detected requirements Hne) as (kw & cap & Hkw & Hcap).
  destruct (some_pattern_scores_five _ kw cap Hkw Hcap) as (p & row & Hp & Hfive).
  pose proof (fit_of_known requirements p row Hp) as Hfit.
  apply (ranked_row_spec _ _ _ Hne), Hmax in Hfit.
  apply head_Some_elem_of, (ranked_row_spec _ _ _ Hne), fit_max_possible in Hhead.
  lia.
Qed.

Lemma top_score_at_least_five_witness :
  ∃ top f,
    head (ranked_rows (evaluate_requirements "audit trail")) = Some (top, f)
    ∧ 5 ≤ score f ∧ score f ≤ max_possible f.
Proof. apply top_score_at_least_five. by vm_compute. Defined.

End MatchedFacts.

Section AlternativeFacts.
Import Decision.






End AlternativeFacts.

Section UseCaseFacts.
Import Decision.

Lemma match_count_length (kws : list string) (s : string) :
  match_count kws s = Z.of_nat (length (matched_keywords kws s)).
Proof.
  unfold match_count, matched_keywords.
  assert (∀ n, foldl (λ n kw, if PyStr.contains kw s then n + 1 else n) n kws
               = n + Z.of_nat (length (filter (λ kw, Is_true (PyStr.contains kw s)) kws)))
    as Hgen; [|by rewrite Hgen].
  induction kws as [|kw kws IH]; intros n; [simpl; lia|].
  cbn [foldl]. rewrite IH, filter_cons. destruct (PyStr.contains kw s).
  - rewrite decide_True by done. cbn [length]. lia.
  - rewrite decide_False by (by intros []). done.
Qed.

Lemma dict_set_fresh {V : Type} (k : string) (v : V) (d : Dict.t V) :
  k ∉ Dict.keys d → Dict.set k v d = d ++ [(k, v)].
Proof.
  induction d as [|[k' v'] d IH]; simpl; [done|].
  intros Hk. apply not_elem_of_cons in Hk as [Hne Hk].
  destruct (String.eqb_spec k k') as [->|_]; [done|]. by rewrite IH.
Qed.

Lemma use_case_matches_hits_gen (l : Dict.t (list string)) (s : string) (acc : Dict.t Z) :
  NoDup (Dict.keys acc ++ Dict.keys l) →
  foldl (λ matches '(pattern, keywords),
           let count := match_count keywords s in
           if 0 <? count then Dict.set pattern count matches else matches)
        acc l
  = acc ++ filter (λ pc, 0 < pc.2)
             (map (λ pk, (pk.1, Z.of_nat (length (matched_keywords pk.2 s)))) l).
Proof.
  revert acc. induction l as [|[p kws] l IH]; intros acc Hnd; simpl.
  - by rewrite filter_nil, app_nil_r.
  - rewrite filter_cons. cbn [fst snd]. rewrite match_count_length.
    destruct (0 <? Z.of_nat (length (matched_keywords kws s))) eqn:Hc.
    + apply Z.ltb_lt in Hc. rewrite decide_True by done.
      apply NoDup_app in Hnd as (Hacc & Hdisj & Hl).
      apply NoDup_cons in Hl as [Hp Hl].
      rewrite IH.
      * rewrite dict_set_fresh, <- app_assoc; [done|].
        intros Hin. apply (Hdisj p Hin). left.
      * rewrite dict_set_fresh by (intros Hin; apply (Hdisj p Hin); left).
        unfold Dict.keys in *. rewrite map_app. simpl.
        apply NoDup_app. split_and!; [|  |done].
        -- apply NoDup_app. split_and!; [done| |apply NoDup_singleton].
           intros x Hx ->%list_elem_of_singleton. apply (Hdisj p Hx). left.
        -- intros x [Hx| ->%list_elem_of_singleton]%elem_of_app; [|done].
           intros Hxl. apply (Hdisj x Hx). by right.
    + apply Z.ltb_ge in Hc. rewrite decide_False by lia.
      apply IH. apply NoDup_app in Hnd as (Hacc & Hdisj & Hl).
      apply NoDup_cons in Hl as [Hp Hl]. apply NoDup_app. split_and!; [done| |done].
      intros x Hx Hxl. apply (Hdisj x Hx). by right.
Qed.

Lemma indicator_names_NoDup : NoDup (Dict.keys indicators).
Proof. compute_done. Qed.

Lemma use_case_matches_hits (s : string) : use_case_matches s = indicator_hits s.
Proof.
  unfold use_case_matches, indicator_hits.
  rewrite use_case_matches_hits_gen; [done|]. apply indicator_names_NoDup.
Qed.

Lemma indicator_hits_spec (s p : string) (c : Z) :
  (p, c) ∈ indicator_hits s
  ↔ ∃ kws, Dict.get p indicators = Some kws
           ∧ c = Z.of_nat (length (matched_keywords kws s)) ∧ 0 < c.
Proof.
  unfold indicator_hits. rewrite list_elem_of_filter, list_elem_of_fmap. cbn [snd]. split.
  - intros [Hc ([p' kws] & [= -> ->] & Hin)]. exists kws.
    split_and!; [|done|done].
    by apply (dict_get_iff_elem_of _ _ _ indicator_names_NoDup).
  - intros (kws & Hget & -> & Hc). split; [done|]. exists (p, kws). split; [done|].
    by apply dict_get_elem_of.
Qed.

Lemma indicator_hits_NoDup (s : string) : NoDup (indicator_hits s).*1.
Proof.
  unfold indicator_hits.
  assert (∀ l : Dict.t (list string), NoDup (Dict.keys l) →
            NoDup (filter (λ pc : string * Z, 0 < pc.2)
                     (map (λ pk, (pk.1, Z.of_nat (length (matched_keywords pk.2 s)))) l)).*1)
    as Hgen; [|apply Hgen, indicator_names_NoDup].
  induction l as [|[p kws] l IH]; simpl; [constructor|].
  intros [Hp Hl]%NoDup_cons. rewrite filter_cons. cbn [snd fst].
  destruct (decide _); [|by apply IH]. csimpl. apply NoDup_cons. split; [|by apply IH].
  intros ([p' c] & -> & [_ ([p'' kws'] & [= -> ->] & Hin)%list_elem_of_fmap]%list_elem_of_filter)%list_elem_of_fmap.
  apply Hp. apply list_elem_of_fmap. by exists (p'', kws').
Qed.

Lemma analyze_rows (use_case : string) :
  use_case_rows (analyze_use_case use_case)
  = map (λ '(pattern, count),
           {| uc_pattern := pattern;
              uc_count := count;
              uc_matched :=
                take 5 (matched_keywords (default [] (Dict.get pattern indicators))
                          (PyStr.lower use_case)) |})
        (sorted_desc snd (indicator_hits (PyStr.lower use_case)))
  ∧ use_case_top (analyze_use_case use_case)
    = uc_pattern <$> head (use_case_rows (analyze_use_case use_case))
  ∧ use_case_alt (analyze_use_case use_case)
    = uc_pattern <$> use_case_rows (analyze_use_case use_case) !! 1%nat.
Proof.
  unfold analyze_use_case. rewrite use_case_matches_hits.
  generalize (PyStr.lower use_case). intros s.
  destruct (indicator_hits s) as [|h hits] eqn:Hh; [done|].
  cbn [use_case_rows use_case_top use_case_alt].
  split; [done|].
  destruct (sorted_desc snd (h :: hits)) as [|[p1 c1] [|[p2 c2] rest]]; done.
Qed.

Lemma descending_map {A B : Type} (key1 : A → Z) (key2 : B → Z) (f : A → B)
    (l : list A) :
  (∀ x, key2 (f x) = key1 x) → descending key1 l → descending key2 (map f l).
Proof.
  intros Hkey. unfold descending. induction 1 as [|x l Hs IH Hx]; simpl; constructor; [done|].
  apply Forall_map. eapply Forall_impl; [exact Hx|]. intros y Hy. simpl. by rewrite !Hkey.
Qed.

(** One printed row, from an entry of the sorted [matches]. *)
Lemma row_of_entry (s : string) (sorted : list (string * Z)) (row : use_case_row) :
  row ∈ map (λ '(pattern, count),
               {| uc_pattern := pattern; uc_count := count;
                  uc_matched :=
                    take 5 (matched_keywords (default [] (Dict.get pattern indicators)) s) |})
            sorted
  ↔ (uc_pattern row, uc_count row) ∈ sorted
    ∧ uc_matched row
      = take 5 (matched_keywords (default [] (Dict.get (uc_pattern row) indicators)) s).
Proof.
  rewrite list_elem_of_fmap. split.
  - intros ([p c] & -> & Hin). done.
  - intros [Hin Hm]. exists (uc_pattern row, uc_count row). split; [|done].
    destruct row as [p c m]. simpl in *. by rewrite Hm.
Qed.

Lemma row_patterns (s : string) (sorted : list (string * Z)) :
  uc_pattern <$>
    map (λ '(pattern, count),
           {| uc_pattern := pattern; uc_count := count;
              uc_matched :=
                take 5 (matched_keywords (default [] (Dict.get pattern indicators)) s) |})
        sorted
  = sorted.*1.
Proof. induction sorted as [|[p c] l IH]; csimpl; [done|]. by rewrite <- IH. Qed.

Lemma use_case_rows_descending (use_case : string) :
  descending uc_count (use_case_rows (analyze_use_case use_case)).
Proof.
  destruct (analyze_rows use_case) as (-> & _ & _).
  apply (descending_map snd); [by intros []|]. apply sorted_desc_descending.
Qed.

(** X6: [analyze_use_case] prints one row for each pattern that has at
    least one indicator in the lower-cased text and for no other: the rows
    name distinct patterns, the count of a row is the number of its
    indicators found and is at least 1, the keywords shown are the first
    five of them in the order of the table, and no row has a larger count
    than a row before it. *)
Theorem use_case_rows_count_indicators (use_case : string) :
  let rows := use_case_rows (analyze_use_case use_case) in
  let found kws := matched_keywords kws (PyStr.lower use_case) in
  descending uc_count rows
  ∧ NoDup (uc_pattern <$> rows)
  ∧ (∀ row, row ∈ rows →
       ∃ kws, Dict.get (uc_pattern row) indicators = Some kws
              ∧ uc_count row = Z.of_nat (length (found kws))
              ∧ 1 ≤ uc_count row
              ∧ uc_matched row = take 5 (found kws))
  ∧ (∀ pattern kws kw,
       Dict.get pattern indicators = Some kws →
       kw ∈ kws → PyStr.contains kw (PyStr.lower use_case) = true →
       pattern ∈ uc_pattern <$> rows).
Proof.
  intros rows found. destruct (analyze_rows use_case) as (Hrows & _ & _).
  fold rows in Hrows. unfold found. clear found.
  revert Hrows. generalize (PyStr.lower use_case). generalize rows. clear rows.
  intros rows s Hrows.
  pose proof (sorted_desc_perm snd (indicator_hits s)) as Hperm.
  pose proof (sorted_desc_descending snd (indicator_hits s)) as Hdesc.
  revert Hrows Hperm Hdesc. generalize (sorted_desc snd (indicator_hits s)).
  intros sorted -> Hperm Hdesc. split_and!.
  - apply (descending_map snd); [by intros []|done].
  - rewrite row_patterns, Hperm. apply indicator_hits_NoDup.
  - intros row [Hin Hm]%row_of_entry. rewrite Hperm in Hin.
    apply indicator_hits_spec in Hin as (kws & Hget & Hc & Hpos).
    exists kws. rewrite Hget in Hm. split_and!; [done|done|lia|done].
  - intros pattern kws kw Hget Hkw Hc. rewrite row_patterns, Hperm.
    apply list_elem_of_fmap.
    exists (pattern, Z.of_nat (length (matched_keywords kws s))). split; [done|].
    apply indicator_hits_spec. exists kws. split_and!; [done|done|].
    assert (kw ∈ matched_keywords kws s) as Hin.
    { apply list_elem_of_filter. split; [by rewrite Hc|done]. }
    destruct (matched_keywords kws s); [by apply elem_of_nil in Hin|simpl; lia].
Qed.

(** X7: when [analyze_use_case] finds a match, the suggested starting point
    is the pattern of the first row, whose count no row exceeds; the pattern
    to consider also is the second row when there is one; and patterns with
    equal counts keep the order of the indicator table. *)
Theorem use_case_suggestion_is_first_best (use_case : string) :
  analyze_use_case use_case ≠ NoClearMatch →
  let rows := use_case_rows (analyze_use_case use_case) in
  (∃ first, head rows = Some first
            ∧ use_case_top (analyze_use_case use_case) = Some (uc_pattern first)
            ∧ ∀ row, row ∈ rows → uc_count row ≤ uc_count first)
  ∧ use_case_alt (analyze_use_case use_case) = uc_pattern <$> rows !! 1%nat
  ∧ ∀ k, (λ row, (uc_pattern row, uc_count row)) <$> with_key uc_count k rows
         = with_key snd k (indicator_hits (PyStr.lower use_case)).
Proof.
  intros Hne rows. destruct (analyze_rows use_case) as (Hrows & Htop & Halt).
  fold rows in Hrows, Htop, Halt.
  pose proof (use_case_rows_descending use_case) as Hdesc.
  fold rows in Hdesc. split_and!.
  - destruct rows as [|first rows'] eqn:Hr.
    + destruct Hne. apply analyze_sentinel. rewrite use_case_matches_hits.
      symmetry in Hrows. apply fmap_nil_inv in Hrows.
      apply Permutation_nil_r. rewrite <- Hrows. symmetry. apply sorted_desc_perm.
    + exists first. split_and!; [done|done|].
      intros row Hrow. by apply (descending_head uc_count _ first row Hdesc).
  - exact Halt.
  - intros k. rewrite Hrows, <- (sorted_desc_stable snd k).
    generalize (sorted_desc snd (indicator_hits (PyStr.lower use_case))).
    intros l. unfold with_key. induction l as [|[p c] l IH]; [done|].
    cbn [map]. rewrite !filter_cons. cbn [uc_count snd].
    destruct (decide (c = k)); [|done]. csimpl. by rewrite <- IH.
Qed.

Lemma use_case_suggestion_is_first_best_witness :
  use_case_top (analyze_use_case "A FAQ search that can classify each query")
  = Some "router".
Proof.
  destruct (use_case_suggestion_is_first_best
              "A FAQ search that can classify each query")
    as ((first & Hhead & Htop & _) & _); [by vm_compute|].
  rewrite Htop. f_equal. vm_compute in Hhead. by injection Hhead as <-.
Defined.

End UseCaseFacts.

Section MatcherFacts.
Import Patterns.

Lemma all_space_app (a b : string) :
  all_space (a +:+ b) = all_space a && all_space b.
Proof. induction a as [|c a IH]; simpl; [done|]. by rewrite IH, andb_assoc. Qed.

Lemma space_newline_complete (ws r : string) :
  all_space ws = true → r ∈ space_newline (ws +:+ String newline r).
Proof.
  induction ws as [|c ws IH]; simpl.
  - intros _. apply elem_of_app. right. left.
  - intros [-> Hws]%andb_true_iff. apply elem_of_app. left. by apply IH.
Qed.

Lemma closing_fence_complete (ws body : string) :
  all_space ws = true →
  is_Some (closing_fence (String newline ("---" +:+ ws +:+ String newline body))).
Proof.
  intros Hws. unfold closing_fence. simpl.
  pose proof (space_newline_complete ws body Hws) as Hin.
  destruct (space_newline (ws +:+ String newline body)); [by apply elem_of_nil in Hin|].
  by eexists.
Qed.

Lemma lazy_header_complete (g ws body : string) :
  all_space ws = true →
  is_Some (lazy_header (g +:+ String newline ("---" +:+ ws +:+ String newline body))).
Proof.
  intros Hws. induction g as [|c g IH].
  - destruct (closing_fence_complete ws body Hws) as [b Hb].
    change ("" +:+ ?s) with s. cbn [lazy_header]. rewrite Hb. by eexists.
  - change (String c g +:+ ?s) with (String c (g +:+ s)). cbn [lazy_header].
    destruct (closing_fence _); [by eexists|].
    destruct IH as [[g' b'] ->]. by eexists.
Qed.

Lemma first_match_complete {A B : Type} (f : A → option B) (l : list A) (x : A) :
  x ∈ l → is_Some (f x) → is_Some (first_match f l).
Proof.
  induction l as [|y l IH]; simpl; [by intros ?%elem_of_nil|].
  intros [->|Hin]%elem_of_cons Hx.
  - destruct Hx as [b ->]. by eexists.
  - destruct (f y); [by eexists|]. by apply IH.
Qed.

(** X8: the front-matter pattern matches a content exactly when the
    content is a line of three hyphens and white space, a front matter, a
    line of three hyphens and white space, and a body: the backtracking
    search misses no such split and accepts nothing else. *)
Theorem frontmatter_match_iff_well_formed (content : string) :
  is_Some (frontmatter_match content) ↔ well_formed_header content.
Proof.
  split.
  - intros [[fm body] Hm]. apply frontmatter_match_sound in Hm as (ws1 & ws2 & ? & ? & ?).
    by exists ws1, fm, ws2, body.
  - intros (ws1 & fm & ws2 & body & -> & Hws1 & Hws2).
    unfold frontmatter_match, header_of. simpl.
    apply (first_match_complete _ _
             (fm +:+ String newline ("---" +:+ ws2 +:+ String newline body))).
    + by apply space_newline_complete.
    + by apply lazy_header_complete.
Qed.

Lemma lazy_header_first (s g body : string) :
  lazy_header s = Some (g, body) →
  s = g +:+ PyStr.drop (String.length g) s
  ∧ closing_fence (PyStr.drop (String.length g) s) = Some body
  ∧ ∀ n, (n < String.length g)%nat → closing_fence (PyStr.drop n s) = None.
Proof.
  revert g. induction s as [|c s IH]; intros g.
  - intros Hl. discriminate Hl.
  - cbn [lazy_header]. destruct (closing_fence (String c s)) as [b|] eqn:Hcf.
    + intros [= <- <-]. split_and!; [done|done|]. intros n Hn. simpl in Hn. lia.
    + destruct (lazy_header s) as [[g' b']|] eqn:Hl; [|done].
      intros [= <- <-]. destruct (IH g' eq_refl) as (Hs & Hfence & Hnone).
      split_and!; [by simpl; rewrite <- Hs|done|].
      intros [|n] Hn; [done|]. simpl in Hn. apply Hnone. lia.
Qed.

(** X9: the lazy group of the front-matter pattern ends at the first
    closing fence: when a content matches, no closing fence starts inside
    the front matter taken, and the body is what follows the fence right
    after it, so a later line of three hyphens stays in the body. *)
Theorem front_matter_ends_at_first_fence (content fm body : string) :
  frontmatter_match content = Some (fm, body) →
  ∃ ws1 rest,
    content = "---" +:+ ws1 +:+ String newline (fm +:+ rest)
    ∧ all_space ws1 = true
    ∧ closing_fence rest = Some body
    ∧ ∀ n, (n < String.length fm)%nat → closing_fence (PyStr.drop n (fm +:+ rest)) = None.
Proof.
  unfold frontmatter_match.
  destruct (PyStr.after_prefix "---" content) as [r|] eqn:Hp; [|done].
  apply after_prefix_spec in Hp as ->. simpl.
  intros (r' & Hin & Hlazy)%first_match_sound.
  apply space_newline_sound in Hin as (ws1 & -> & Hws1).
  apply lazy_header_first in Hlazy as (Hr & Hfence & Hnone).
  exists ws1, (PyStr.drop (String.length fm) r').
  split_and!; [by rewrite <- Hr|done|done|].
  intros n Hn. rewrite <- Hr. by apply Hnone.
Qed.

Lemma front_matter_ends_at_first_fence_witness :
  ∃ ws1 rest,
    handoffs_md = "---" +:+ ws1 +:+ String newline
                    (lines [ "name: handoffs"; "title: Handoffs Pattern";
                             "description: State-driven transitions between stages";
                             "category: workflow"; "complexity: medium" ] +:+ rest)
    ∧ all_space ws1 = true.
Proof.
  destruct (front_matter_ends_at_first_fence handoffs_md
              (lines [ "name: handoffs"; "title: Handoffs Pattern";
                       "description: State-driven transitions between stages";
                       "category: workflow"; "complexity: medium" ])
              (lines [ "# Handoffs"; ""; "## When to Use"; "- Sequential stages"; "";
                       "## When NOT to Use"; "- Parallel work"; "";
                       "## Code Reference"; "examples/handoffs_customer_support.py"; "" ]))
    as (ws1 & rest & Hc & Hws & _); [vm_compute; reflexivity|].
  exists ws1, rest. split; [exact Hc|exact Hws].
Defined.

End MatcherFacts.

Section ParseFacts.
Import Patterns.

Lemma fence_not_straddling (a b : string) :
  a ≠ "" →
  PyStr.startswith (String newline "---") a = false →
  PyStr.startswith (String newline "---") (a +:+ String newline b) = false.
Proof.
  destruct a as [|c1 [|c2 [|c3 [|c4 a]]]]; [done|..]; intros _;
    cbn [PyStr.startswith String.append];
    change (Ascii.eqb "-" newline) with false;
    repeat (match goal with
            | |- context [Ascii.eqb ?x ?y] => is_var y; destruct (Ascii.eqb x y)
            end; try done).
Qed.

Lemma closing_fence_startswith (s : string) :
  PyStr.startswith (String newline "---") s = false → closing_fence s = None.
Proof.
  intros Hs. unfold closing_fence.
  destruct (PyStr.after_prefix (String newline "---") s) as [r|] eqn:Hp; [|done].
  assert (PyStr.startswith (String newline "---") s = true) as Ht
    by (apply startswith_after_prefix; by eexists).
  congruence.
Qed.

Lemma no_fence_inside (fm rest : string) :
  PyStr.contains (String newline "---") fm = false →
  ∀ n, (n < String.length fm)%nat →
       closing_fence (PyStr.drop n (fm +:+ String newline rest)) = None.
Proof.
  induction fm as [|c fm IH]; intros Hc n Hn; [simpl in Hn; lia|].
  cbn [PyStr.contains] in Hc.
  destruct (PyStr.startswith (String newline "---") (String c fm)) eqn:Hs; [done|].
  destruct n as [|n].
  - apply closing_fence_startswith. by apply fence_not_straddling.
  - change (PyStr.drop (S n) (String c fm +:+ ?s)) with (PyStr.drop n (fm +:+ s)).
    apply IH; [done|]. simpl in Hn. lia.
Qed.

Lemma lazy_header_exact (g fence body : string) :
  closing_fence fence = Some body →
  (∀ n, (n < String.length g)%nat → closing_fence (PyStr.drop n (g +:+ fence)) = None) →
  lazy_header (g +:+ fence) = Some (g, body).
Proof.
  intros Hf. induction g as [|c g IH]; intros Hnone.
  - change ("" +:+ fence) with fence.
    destruct fence as [|c fence]; [discriminate Hf|]. cbn [lazy_header]. by rewrite Hf.
  - change (String c g +:+ fence) with (String c (g +:+ fence)). cbn [lazy_header].
    pose proof (Hnone 0%nat ltac:(simpl; lia)) as H0.
    change (PyStr.drop 0 (String c g +:+ fence)) with (String c (g +:+ fence)) in H0.
    rewrite H0, IH; [done|].
    intros n Hn. apply (Hnone (S n)). simpl. lia.
Qed.

Lemma space_newline_greedy (ws r : string) :
  all_space ws = true → space_newline r = [] →
  space_newline (ws +:+ String newline r) = r :: drop 1 (space_newline (ws +:+ String newline r)).
Proof.
  intros Hws Hr. induction ws as [|c ws IH].
  - simpl. by rewrite Hr.
  - simpl in Hws. apply andb_true_iff in Hws as [Hc Hws].
    change (String c ws +:+ ?s) with (String c (ws +:+ s)). cbn [space_newline].
    rewrite Hc, (IH Hws). done.
Qed.

Lemma lstrip_space_prefix (ws s : string) :
  all_space ws = true → PyStr.lstrip (ws +:+ s) = PyStr.lstrip s.
Proof.
  induction ws as [|c ws IH]; simpl; [done|].
  intros [-> Hws]%andb_true_iff. by apply IH.
Qed.

Lemma closing_fence_body (ws body : string) :
  all_space ws = true →
  ∃ body', closing_fence (String newline ("---" +:+ ws +:+ String newline body)) = Some body'
           ∧ PyStr.strip body' = PyStr.strip body.
Proof.
  intros Hws. destruct (closing_fence_complete ws body Hws) as [b Hb].
  exists b. split; [done|].
  apply closing_fence_sound in Hb as (ws' & Heq & Hws'). simpl in Heq.
  injection Heq as Heq. unfold PyStr.strip. f_equal.
  transitivity (PyStr.lstrip (ws +:+ String newline body)).
  - rewrite Heq. rewrite lstrip_space_prefix by done. done.
  - rewrite lstrip_space_prefix by done. done.
Qed.

Lemma frontmatter_match_document (ws1 fm ws2 body : string) (c : ascii) (fm' : string) :
  all_space ws1 = true → all_space ws2 = true →
  fm = String c fm' → PyStr.isspace c = false →
  PyStr.contains (String newline "---") fm = false →
  ∃ body', frontmatter_match (header_of ws1 fm ws2 body) = Some (fm, body')
           ∧ PyStr.strip body' = PyStr.strip body.
Proof.
  intros Hws1 Hws2 Hfm Hc Hno.
  destruct (closing_fence_body ws2 body Hws2) as (body' & Hfence & Hstrip).
  exists body'. split; [|done].
  unfold frontmatter_match, header_of. simpl.
  rewrite space_newline_greedy; [|done|by rewrite Hfm; simpl; rewrite Hc].
  cbn [first_match]. rewrite (lazy_header_exact fm _ body'); [done|done|].
  by apply no_fence_inside.
Qed.

(** X10: for a document written as opening line, front matter, closing
    line and body, whose front matter starts with a character that is not
    white space and has no line that starts with three hyphens after its
    first, [parse_pattern_frontmatter] reads the five fields from the
    lines of that front matter with the documented defaults and returns the
    stripped body, whatever white space follows the hyphens. *)
Theorem parse_well_formed_document (ws1 fm ws2 body : string) (c : ascii) (fm' : string) :
  all_space ws1 = true → all_space ws2 = true →
  fm = String c fm' → PyStr.isspace c = false →
  PyStr.contains (String newline "---") fm = false →
  let parsed := parse_pattern_frontmatter (header_of ws1 fm ws2 body) in
  let metadata := parse_metadata fm in
  p_body parsed = PyStr.strip body
  ∧ p_name parsed = default "unknown" (Dict.get "name" metadata)
  ∧ p_title parsed = default "Unknown Pattern" (Dict.get "title" metadata)
  ∧ p_description parsed = default "No description" (Dict.get "description" metadata)
  ∧ p_category parsed = default "unknown" (Dict.get "category" metadata)
  ∧ p_complexity parsed = default "unknown" (Dict.get "complexity" metadata).
Proof.
  intros Hws1 Hws2 Hfm Hc Hno parsed metadata.
  destruct (frontmatter_match_document ws1 fm ws2 body c fm' Hws1 Hws2 Hfm Hc Hno)
    as (body' & Hm & Hstrip).
  unfold parsed, parse_pattern_frontmatter. rewrite Hm.
  cbn [p_body p_name p_title p_description p_category p_complexity].
  by rewrite Hstrip.
Qed.

Lemma parse_well_formed_document_witness :
  p_body (parse_pattern_frontmatter
            (header_of " " "name: router" "" (String newline " # Router  ")))
  = "# Router".
Proof.
  destruct (parse_well_formed_document " " "name: router" ""
              (String newline " # Router  ") "n" "ame: router")
    as (Hbody & _); [reflexivity|reflexivity|reflexivity|reflexivity|reflexivity|].
  rewrite Hbody. reflexivity.
Defined.

Lemma has_char_app (c : ascii) (a b : string) :
  has_char c (a +:+ b) = has_char c a || has_char c b.
Proof. induction a as [|x a IH]; simpl; [done|]. by rewrite IH, orb_assoc. Qed.

Lemma split_free (sep : ascii) (a : string) :
  has_char sep a = false → PyStr.split sep a = [a].
Proof.
  induction a as [|x a IH]; simpl; [done|].
  intros [Hx Ha]%orb_false_iff. rewrite Hx, IH; done.
Qed.

Lemma split_app (sep : ascii) (a b : string) :
  has_char sep a = false →
  PyStr.split sep (a +:+ String sep b) = a :: PyStr.split sep b.
Proof.
  induction a as [|x a IH]; simpl.
  - intros _. by rewrite Ascii.eqb_refl.
  - intros [Hx Ha]%orb_false_iff. rewrite Hx, IH; done.
Qed.

Lemma split_lines (ls : list string) :
  ls ≠ [] → Forall (λ l, has_char newline l = false) ls →
  PyStr.split newline (lines ls) = ls.
Proof.
  intros Hne Hall. unfold lines.
  induction Hall as [|l ls Hl Hls IH]; [done|].
  destruct ls as [|l' ls].
  - simpl. by apply split_free.
  - change (PyStr.join (String newline "") (l :: l' :: ls))
      with (l +:+ String newline (PyStr.join (String newline "") (l' :: ls))).
    rewrite split_app by done. by rewrite IH.
Qed.

Lemma split_once_line (k v : string) :
  has_char ":" k = false →
  PyStr.split_once ":" (metadata_line (k, v)) = Some (k, v).
Proof.
  unfold metadata_line. cbn [fst snd].
  induction k as [|x k IH]; simpl; [done|].
  intros [Hx Hk]%orb_false_iff. rewrite Hx, IH; done.
Qed.

Lemma parse_metadata_lines (kvs : list (string * string)) :
  Forall (λ kv, has_char ":" kv.1 = false
                ∧ has_char newline kv.1 = false
                ∧ has_char newline kv.2 = false) kvs →
  parse_metadata (lines (metadata_line <$> kvs)) = metadata_of kvs.
Proof.
  intros Hall. unfold parse_metadata, metadata_of.
  destruct kvs as [|kv kvs]; [done|].
  rewrite split_lines; [|done|].
  - generalize (@nil (string * string)). revert Hall. generalize (kv :: kvs). clear.
    intros l Hall. induction Hall as [|[k v] l (Hk & _ & _) _ IH]; intros acc; [done|].
    cbn [fmap list_fmap foldl]. rewrite split_once_line by done. apply IH.
  - apply Forall_fmap. eapply Forall_impl; [exact Hall|].
    intros [k v] (_ & Hk & Hv). unfold metadata_line. simpl in *.
    rewrite has_char_app. simpl. by rewrite Hk, Hv.
Qed.

Lemma metadata_fold_get (after : list (string * string)) (acc : Dict.t string) (key : string) :
  (∀ kv, kv ∈ after → PyStr.strip kv.1 ≠ key) →
  Dict.get key
    (foldl (λ metadata kv, Dict.set (PyStr.strip kv.1) (PyStr.strip kv.2) metadata) acc after)
  = Dict.get key acc.
Proof.
  revert acc. induction after as [|kv after IH]; intros acc Hother; [done|].
  cbn [foldl]. rewrite IH by (intros kv' ?; apply Hother; by right).
  apply dict_get_set_ne. intros Heq. apply (Hother kv); [left|done].
Qed.

(** X11: in a front matter made of [key:value] lines, whose keys hold no
    colon and whose keys and values hold no newline, the value recorded for
    a key is the stripped value of the last line with that stripped key;
    the value may itself hold colons. *)
Theorem metadata_lookup_last_line (before after : list (string * string)) (k v : string) :
  Forall (λ kv, has_char ":" kv.1 = false
                ∧ has_char newline kv.1 = false
                ∧ has_char newline kv.2 = false) (before ++ (k, v) :: after) →
  (∀ kv, kv ∈ after → PyStr.strip kv.1 ≠ PyStr.strip k) →
  Dict.get (PyStr.strip k)
    (parse_metadata (lines (metadata_line <$> before ++ (k, v) :: after)))
  = Some (PyStr.strip v).
Proof.
  intros Hall Hafter. rewrite parse_metadata_lines by done.
  unfold metadata_of. rewrite foldl_app. cbn [foldl fst snd].
  rewrite metadata_fold_get by done. apply dict_get_set_eq.
Qed.

Lemma metadata_lookup_last_line_witness :
  Dict.get "title"
    (parse_metadata (lines ["title: Draft"; "name:router"; " title :  Router Pattern "]))
  = Some "Router Pattern".
Proof.
  apply (metadata_lookup_last_line [("title", " Draft"); ("name", "router")] []
           " title " "  Router Pattern ").
  - repeat (constructor; [done|]). constructor.
  - intros kv Hkv. by apply elem_of_nil in Hkv.
Defined.

End ParseFacts.

Section DiscoveryFacts.
Import Patterns.

Lemma dict_set_keys {V : Type} (k : string) (v : V) (d : Dict.t V) :
  Dict.keys (Dict.set k v d)
  = if decide (k ∈ Dict.keys d) then Dict.keys d else Dict.keys d ++ [k].
Proof.
  induction d as [|[k' v'] d IH]; cbn [Dict.set Dict.keys map fst].
  - case_decide as Hin; [by apply elem_of_nil in Hin|done].
  - destruct (String.eqb_spec k k') as [->|Hne]; cbn [Dict.keys map fst].
    + clear IH. case_decide as Hout; [done|]. destruct Hout. left.
    + fold (Dict.keys (Dict.set k v d)). fold (Dict.keys d). rewrite IH.
      repeat case_decide; try done.
      * exfalso. auto using list_elem_of_further.
      * exfalso. match goal with H : _ ∈ _ :: _ |- _ => apply elem_of_cons in H as [?|?] end; done.
Qed.

Lemma dict_set_NoDup {V : Type} (k : string) (v : V) (d : Dict.t V) :
  NoDup (Dict.keys d) → NoDup (Dict.keys (Dict.set k v d)).
Proof.
  intros Hnd. rewrite dict_set_keys. destruct (decide _); [done|].
  apply NoDup_app. split_and!; [done| |apply NoDup_singleton].
  by intros x Hx ->%list_elem_of_singleton.
Qed.

Lemma dict_set_length {V : Type} (k : string) (v : V) (d : Dict.t V) :
  (length (Dict.set k v d) ≤ S (length d))%nat.
Proof.
  induction d as [|[k' v'] d IH]; simpl; [lia|].
  destruct (String.eqb k k'); simpl; lia.
Qed.

Lemma dict_get_set {V : Type} (k k' : string) (v : V) (d : Dict.t V) :
  Dict.get k (Dict.set k' v d) = if decide (k = k') then Some v else Dict.get k d.
Proof.
  destruct (decide (k = k')) as [->|Hne]; [apply dict_get_set_eq|by apply dict_get_set_ne].
Qed.

Lemma discover_step_entry (fs : filesystem) (acc : Dict.t pattern) (f : string) :
  discover_step fs (Some acc) f
  = content ← read_text fs f;
    Some (Dict.set (p_name (parse_pattern_frontmatter content)) (entry_of f content) acc).
Proof. rewrite discover_step_Some. by destruct (read_text fs f). Qed.

Lemma discover_fold_entries (fs : filesystem) (l : list string)
    (acc patterns : Dict.t pattern) :
  foldl (discover_step fs) (Some acc) l = Some patterns →
  (NoDup (Dict.keys acc) → NoDup (Dict.keys patterns))
  ∧ (length patterns ≤ length acc + length l)%nat
  ∧ (∀ k p, Dict.get k patterns = Some p →
       Dict.get k acc = Some p
       ∨ ∃ f content, f ∈ l ∧ read_text fs f = Some content
                      ∧ k = p_name (parse_pattern_frontmatter content)
                      ∧ p = entry_of f content)
  ∧ (∀ k, is_Some (Dict.get k acc) → is_Some (Dict.get k patterns))
  ∧ (∀ f, f ∈ l →
       ∃ content, read_text fs f = Some content
                  ∧ is_Some (Dict.get (p_name (parse_pattern_frontmatter content)) patterns)).
Proof.
  revert acc. induction l as [|f l IH]; intros acc; cbn [foldl].
  - intros [= ->]. split_and!; [done|simpl; lia|by left|done|by intros ? ?%elem_of_nil].
  - rewrite discover_step_entry. destruct (read_text fs f) as [content|] eqn:Hread;
      [|by rewrite discover_fold_None].
    cbn [mbind option_bind]. intros Hfold.
    destruct (IH _ Hfold) as (Hnd & Hlen & Hent & Hkeep & Hfiles). split_and!.
    + intros Hacc. by apply Hnd, dict_set_NoDup.
    + pose proof (dict_set_length (p_name (parse_pattern_frontmatter content))
                    (entry_of f content) acc). simpl. lia.
    + intros k p Hget. destruct (Hent k p Hget) as [Hset|(g & c & Hg & Hc & Hk & Hp)].
      * rewrite dict_get_set in Hset. destruct (decide _) as [->|_]; [|by left].
        injection Hset as <-. right. exists f, content. split_and!; [left|done..].
      * right. exists g, c. split_and!; [by right|done..].
    + intros k Hk. apply Hkeep. rewrite dict_get_set. by destruct (decide _).
    + intros g [->|Hg]%elem_of_cons; [|by apply Hfiles].
      exists content. split; [done|]. apply Hkeep. by rewrite dict_get_set_eq.
Qed.

(** X12: what [discover_patterns] returns has distinct keys and no more
    entries than the directory has documents; every entry is filed under
    the name of its own front matter, carries the path of a document of the
    directory and the metadata parsed from that document; and every
    document of an existing directory has its name among the keys. *)
Theorem discovered_entries (fs : filesystem) (patterns : Dict.t pattern) :
  discover_patterns fs = Some patterns →
  NoDup (Dict.keys patterns)
  ∧ (length patterns ≤ length (glob_md fs))%nat
  ∧ (∀ k p, Dict.get k patterns = Some p →
       dir_exists fs = true ∧ name p = k ∧ path p ∈ glob_md fs
       ∧ ∃ content, read_text fs (path p) = Some content ∧ p = entry_of (path p) content)
  ∧ (dir_exists fs = true →
     ∀ f, f ∈ glob_md fs →
       ∃ content, read_text fs f = Some content
                  ∧ is_Some (Dict.get (p_name (parse_pattern_frontmatter content)) patterns)).
Proof.
  unfold discover_patterns. destruct (dir_exists fs); cbn [negb].
  - intros (Hnd & Hlen & Hent & _ & Hfiles)%discover_fold_entries. split_and!.
    + apply Hnd. constructor.
    + simpl in Hlen. lia.
    + intros k p [Hnil|(f & content & Hf & Hread & -> & ->)]%Hent; [done|].
      split_and!; [done|done|done|]. by exists content.
    + intros _. apply Hfiles.
  - intros [= <-]. split_and!; [constructor|simpl; lia|done|done].
Qed.

Lemma discovered_entries_witness :
  NoDup (Dict.keys demo_patterns) ∧ (length demo_patterns ≤ length (glob_md demo_fs))%nat.
Proof.
  destruct (discovered_entries demo_fs demo_patterns) as (Hnd & Hlen & _);
    [vm_compute; reflexivity|].
  split; [exact Hnd|exact Hlen].
Defined.



End DiscoveryFacts.

Section LoadingFacts.
Import Patterns.

Lemma normalize_char_idempotent (c : ascii) :
  let g c :=
    let l := PyStr.lower_char c in
    let u := if Ascii.eqb l "_" then "-"%char else l in
    if Ascii.eqb u " " then "-"%char else u in
  g (g c) = g c.
Proof. by destruct c as [[] [] [] [] [] [] [] []]. Qed.

Lemma normalize_cons (c : ascii) (s : string) :
  normalize (String c s)
  = String (let l := PyStr.lower_char c in
            let u := if Ascii.eqb l "_" then "-"%char else l in
            if Ascii.eqb u " " then "-"%char else u)
           (normalize s).
Proof. reflexivity. Qed.

Lemma normalize_idempotent (pattern_name : string) :
  normalize (normalize pattern_name) = normalize pattern_name.
Proof.
  induction pattern_name as [|c s IH]; [done|].
  rewrite !normalize_cons, IH. f_equal. apply normalize_char_idempotent.
Qed.

Lemma normalize_chars (pattern_name : string) :
  has_char " " (normalize pattern_name) = false
  ∧ has_char "_" (normalize pattern_name) = false.
Proof.
  induction pattern_name as [|c s [IH1 IH2]]; [done|].
  rewrite normalize_cons. cbn [has_char]. rewrite IH1, IH2, !orb_false_r.
  by destruct c as [[] [] [] [] [] [] [] []].
Qed.

(** X14: the normalisation of [load_pattern] is idempotent and leaves no
    space and no underscore; hence a name that is not its own normal form
    never enters the loaded list, whatever name is asked for. *)
Theorem names_outside_normal_form_never_load (pattern_name : string) :
  normalize (normalize pattern_name) = normalize pattern_name
  ∧ has_char " " (normalize pattern_name) = false
  ∧ has_char "_" (normalize pattern_name) = false
  ∧ ∀ key fs st,
      normalize key ≠ key →
      key ∈ _loaded_patterns (load_pattern fs pattern_name st).2 →
      key ∈ _loaded_patterns st.
Proof.
  split_and!; [apply normalize_idempotent|apply normalize_chars..|].
  intros key fs st Hkey.
  destruct (load_pattern_loaded fs pattern_name st) as [->| ->]; [done|].
  intros [Hin| ->%list_elem_of_singleton]%elem_of_app; [done|].
  destruct Hkey. apply normalize_idempotent.
Qed.

Lemma names_outside_normal_form_never_load_witness :
  normalize (normalize "Deep Agents") = normalize "Deep Agents"
  ∧ has_char "_" (normalize "Deep_Agents") = false.
Proof.
  split.
  - apply (names_outside_normal_form_never_load "Deep Agents").
  - apply (names_outside_normal_form_never_load "Deep_Agents").
Defined.

Lemma loaded_state_differs (st : state) (id : string) :
  {| _loaded_patterns := _loaded_patterns st ++ [id]; _patterns := _patterns st |} ≠ st.
Proof.
  intros Heq. apply (f_equal (λ s, length (_loaded_patterns s))) in Heq.
  simpl in Heq. rewrite length_app in Heq. simpl in Heq. lia.
Qed.

(** X15: [load_pattern] changes the module state exactly when it reports
    the pattern as loaded; then the normalised name, known, readable and
    not loaded before, is appended to the loaded list and nothing else
    changes. *)
Theorem load_changes_state_only_when_loaded (fs : filesystem) (pattern_name : string)
    (st : state) :
  let result := load_pattern fs pattern_name st in
  (result.2 ≠ st ↔ ∃ t c x body, result.1 = Loaded t c x body)
  ∧ (result.2 = st
     ∨ result.2 = {| _loaded_patterns := _loaded_patterns st ++ [normalize pattern_name];
                     _patterns := _patterns st |}
       ∧ (normalize pattern_name ∉ _loaded_patterns st)
       ∧ ∃ p content,
           Dict.get (normalize pattern_name) (_patterns st) = Some p
           ∧ read_text fs (path p) = Some content
           ∧ result.1 = Loaded (title p) (category p) (complexity p)
                          (p_body (parse_pattern_frontmatter content))).
Proof.
  intros result. unfold result, load_pattern.
  destruct (Dict.get (normalize pattern_name) (_patterns st)) as [p|] eqn:Hget.
  2: { cbn [fst snd]. split; [|by left]. split; [done|by intros (? & ? & ? & ? & ?)]. }
  destruct (PyStr.mem (normalize pattern_name) (_loaded_patterns st)) eqn:Hmem.
  { cbn [fst snd]. split; [|by left]. split; [done|by intros (? & ? & ? & ? & ?)]. }
  destruct (read_text fs (path p)) as [content|] eqn:Hread.
  2: { cbn [fst snd]. split; [|by left]. split; [done|by intros (? & ? & ? & ? & ?)]. }
  cbn [fst snd]. split.
  - split; [by eexists _, _, _, _|]. intros _. apply loaded_state_differs.
  - right. split_and!; [done| |by exists p, content].
    intros Hin%mem_spec. congruence.
Qed.

Lemma state_after_calls_app (fs : filesystem) (calls : list call) (c : call) (st : state) :
  state_after_calls fs (calls ++ [c]) st
  = state_after fs c (state_after_calls fs calls st).
Proof. unfold state_after_calls. by rewrite foldl_app. Qed.

Lemma load_pattern_patterns (fs : filesystem) (pattern_name : string) (st : state) :
  _patterns (load_pattern fs pattern_name st).2 = _patterns st.
Proof.
  unfold load_pattern. destruct (Dict.get _ _); [|done].
  destruct (PyStr.mem _ _); [done|]. by destruct (read_text _ _).
Qed.

Lemma load_pattern_new_id (fs : filesystem) (pattern_name : string) (st : state) :
  _loaded_patterns (load_pattern fs pattern_name st).2 = _loaded_patterns st
  ∨ _loaded_patterns (load_pattern fs pattern_name st).2
    = _loaded_patterns st ++ [normalize pattern_name]
    ∧ (normalize pattern_name ∉ _loaded_patterns st)
    ∧ ∃ p, Dict.get (normalize pattern_name) (_patterns st) = Some p
           ∧ is_Some (read_text fs (path p)).
Proof.
  unfold load_pattern.
  destruct (Dict.get (normalize pattern_name) (_patterns st)) as [p|] eqn:Hget; [|by left].
  destruct (PyStr.mem (normalize pattern_name) (_loaded_patterns st)) eqn:Hmem; [by left|].
  destruct (read_text fs (path p)) as [content|] eqn:Hread; [|by left].
  right. cbn [snd _loaded_patterns]. split_and!; [done| |].
  - intros Hin%mem_spec. congruence.
  - exists p. by rewrite Hread.
Qed.

(** X16: starting from an empty loaded list, after any sequence of calls of
    the module the discovered patterns are unchanged, the loaded list has
    no duplicate, every loaded id is in normal form and is a discovered
    pattern with a readable document, and the list is no longer than the
    number of patterns. *)
Theorem loaded_list_invariant (fs : filesystem) (patterns : Dict.t pattern)
    (calls : list call) :
  let st := state_after_calls fs calls {| _loaded_patterns := []; _patterns := patterns |} in
  _patterns st = patterns
  ∧ NoDup (get_loaded_patterns st)
  ∧ (∀ id, id ∈ get_loaded_patterns st →
       normalize id = id
       ∧ ∃ p, Dict.get id patterns = Some p ∧ is_Some (read_text fs (path p)))
  ∧ (length (get_loaded_patterns st) ≤ length patterns)%nat.
Proof.
  intros st. unfold get_loaded_patterns.
  assert (_patterns st = patterns
          ∧ NoDup (_loaded_patterns st)
          ∧ ∀ id, id ∈ _loaded_patterns st →
              normalize id = id
              ∧ ∃ p, Dict.get id patterns = Some p ∧ is_Some (read_text fs (path p)))
    as (Hp & Hnd & Hids).
  { unfold st. clear st. induction calls as [|c calls IH] using rev_ind.
    - cbn. split_and!; [done|constructor|by intros ? ?%elem_of_nil].
    - rewrite state_after_calls_app. destruct IH as (Hp & Hnd & Hids).
      revert Hp Hnd Hids. generalize (state_after_calls fs calls
        {| _loaded_patterns := []; _patterns := patterns |}). intros st Hp Hnd Hids.
      destruct c as [|n| | | | |]; cbn [state_after]; try done.
      + rewrite load_pattern_patterns. split; [done|].
        destruct (load_pattern_new_id fs n st) as [->|(-> & Hnew & p & Hget & Hread)];
          [done|].
        split.
        * apply NoDup_app. split_and!; [done| |apply NoDup_singleton].
          by intros x Hx ->%list_elem_of_singleton.
        * intros id [Hin| ->%list_elem_of_singleton]%elem_of_app; [by apply Hids|].
          split; [apply normalize_idempotent|]. exists p. by rewrite <- Hp.
      + cbn. split_and!; [done|constructor|by intros ? ?%elem_of_nil]. }
  split_and!; [done..|].
  transitivity (length (Dict.keys patterns)); [|by unfold Dict.keys; rewrite length_map].
  apply submseteq_length, NoDup_submseteq; [done|].
  intros id (_ & p & Hget & _)%Hids. apply dict_get_elem_of in Hget.
  unfold Dict.keys. apply list_elem_of_fmap. by exists (id, p).
Qed.

Lemma loaded_list_invariant_witness :
  (length (get_loaded_patterns
             (state_after_calls demo_fs
                [call_load_pattern "Handoffs"; call_load_pattern "handoffs";
                 call_load_pattern "deep agents"; call_load_pattern "DEEP_AGENTS"]
                demo_state)) ≤ 2)%nat.
Proof.
  apply (loaded_list_invariant demo_fs demo_patterns
           [call_load_pattern "Handoffs"; call_load_pattern "handoffs";
            call_load_pattern "deep agents"; call_load_pattern "DEEP_AGENTS"]).
Defined.

End LoadingFacts.

Section TextFacts.

Lemma count_from_skip0 (sub s : string) :
  (0 < PyText.count_from sub 0 s)%nat ↔ PyStr.contains sub s = true.
Proof.
  induction s as [|c s IH]; cbn [PyText.count_from PyStr.contains].
  - destruct (PyStr.startswith sub ""); [split; [done|lia]|split; [lia|done]].
  - destruct (PyStr.startswith sub (String c s)); [split; [done|lia]|done].
Qed.

Lemma count_positive (sub s : string) :
  1 ≤ PyText.count sub s ↔ PyStr.contains sub s = true.
Proof. unfold PyText.count. rewrite <- count_from_skip0. lia. Qed.

Lemma count_from_bound (sub : string) (skip : nat) (s : string) :
  (PyText.count_from sub skip s ≤ S (String.length s))%nat.
Proof.
  revert skip. induction s as [|c s IH]; intros [|k]; cbn [PyText.count_from String.length].
  - destruct (PyStr.startswith sub ""); lia.
  - lia.
  - destruct (PyStr.startswith sub (String c s)).
    + pose proof (IH (String.length sub - 1)%nat). lia.
    + pose proof (IH 0%nat). lia.
  - pose proof (IH k). lia.
Qed.



Lemma length_replace_char (a b : ascii) (s : string) :
  String.length (PyStr.replace_char a b s) = String.length s.
Proof. induction s as [|c s IH]; simpl; [done|]. by rewrite IH. Qed.

Lemma str_length_take (n : nat) (s : string) :
  String.length (PyStr.take n s) = Nat.min n (String.length s).
Proof.
  revert s. induction n as [|n IH]; intros [|c s]; simpl; [done..|]. by rewrite IH.
Qed.

Lemma str_length_drop (n : nat) (s : string) :
  String.length (PyStr.drop n s) = (String.length s - n)%nat.
Proof.
  revert s. induction n as [|n IH]; intros [|c s]; simpl; [done|lia|done|]. by rewrite IH.
Qed.

Lemma str_length_append (a b : string) :
  String.length (a +:+ b) = (String.length a + String.length b)%nat.
Proof. induction a as [|c a IH]; simpl; [done|]. by rewrite IH. Qed.

Lemma has_char_replace (a b : ascii) (s : string) :
  a ≠ b → has_char a (PyStr.replace_char a b s) = false.
Proof.
  intros Hne. induction s as [|c s IH]; simpl; [done|]. rewrite IH, orb_false_r.
  destruct (Ascii.eqb_spec c a) as [->|Hc].
  - by apply Ascii.eqb_neq.
  - by apply Ascii.eqb_neq.
Qed.

End TextFacts.

Section SearchFacts.
Import Patterns PatternSearch.

Lemma search_fold_None (fs : filesystem) (query : string) (l : Dict.t pattern) :
  foldl (search_step fs query) None l = None.
Proof. by induction l. Qed.

Lemma search_fold_hits (fs : filesystem) (query : string) (l : Dict.t pattern)
    (acc : list search_result) :
  (∀ name p, (name, p) ∈ l → is_Some (read_text fs (path p))) →
  foldl (search_step fs query) (Some acc) l = Some (acc ++ omap (search_hit fs query) l).
Proof.
  revert acc. induction l as [|[name p] l IH]; intros acc Hread.
  - cbn. by rewrite app_nil_r.
  - destruct (Hread name p (list_elem_of_here _ _)) as [text Htext].
    cbn [foldl omap list_omap]. unfold search_step at 2, search_hit at 1.
    cbn [fst snd mbind option_bind]. rewrite Htext. cbn [mbind option_bind].
    destruct (PyStr.contains (PyStr.lower query) (PyStr.lower text)).
    + rewrite IH by (intros n q ?; apply (Hread n q); by right).
      by rewrite <- app_assoc.
    + apply IH. intros n q ?. apply (Hread n q). by right.
Qed.

Lemma search_fold_raised (fs : filesystem) (query : string) (l : Dict.t pattern)
    (acc : list search_result) (name : string) (p : pattern) :
  (name, p) ∈ l → read_text fs (path p) = None →
  foldl (search_step fs query) (Some acc) l = None.
Proof.
  revert acc. induction l as [|[n q] l IH]; intros acc Hin Hread;
    [by apply elem_of_nil in Hin|].
  cbn [foldl]. unfold search_step at 2. cbn [fst snd mbind option_bind].
  apply elem_of_cons in Hin as [[= <- <-]|Hin].
  - rewrite Hread. cbn. apply search_fold_None.
  - destruct (read_text fs (path q)) as [text|]; cbn [mbind option_bind];
      [|apply search_fold_None].
    destruct (PyStr.contains _ _); by apply IH.
Qed.

Lemma search_hit_spec (fs : filesystem) (query : string) (l : Dict.t pattern)
    (r : search_result) :
  r ∈ omap (search_hit fs query) l
  ↔ ∃ name p text,
      (name, p) ∈ l ∧ read_text fs (path p) = Some text
      ∧ PyStr.contains (PyStr.lower query) (PyStr.lower text) = true
      ∧ r = result_of query name p text.
Proof.
  rewrite list_elem_of_omap. unfold search_hit. split.
  - intros ([name p] & Hin & Hhit). cbn [fst snd] in Hhit.
    destruct (read_text fs (path p)) as [text|] eqn:Htext; [|done].
    cbn [mbind option_bind] in Hhit.
    destruct (PyStr.contains _ _) eqn:Hc; [|done]. injection Hhit as <-.
    by exists name, p, text.
  - intros (name & p & text & Hin & Htext & Hc & ->). exists (name, p).
    split; [done|]. cbn [fst snd]. rewrite Htext. cbn [mbind option_bind]. by rewrite Hc.
Qed.

Lemma search_report_hits (fs : filesystem) (query : string) (st : state) :
  (∀ name p, (name, p) ∈ _patterns st → is_Some (read_text fs (path p))) →
  search_patterns fs query st
  = match omap (search_hit fs query) (_patterns st) with
    | [] => NoPatternsMatching query
    | hits => PatternsMatching query (sorted_desc r_matches hits)
    end.
Proof.
  intros Hread. unfold search_patterns. rewrite search_fold_hits by done.
  rewrite app_nil_l. by destruct (omap _ _).
Qed.

(** X17: when every document can be read, [search_patterns] does not
    raise; its results are exactly the patterns whose lower-cased document
    holds the lower-cased query, each with its title, the number of
    occurrences (at least 1) and the snippet; no result has more matches
    than one before it, results with equal matches keep the order of
    [_patterns], and the "no patterns found" message is returned exactly
    when there is no result. *)
Theorem search_results_are_the_matching_documents (fs : filesystem) (query : string)
    (st : state) :
  (∀ name p, (name, p) ∈ _patterns st → is_Some (read_text fs (path p))) →
  let results := search_results (search_patterns fs query st) in
  search_patterns fs query st ≠ SearchRaised
  ∧ (results = [] ↔ search_patterns fs query st = NoPatternsMatching query)
  ∧ descending r_matches results
  ∧ (∀ r, r ∈ results ↔
       ∃ name p text,
         (name, p) ∈ _patterns st ∧ read_text fs (path p) = Some text
         ∧ PyStr.contains (PyStr.lower query) (PyStr.lower text) = true
         ∧ r = result_of query name p text)
  ∧ (∀ r, r ∈ results → 1 ≤ r_matches r)
  ∧ ∀ k, with_key r_matches k results
         = with_key r_matches k (omap (search_hit fs query) (_patterns st)).
Proof.
  intros Hread results. unfold results. rewrite (search_report_hits fs query st Hread).
  pose proof (search_hit_spec fs query (_patterns st)) as Hspec.
  revert Hspec. generalize (omap (search_hit fs query) (_patterns st)). intros hits Hspec.
  assert (∀ r, r ∈ hits → 1 ≤ r_matches r) as Hpos.
  { intros r (name & p & text & _ & _ & Hc & ->)%Hspec. by apply count_positive. }
  destruct hits as [|h hits].
  { cbn [search_results]. split_and!; [done|done|constructor|done|done|done]. }
  cbn [search_results].
  pose proof (sorted_desc_perm r_matches (h :: hits)) as Hperm.
  split_and!.
  - done.
  - split; [|done]. intros Hnil. rewrite Hnil in Hperm.
    by apply Permutation_nil_cons in Hperm.
  - apply sorted_desc_descending.
  - intros r. by rewrite Hperm.
  - intros r Hr. apply Hpos. by rewrite <- Hperm.
  - intros k. apply sorted_desc_stable.
Qed.

Lemma demo_documents_readable :
  ∀ name p, (name, p) ∈ _patterns demo_state → is_Some (read_text demo_fs (path p)).
Proof.
  assert (Forall (λ item, is_Some (read_text demo_fs (path item.2))) (_patterns demo_state))
    as Hall by (constructor; [by eexists|]; constructor; [by eexists|]; constructor).
  intros name p Hin. apply (proj1 (Forall_forall _ _) Hall (name, p) Hin).
Defined.

Lemma search_results_are_the_matching_documents_witness :
  search_patterns demo_fs "Sequential" demo_state ≠ SearchRaised
  ∧ descending r_matches (search_results (search_patterns demo_fs "Sequential" demo_state)).
Proof.
  destruct (search_results_are_the_matching_documents demo_fs "Sequential" demo_state
              demo_documents_readable) as (Hne & _ & Hdesc & _).
  split; [exact Hne|exact Hdesc].
Defined.

(** X18: [search_patterns] reads the document of every pattern, so it
    raises exactly when the document of some pattern cannot be read, even
    one that would not match. *)
Theorem search_raises_when_a_document_is_unreadable (fs : filesystem) (query : string)
    (st : state) :
  search_patterns fs query st = SearchRaised
  ↔ ∃ name p, (name, p) ∈ _patterns st ∧ read_text fs (path p) = None.
Proof.
  split.
  - intros Hraised.
    destruct (decide (Forall (λ item, is_Some (read_text fs (path item.2))) (_patterns st)))
      as [Hall|Hsome].
    + rewrite search_report_hits in Hraised.
      * by destruct (omap _ _).
      * intros name p Hin. by apply (proj1 (Forall_forall _ _) Hall (name, p)).
    + apply not_Forall_Exists in Hsome; [|apply _].
      apply Exists_exists in Hsome as ([name p] & Hin & Hnone).
      exists name, p. split; [done|]. simpl in Hnone.
      destruct (read_text fs (path p)); [|done]. destruct Hnone. by eexists.
  - intros (name & p & Hin & Hread). unfold search_patterns.
    by rewrite (search_fold_raised fs query _ [] name p Hin Hread).
Qed.

(** X19: a snippet of [search_patterns] holds no newline and is at most
    156 characters longer than the query: 50 characters before the first
    occurrence, the occurrence, 100 after it and the two ellipses. *)
Theorem snippet_is_one_bounded_line (content query : string) :
  (String.length (snippet_of content (PyStr.lower query) query)
   ≤ String.length query + 156)%nat
  ∧ has_char newline (snippet_of content (PyStr.lower query) query) = false.
Proof.
  unfold snippet_of, PyText.slice, PyText.len.
  generalize (PyText.find_index (PyStr.lower query) content). intros idx. split.
  - rewrite !str_length_append, length_replace_char, str_length_drop, str_length_take. simpl. lia.
  - rewrite !has_char_app, has_char_replace by done. done.
Qed.







End SearchFacts.

Section AscendingFacts.
Context {A : Type} (key : A → string).

Lemma ltb_leb (a b : string) : String.ltb a b = true → String.leb a b = true.
Proof. unfold String.ltb, String.leb. by destruct (String.compare a b). Qed.

Lemma not_ltb_leb (a b : string) : String.ltb a b = false → String.leb b a = true.
Proof.
  unfold String.ltb, String.leb. rewrite (String.compare_antisym b a).
  by destruct (String.compare a b).
Qed.

Lemma insert_asc_perm (x : A) (l : list A) : insert_asc key x l ≡ₚ x :: l.
Proof.
  induction l as [|y l IH]; simpl; [done|].
  destruct (String.ltb _ _); [done|]. rewrite IH. apply Permutation_swap.
Qed.

Lemma sorted_asc_perm (l : list A) : sorted_asc key l ≡ₚ l.
Proof.
  unfold sorted_asc.
  assert (∀ acc, foldl (λ acc x, insert_asc key x acc) acc l ≡ₚ acc ++ l) as Hgen.
  { induction l as [|x l IH]; intros acc; simpl; [by rewrite app_nil_r|].
    rewrite IH, insert_asc_perm. simpl. apply Permutation_middle. }
  apply (Hgen []).
Qed.

Lemma insert_asc_ascending (x : A) (l : list A) :
  ascending key l → ascending key (insert_asc key x l).
Proof.
  unfold ascending. induction l as [|y l IH]; simpl; intros Hs.
  - by repeat constructor.
  - apply Sorted_inv in Hs as [Hs Hy].
    destruct (String.ltb (key x) (key y)) eqn:Hlt.
    + constructor; [by constructor|]. constructor. by apply ltb_leb.
    + constructor; [by apply IH|].
      destruct l as [|z l]; simpl.
      * constructor. by apply not_ltb_leb.
      * destruct (String.ltb (key x) (key z)); constructor;
          [by apply not_ltb_leb|by apply HdRel_inv in Hy].
Qed.

Lemma sorted_asc_ascending (l : list A) : ascending key (sorted_asc key l).
Proof.
  unfold sorted_asc.
  assert (∀ acc, ascending key acc →
                 ascending key (foldl (λ acc x, insert_asc key x acc) acc l)) as Hgen.
  { induction l as [|x l IH]; intros acc Hacc; simpl; [done|].
    by apply IH, insert_asc_ascending. }
  apply Hgen. constructor.
Qed.

End AscendingFacts.

Lemma ascending_map {A B : Type} (key1 : A → string) (key2 : B → string) (f : A → B)
    (l : list A) :
  (∀ x, key2 (f x) = key1 x) → ascending key1 l → ascending key2 (map f l).
Proof.
  intros Hkey. unfold ascending. induction 1 as [|x l Hs IH Hx]; simpl; constructor; [done|].
  destruct Hx as [|y l Hxy]; simpl; constructor. by rewrite !Hkey.
Qed.

Section ListingFacts.
Import Patterns PatternListing.

Lemma dict_mem_get {V : Type} (k : string) (d : Dict.t V) :
  Dict.mem k d = true ↔ is_Some (Dict.get k d).
Proof. unfold Dict.mem. destruct (Dict.get k d); split; by try intros [? ?]; eauto. Qed.

Lemma dict_set_twice {V : Type} (k : string) (v0 v : V) (d : Dict.t V) :
  Dict.get k d = None → Dict.set k v (Dict.set k v0 d) = d ++ [(k, v)].
Proof.
  induction d as [|[k' v'] d IH]; simpl.
  - intros _. by rewrite String.eqb_refl.
  - destruct (String.eqb k k') eqn:Hk; [done|]. intros Hget. simpl.
    by rewrite Hk, IH.
Qed.

Lemma dict_get_None_keys {V : Type} (k : string) (d : Dict.t V) :
  Dict.get k d = None → k ∉ Dict.keys d.
Proof.
  induction d as [|[k' v'] d IH]; simpl; [by intros _ ?%elem_of_nil|].
  destruct (String.eqb_spec k k') as [->|Hne]; [done|].
  intros Hget [?|?]%elem_of_cons; [done|]. by apply IH.
Qed.

Lemma group_step_cases (categories : Dict.t (list pattern)) (item : string * pattern) :
  group_step categories item
  = match Dict.get (category item.2) categories with
    | Some ps => Dict.set (category item.2) (ps ++ [item.2]) categories
    | None => categories ++ [(category item.2, [item.2])]
    end.
Proof.
  unfold group_step, Dict.mem. generalize (category item.2). intros cat.
  destruct (Dict.get cat categories) as [ps|] eqn:Hget.
  - by rewrite Hget.
  - rewrite dict_get_set_eq. cbn [default app]. by apply dict_set_twice.
Qed.

Lemma dict_set_concat {V : Type} (k : string) (ps : list V) (p : V) (d : Dict.t (list V)) :
  Dict.get k d = Some ps →
  concat (Dict.set k (ps ++ [p]) d).*2 ≡ₚ concat d.*2 ++ [p].
Proof.
  induction d as [|[k' v'] d IH]; simpl; [done|].
  destruct (String.eqb_spec k k') as [->|Hne].
  - intros [= ->]. csimpl. rewrite <- !app_assoc. apply Permutation_app_head.
    apply Permutation_app_comm.
  - intros Hget. csimpl. by rewrite IH, app_assoc.
Qed.

Lemma dict_set_elem_of {V : Type} (k k' : string) (v v' : V) (d : Dict.t V) :
  (k', v') ∈ Dict.set k v d → (k' = k ∧ v' = v) ∨ (k', v') ∈ d.
Proof.
  induction d as [|[k0 v0] d IH]; simpl.
  - intros [= -> ->]%list_elem_of_singleton. by left.
  - destruct (String.eqb k k0).
    + intros [[= -> ->]|Hin]%elem_of_cons; [by left|]. right. by right.
    + intros [[= -> ->]|Hin]%elem_of_cons; [right; left|].
      destruct (IH Hin) as [?|?]; [by left|]. right. by right.
Qed.

(** What the grouping keeps: distinct categories, no empty group, every
    pattern in the group of its category, and every pattern once. *)
Lemma group_fold_invariant (l : Dict.t pattern) (acc : Dict.t (list pattern)) :
  NoDup (Dict.keys acc) →
  (∀ cat ps, (cat, ps) ∈ acc → ps ≠ [] ∧ Forall (λ p, category p = cat) ps) →
  NoDup (Dict.keys (foldl group_step acc l))
  ∧ (∀ cat ps, (cat, ps) ∈ foldl group_step acc l →
       ps ≠ [] ∧ Forall (λ p, category p = cat) ps)
  ∧ concat (foldl group_step acc l).*2 ≡ₚ concat acc.*2 ++ l.*2.
Proof.
  revert acc. induction l as [|[n p] l IH]; intros acc Hnd Hgroups; cbn [foldl].
  - split_and!; [done|done|]. csimpl. by rewrite app_nil_r.
  - rewrite group_step_cases. cbn [fst snd].
    destruct (Dict.get (category p) acc) as [ps|] eqn:Hget.
    + destruct (IH (Dict.set (category p) (ps ++ [p]) acc)) as (H1 & H2 & H3).
      * by apply dict_set_NoDup.
      * intros cat qs [[-> ->]|Hin]%dict_set_elem_of; [|by apply Hgroups].
        split; [by destruct ps|]. apply Forall_app. split; [|by repeat constructor].
        apply (Hgroups (category p) ps). by apply dict_get_elem_of.
      * split_and!; [done|done|]. rewrite H3, dict_set_concat by done. csimpl.
        by rewrite <- app_assoc.
    + destruct (IH (acc ++ [(category p, [p])])) as (H1 & H2 & H3).
      * unfold Dict.keys. rewrite map_app. apply NoDup_app. split_and!; [done| |].
        -- intros k Hk [->|[]%elem_of_nil]%elem_of_cons.
           by apply (dict_get_None_keys _ _ Hget).
        -- apply NoDup_singleton.
      * intros cat qs [Hin|[= -> ->]%list_elem_of_singleton]%elem_of_app;
          [by apply Hgroups|]. split; [done|by repeat constructor].
      * split_and!; [done|done|]. rewrite H3, fmap_app, concat_app. csimpl.
        by rewrite <- app_assoc.
Qed.

Lemma group_by_category_spec (patterns : Dict.t pattern) :
  NoDup (Dict.keys (group_by_category patterns))
  ∧ (∀ cat ps, (cat, ps) ∈ group_by_category patterns →
       ps ≠ [] ∧ Forall (λ p, category p = cat) ps)
  ∧ concat (group_by_category patterns).*2 ≡ₚ patterns.*2.
Proof.
  unfold group_by_category.
  destruct (group_fold_invariant patterns []) as (H1 & H2 & H3);
    [constructor|by intros ?? ?%elem_of_nil|]. done.
Qed.

Lemma listing_sections_eq (st : state) :
  listing_sections (list_all_patterns st)
  = map (λ '(category, patterns),
           (category,
            map (λ p, {| l_pattern := p;
                         l_loaded := PyStr.mem (name p) (_loaded_patterns st) |})
                (sorted_asc name patterns)))
        (sorted_asc fst (group_by_category (_patterns st))).
Proof.
  unfold list_all_patterns. by destruct (_patterns st).
Qed.

Lemma sections_patterns (loaded : list string) (groups : Dict.t (list pattern)) :
  l_pattern <$>
    concat (map (λ '(category, patterns),
                   (category,
                    map (λ p, {| l_pattern := p;
                                 l_loaded := PyStr.mem (name p) loaded |})
                        (sorted_asc name patterns)))
                groups).*2
  ≡ₚ concat groups.*2.
Proof.
  induction groups as [|[cat ps] groups IH]; [done|].
  csimpl. rewrite fmap_app, IH. apply Permutation_app_tail.
  rewrite <- list_fmap_compose. rewrite <- (sorted_asc_perm name ps) at 2.
  generalize (sorted_asc name ps). intros l. induction l as [|p l IHl]; [done|].
  csimpl. by rewrite IHl.
Qed.

Lemma sections_categories (loaded : list string) (groups : Dict.t (list pattern)) :
  (map (λ '(category, patterns),
          (category,
           map (λ p, {| l_pattern := p;
                        l_loaded := PyStr.mem (name p) loaded |})
               (sorted_asc name patterns)))
       groups).*1
  = groups.*1.
Proof. induction groups as [|[cat ps] groups IH]; csimpl; [done|]. by rewrite IH. Qed.

(** X22: [list_all_patterns] shows every pattern of [_patterns] exactly
    once, in the section of its category; the sections have distinct
    categories in ascending order, no section is empty, the patterns of a
    section are in ascending order of name, and a pattern is marked as
    loaded exactly when its name is in the loaded list. *)
Theorem listing_groups_every_pattern_once (st : state) :
  let sections := listing_sections (list_all_patterns st) in
  l_pattern <$> concat sections.*2 ≡ₚ (_patterns st).*2
  ∧ NoDup sections.*1
  ∧ ascending fst sections
  ∧ ∀ cat rows, (cat, rows) ∈ sections →
      rows ≠ []
      ∧ ascending (λ row, name (l_pattern row)) rows
      ∧ ∀ row, row ∈ rows →
          category (l_pattern row) = cat
          ∧ (l_loaded row = true ↔ name (l_pattern row) ∈ _loaded_patterns st).
Proof.
  intros sections. unfold sections. rewrite listing_sections_eq.
  destruct (group_by_category_spec (_patterns st)) as (Hnd & Hgroups & Hall).
  pose proof (sorted_asc_perm fst (group_by_category (_patterns st))) as Hperm.
  pose proof (sorted_asc_ascending fst (group_by_category (_patterns st))) as Hasc.
  revert Hperm Hasc. generalize (sorted_asc fst (group_by_category (_patterns st))).
  intros groups Hperm Hasc. split_and!.
  - by rewrite sections_patterns, Hperm.
  - rewrite sections_categories, Hperm. exact Hnd.
  - apply (ascending_map fst); [by intros []|done].
  - intros cat rows ([cat' ps] & [= -> ->] & Hin)%list_elem_of_fmap.
    rewrite Hperm in Hin. destruct (Hgroups _ _ Hin) as [Hne Hcat].
    pose proof (sorted_asc_perm name ps) as Hps. split_and!.
    + intros Hnil%fmap_nil_inv. rewrite Hnil in Hps.
      apply Permutation_nil_l in Hps. by destruct Hne.
    + apply (ascending_map name); [done|]. apply sorted_asc_ascending.
    + intros row (p & -> & Hp)%list_elem_of_fmap. cbn [l_pattern l_loaded].
      rewrite Hps in Hp. split; [|apply mem_spec].
      apply (proj1 (Forall_forall _ _) Hcat p Hp).
Qed.

Lemma listing_groups_every_pattern_once_witness :
  NoDup (listing_sections (list_all_patterns demo_loaded_state)).*1.
Proof. apply (listing_groups_every_pattern_once demo_loaded_state). Defined.

End ListingFacts.

Section ExcerptFacts.
Import Patterns.

(** X23: the "When to Use" excerpt of [get_pattern_comparison] is never
    longer than 403 characters, and it is empty when the body has no such
    heading. *)
Theorem excerpt_is_bounded (body : string) :
  (String.length (when_to_use_excerpt body) ≤ 403)%nat
  ∧ (PyStr.find "## When to Use" body = None → when_to_use_excerpt body = "").
Proof.
  unfold when_to_use_excerpt. split.
  - generalize (match PyStr.find "## When to Use" body with
                | Some start =>
                    PyStr.strip
                      (PyStr.drop start
                         (PyStr.take
                            match PyStr.find_from "##" body (start + 10) with
                            | Some e => e
                            | None => (start + 500)%nat
                            end body))
                | None => ""
                end). intros w.
    destruct (400 <? String.length w)%nat eqn:Hlen.
    + rewrite str_length_append, str_length_take.
      change (String.length "...") with 3%nat. lia.
    + apply Nat.ltb_ge in Hlen. lia.
  - by intros ->.
Qed.

Lemma excerpt_is_bounded_witness :
  when_to_use_excerpt "# Router" = "".
Proof. by apply (excerpt_is_bounded "# Router"). Defined.

End ExcerptFacts.

Section SkillToolFacts.
Import Skills SkillTools.

Lemma remove_last (x : string) (l : list string) :
  x ∉ l → remove x (l ++ [x]) = l.
Proof.
  induction l as [|y l IH]; simpl; intros Hx.
  - by rewrite String.eqb_refl.
  - apply not_elem_of_cons in Hx as [Hne Hx].
    destruct (String.eqb_spec x y) as [->|_]; [done|]. by rewrite IH.
Qed.

Lemma remove_elem_of (x y : string) (l : list string) :
  y ∈ remove x l → y ∈ l.
Proof.
  induction l as [|z l IH]; simpl; [done|].
  destruct (String.eqb x z); [by right|].
  intros [->|?]%elem_of_cons; [left|right; auto].
Qed.

Lemma remove_keeps_NoDup (x : string) (l : list string) :
  NoDup l → NoDup (remove x l).
Proof.
  induction 1 as [|z l Hz Hnd IH]; simpl; [constructor|].
  destruct (String.eqb x z); [done|]. constructor; [|done].
  intros Hin. by apply Hz, (remove_elem_of x).
Qed.

Lemma unload_skill_id (skill_name : string) (st : state) :
  unload_skill skill_name st
  = if negb (PyStr.mem (skill_id_of skill_name) (_loaded_skills st))
    then (NotCurrentlyLoaded skill_name, st)
    else
      let st' := {| _loaded_skills := remove (skill_id_of skill_name) (_loaded_skills st);
                    _skills := _skills st |} in
      match Dict.get (skill_id_of skill_name) (_skills st) with
      | Some skill => (Unloaded (name skill), st')
      | None => (UnloadRaised, st')
      end.
Proof. reflexivity. Qed.

(** X24: loading a known skill that is not loaded and whose file can be
    read reports it as loaded and appends its id to the loaded list;
    unloading it right after gives back the state there was before the
    load. *)
Theorem load_then_unload_restores_the_state (fs : skills_dir) (skill_name content : string)
    (skill : Skills.skill) (st : state) :
  Dict.get (skill_id_of skill_name) (_skills st) = Some skill →
  skill_id_of skill_name ∉ _loaded_skills st →
  read_skill fs (path skill) = Some content →
  (load_skill fs skill_name st).1
  = SkillLoaded (name skill) (description skill) (s_body (parse_skill_frontmatter content))
  ∧ get_loaded_skills (load_skill fs skill_name st).2
    = _loaded_skills st ++ [skill_id_of skill_name]
  ∧ unload_skill skill_name (load_skill fs skill_name st).2 = (Unloaded (name skill), st).
Proof.
  intros Hget Hnew Hread. unfold load_skill, load_skill_content.
  rewrite Hget, Hread. cbn [mbind option_bind].
  destruct (PyStr.mem _ _) eqn:Hmem; [by apply mem_spec in Hmem|].
  cbn [fst snd get_loaded_skills _loaded_skills]. split_and!; [done|done|].
  rewrite unload_skill_id. cbn [_loaded_skills _skills].
  rewrite (proj2 (mem_spec (skill_id_of skill_name) (_loaded_skills st ++ [skill_id_of skill_name])))
    by (apply elem_of_app; right; left).
  cbn [negb]. rewrite Hget, remove_last by done. by destruct st.
Qed.

Lemma load_then_unload_restores_the_state_witness :
  unload_skill "Go Expert"
    (load_skill demo_skills_dir "Go Expert"
       {| _loaded_skills := ["python-expert"]; _skills := _skills demo_skills |}).2
  = (Unloaded "Go Expert Skill",
     {| _loaded_skills := ["python-expert"]; _skills := _skills demo_skills |}).
Proof.
  apply (load_then_unload_restores_the_state demo_skills_dir "Go Expert"
           (lines ["---"; "name: Go Expert Skill";
                   "description: Idiomatic Go"; "---"; "Handle every error."])
           {| name := "Go Expert Skill"; description := "Idiomatic Go";
              path := "skills/go-expert/SKILL.md" |}).
  - reflexivity.
  - compute_done.
  - reflexivity.
Defined.

Lemma loaded_lines_spec (skills : Dict.t skill) (loaded : list string) :
  (loaded_lines skills loaded = None ↔ ∃ id, id ∈ loaded ∧ Dict.get id skills = None)
  ∧ ∀ lines, loaded_lines skills loaded = Some lines →
      lines.*2 = loaded
      ∧ ∀ n id, (n, id) ∈ lines → ∃ skill, Dict.get id skills = Some skill ∧ n = name skill.
Proof.
  induction loaded as [|id loaded [IHn IHs]]; cbn [loaded_lines].
  - split; [split; [done|by intros (? & ?%elem_of_nil & _)]|].
    intros lines [= <-]. split; [done|]. by intros ?? ?%elem_of_nil.
  - destruct (Dict.get id skills) as [skill|] eqn:Hget; cbn [mbind option_bind].
    + destruct (loaded_lines skills loaded) as [rest|]; cbn [mbind option_bind].
      * split.
        -- split; [done|]. intros (id' & [->|Hin]%elem_of_cons & Hnone); [congruence|].
           assert (Some rest = None) as Habs by (apply IHn; by exists id'). done.
        -- intros lines [= <-]. destruct (IHs rest eq_refl) as [Hids Hnames].
           split; [by csimpl; rewrite Hids|].
           intros n id' [[= -> ->]|Hin]%elem_of_cons; [by exists skill|by apply Hnames].
      * split; [|done]. split; [|done]. intros _.
        destruct (proj1 IHn eq_refl) as (id' & Hin & Hnone). exists id'. split; [by right|done].
    + split; [|done]. split; [|done]. intros _. exists id. split; [left|done].
Qed.

Lemma list_loaded_raised_iff (st : state) :
  list_loaded_skills st = ListRaised
  ↔ ∃ id, id ∈ _loaded_skills st ∧ Dict.get id (_skills st) = None.
Proof.
  destruct (loaded_lines_spec (_skills st) (_loaded_skills st)) as [Hnone _].
  unfold list_loaded_skills. destruct (_loaded_skills st) as [|id loaded] eqn:Hl.
  - split; [done|]. by intros (? & ?%elem_of_nil & _).
  - rewrite <- Hnone. by destruct (loaded_lines _ _).
Qed.

(** X25: [list_loaded_skills] raises exactly when some loaded id is not a
    key of [_skills] (as after [set_skills_directory], which keeps the
    loaded list); otherwise it lists the loaded ids in their order.
    [unload_skill] of such an id removes it from the loaded list and then
    raises. *)
Theorem listing_loaded_skills_raises_on_a_stale_id (st : state) :
  (list_loaded_skills st = ListRaised
   ↔ ∃ id, id ∈ _loaded_skills st ∧ Dict.get id (_skills st) = None)
  ∧ (list_loaded_skills st = NoSkillsLoaded ↔ _loaded_skills st = [])
  ∧ (∀ lines, list_loaded_skills st = LoadedSkills lines → lines.*2 = _loaded_skills st)
  ∧ ∀ skill_name,
      skill_id_of skill_name ∈ _loaded_skills st →
      Dict.get (skill_id_of skill_name) (_skills st) = None →
      unload_skill skill_name st
      = (UnloadRaised,
         {| _loaded_skills := remove (skill_id_of skill_name) (_loaded_skills st);
            _skills := _skills st |}).
Proof.
  destruct (loaded_lines_spec (_skills st) (_loaded_skills st)) as [Hnone Hsome].
  split_and!; [apply list_loaded_raised_iff|unfold list_loaded_skills..|].
  - destruct (_loaded_skills st); [done|]. by destruct (loaded_lines _ _).
  - intros lines. destruct (_loaded_skills st) as [|id loaded] eqn:Hl; [done|].
    destruct (loaded_lines _ _) as [ls|]; [|done]. intros [= <-]. by apply Hsome.
  - intros skill_name Hin Hget. rewrite unload_skill_id.
    by rewrite (proj2 (mem_spec _ _) Hin), Hget.
Qed.

Lemma listing_loaded_skills_raises_on_a_stale_id_witness :
  (st ← set_skills_directory missing_skills_dir demo_skills; Some (list_loaded_skills st))
  = Some ListRaised.
Proof.
  change (Some (list_loaded_skills
                  {| _loaded_skills := ["python-expert"; "go-expert"]; _skills := [] |})
          = Some ListRaised).
  apply (f_equal Some). apply (proj1 (listing_loaded_skills_raises_on_a_stale_id _)).
  exists "python-expert". split; [left|reflexivity].
Defined.

Lemma skills_after_calls_app (fs : skills_dir) (calls : list call) (c : call) (st : state) :
  skills_after_calls fs (calls ++ [c]) st
  = state_after fs c (skills_after_calls fs calls st).
Proof. unfold skills_after_calls. by rewrite foldl_app. Qed.

(** X26: starting from an empty loaded list and with [_skills] fixed, after
    any sequence of loads, unloads and resets the loaded list has no
    duplicate and holds only known skills, so that neither
    [list_loaded_skills] nor [unload_skill] raises. *)
Theorem loaded_skills_stay_known (fs : skills_dir) (skills : Dict.t skill)
    (calls : list call) :
  let st := skills_after_calls fs calls {| _loaded_skills := []; _skills := skills |} in
  _skills st = skills
  ∧ NoDup (get_loaded_skills st)
  ∧ (∀ id, id ∈ get_loaded_skills st → is_Some (Dict.get id skills))
  ∧ list_loaded_skills st ≠ ListRaised
  ∧ ∀ skill_name, (unload_skill skill_name st).1 ≠ UnloadRaised.
Proof.
  intros st. unfold get_loaded_skills.
  assert (_skills st = skills ∧ NoDup (_loaded_skills st)
          ∧ ∀ id, id ∈ _loaded_skills st → is_Some (Dict.get id skills))
    as (Hs & Hnd & Hknown).
  { unfold st. clear st. induction calls as [|c calls IH] using rev_ind.
    - cbn. split_and!; [done|constructor|by intros ? ?%elem_of_nil].
    - rewrite skills_after_calls_app. destruct IH as (Hs & Hnd & Hknown).
      revert Hs Hnd Hknown.
      generalize (skills_after_calls fs calls {| _loaded_skills := []; _skills := skills |}).
      intros st Hs Hnd Hknown. destruct c as [n|n|]; cbn [state_after].
      + unfold load_skill.
        destruct (Dict.get (skill_id_of n) (_skills st)) as [skill|] eqn:Hget; [|done].
        destruct (PyStr.mem (skill_id_of n) (_loaded_skills st)) eqn:Hmem; [done|].
        destruct (load_skill_content fs (path skill)); [|done].
        cbn [snd _loaded_skills _skills]. split_and!; [done| |].
        * apply NoDup_app. split_and!; [done| |apply NoDup_singleton].
          intros x Hx ->%list_elem_of_singleton. apply mem_spec in Hx. congruence.
        * intros id [Hin| ->%list_elem_of_singleton]%elem_of_app; [by apply Hknown|].
          rewrite <- Hs, Hget. by eexists.
      + rewrite unload_skill_id. destruct (negb _); [done|].
        assert (_skills st = skills
                ∧ NoDup (remove (skill_id_of n) (_loaded_skills st))
                ∧ ∀ id, id ∈ remove (skill_id_of n) (_loaded_skills st) →
                        is_Some (Dict.get id skills)) as Hrem.
        { split_and!; [done|by apply remove_keeps_NoDup|].
          intros id Hin%remove_elem_of. by apply Hknown. }
        by destruct (Dict.get _ _).
      + cbn. split_and!; [done|constructor|by intros ? ?%elem_of_nil]. }
  split_and!; [done..| |].
  - intros (id & Hin & Hnone)%list_loaded_raised_iff.
    destruct (Hknown id Hin) as [skill Hskill]. congruence.
  - intros skill_name. rewrite unload_skill_id. destruct (negb _) eqn:Hmem; [done|].
    apply negb_false_iff, mem_spec, Hknown in Hmem as [skill Hskill].
    rewrite Hs, Hskill. done.
Qed.

Lemma loaded_skills_stay_known_witness :
  NoDup (get_loaded_skills
           (skills_after_calls demo_skills_dir
              [call_load_skill "go expert"; call_unload_skill "python_expert";
               call_load_skill "Python Expert"; call_unload_skill "GO-EXPERT"]
              {| _loaded_skills := []; _skills := _skills demo_skills |})).
Proof.
  apply (loaded_skills_stay_known demo_skills_dir (_skills demo_skills)
           [call_load_skill "go expert"; call_unload_skill "python_expert";
            call_load_skill "Python Expert"; call_unload_skill "GO-EXPERT"]).
Defined.

Lemma skill_discover_fold_None (fs : skills_dir) (l : list string) :
  foldl (discover_step fs) None l = None.
Proof. by induction l. Qed.

Lemma skill_discover_fold (fs : skills_dir) (l : list string) (acc skills : Dict.t skill) :
  NoDup (Dict.keys acc ++ l) →
  foldl (discover_step fs) (Some acc) l = Some skills →
  Dict.keys skills
  = Dict.keys acc
    ++ filter (λ d, is_dir fs d && skill_file_exists fs d = true) l
  ∧ ∀ id skill, Dict.get id skills = Some skill →
      Dict.get id acc = Some skill
      ∨ path skill = skill_file fs id
        ∧ ∃ content, read_skill fs (path skill) = Some content
                     ∧ name skill = s_name (parse_skill_frontmatter content)
                     ∧ description skill = s_description (parse_skill_frontmatter content).
Proof.
  revert acc. induction l as [|d l IH]; intros acc Hnd; cbn [foldl].
  - intros [= ->]. rewrite filter_nil, app_nil_r. split; [done|]. by left.
  - unfold discover_step at 2. cbn [mbind option_bind]. rewrite filter_cons.
    destruct (is_dir fs d && skill_file_exists fs d) eqn:Hd.
    + destruct (read_skill fs (skill_file fs d)) as [content|] eqn:Hread;
        cbn [mbind option_bind]; [|by rewrite skill_discover_fold_None].
      assert (d ∉ Dict.keys acc) as Hfresh.
      { apply NoDup_app in Hnd as (_ & Hdisj & _). intros Hin.
        apply (Hdisj d Hin). left. }
      rewrite dict_set_fresh by done. intros Hfold.
      destruct (IH (acc ++ [(d, {| name := s_name (parse_skill_frontmatter content);
                                  description := s_description (parse_skill_frontmatter content);
                                  path := skill_file fs d |})])) as [Hkeys Hent];
        [|done|].
      { unfold Dict.keys. rewrite map_app. cbn [map fst].
        rewrite <- app_assoc. exact Hnd. }
      rewrite decide_True by done. split.
      * rewrite Hkeys. unfold Dict.keys. rewrite map_app. cbn [map fst].
        by rewrite <- app_assoc.
      * intros id sk Hget. destruct (Hent id sk Hget) as [Hacc|?]; [|by right].
        rewrite <- (dict_set_fresh d _ acc Hfresh), dict_get_set in Hacc.
        destruct (decide (id = d)) as [->|_]; [|by left].
        injection Hacc as <-. right. split; [done|]. by exists content.
    + rewrite decide_False by done. intros Hfold. apply IH; [|done].
      apply NoDup_app in Hnd as (Hacc & Hdisj & Hl). apply NoDup_cons in Hl as [_ Hl].
      apply NoDup_app. split_and!; [done| |done].
      intros x Hx Hxl. apply (Hdisj x Hx). by right.
Qed.

(** X27: [discover_skills] files a skill under the name of its directory,
    not under the name of its front matter: over distinct directory
    entries the keys are, in the order of the listing, the directories that
    hold a [SKILL.md], and each entry carries the path of that file and the
    name and description parsed from it. *)
Theorem skills_are_keyed_by_directory (fs : skills_dir) (skills : Dict.t skill) :
  NoDup (iterdir fs) →
  discover_skills fs = Some skills →
  Dict.keys skills
  = (if skills_dir_exists fs
     then filter (λ d, is_dir fs d && skill_file_exists fs d = true) (iterdir fs)
     else [])
  ∧ ∀ id skill, Dict.get id skills = Some skill →
      path skill = skill_file fs id
      ∧ ∃ content, read_skill fs (path skill) = Some content
                   ∧ name skill = s_name (parse_skill_frontmatter content)
                   ∧ description skill = s_description (parse_skill_frontmatter content).
Proof.
  intros Hnd. unfold discover_skills. destruct (skills_dir_exists fs); cbn [negb].
  - intros [Hkeys Hent]%skill_discover_fold; [|done]. split; [done|].
    intros id sk Hget. by destruct (Hent id sk Hget).
  - by intros [= <-].
Qed.

Lemma skills_are_keyed_by_directory_witness :
  Dict.keys (_skills demo_skills) = ["python-expert"; "go-expert"].
Proof.
  apply (skills_are_keyed_by_directory demo_skills_dir (_skills demo_skills)).
  - compute_done.
  - vm_compute. reflexivity.
Defined.

End SkillToolFacts.
